(** * The Svelte node printer: document construction

    A shallow embedding of the printer of prettier-plugin-svelte
    ([print], [printTopLevelParts], [printChildren], [prepareChildren],
    [printSvelteBlockChildren], [splitTextToDocs], [expandNode] and their
    companions) together with the properties of the documents it builds.

    - JavaScript strings are [string]s: sequences of code units below
      256.
    - The builders of the layout library ([concat], [group], [line],
      ...) are the constructors of [Doc]; laying a document out is not
      part of the printer.
    - The three module-level variables are the state of a small monad;
      a [throw] leaves them as they were written.
    - The child printer the host passes to [print] is an argument, as in
      the source; it may change the module-level variables and it may
      throw.
    - The tree is edited in place by the source.  Here an edit of the
      node being printed, or of its children, yields a new node, which
      takes the place of the value of the path for the rest of the call;
      the ancestors in a path are as they were when the traversal entered
      them, and what the child printer does to the subtree it is given
      stays with it.
    - The helper modules of the plugin are not among the sources: their
      functions are the fields of [Helpers], except the few the
      specification tells enough about, which are modelled from it. *)

From Stdlib Require Import String Ascii List Bool Arith Lia.
Import ListNotations.
Open Scope string_scope.
Open Scope list_scope.
Open Scope nat_scope.
Set Warnings "-register-all".

(** ** JavaScript string primitives used by the printer *)

Module JsString.

Definition TAB : ascii := "009"%char.
Definition LF : ascii := "010"%char.
Definition VT : ascii := "011"%char.
Definition FF : ascii := "012"%char.
Definition CR : ascii := "013"%char.
Definition SP : ascii := " "%char.
Definition NBSP : ascii := "160"%char.

(** [\s] of a regular expression, and the characters [trim] removes. *)
Definition isSpace (c : ascii) : bool :=
  existsb (Ascii.eqb c) [TAB; LF; VT; FF; CR; SP; NBSP].

(** The class [[\t\n\f\r ]]. *)
Definition isSplitWs (c : ascii) : bool :=
  existsb (Ascii.eqb c) [TAB; LF; FF; CR; SP].

(** The class [[\t\f\r ]]. *)
Definition isBlank (c : ascii) : bool :=
  existsb (Ascii.eqb c) [TAB; FF; CR; SP].

(** [\w]: letters, digits and the underscore. *)
Definition isWordChar (c : ascii) : bool :=
  let n := nat_of_ascii c in
  (((65 <=? n) && (n <=? 90)) || ((97 <=? n) && (n <=? 122))
   || ((48 <=? n) && (n <=? 57)) || (n =? 95))%nat.

Fixpoint rev (s : string) : string :=
  match s with
  | EmptyString => EmptyString
  | String c r => rev r ++ String c EmptyString
  end.

Fixpoint trimStart (s : string) : string :=
  match s with
  | EmptyString => EmptyString
  | String c r => if isSpace c then trimStart r else s
  end.

Definition trimEnd (s : string) : string := rev (trimStart (rev s)).

Definition trim (s : string) : string := trimEnd (trimStart s).

(** [s.slice(a, b)] for non-negative [a] and [b]. *)
Definition slice (s : string) (a b : nat) : string := substring a (b - a) s.

Definition startsWith (p : ascii -> bool) (s : string) : bool :=
  match s with
  | EmptyString => false
  | String c _ => p c
  end.

Fixpoint forallb (p : ascii -> bool) (s : string) : bool :=
  match s with
  | EmptyString => true
  | String c r => p c && forallb p r
  end.

Fixpoint count (p : ascii -> bool) (s : string) : nat :=
  match s with
  | EmptyString => 0
  | String c r => (if p c then 1 else 0) + count p r
  end.

Definition isLF (c : ascii) : bool := Ascii.eqb c LF.

(** [s.split('\n')]: never empty. *)
Fixpoint splitLines (s : string) : list string :=
  match s with
  | EmptyString => [EmptyString]
  | String c r =>
      if isLF c then EmptyString :: splitLines r
      else match splitLines r with
           | l :: ls => String c l :: ls
           | [] => [String c EmptyString]
           end
  end.

(** [s.split(/[\t\n\f\r ]+/)]: the pieces between maximal runs of
    separators; a separator at either end leaves an empty piece there. *)
Fixpoint splitWs (s : string) : list string :=
  match s with
  | EmptyString => [EmptyString]
  | String c r =>
      if isSplitWs c then
        if startsWith isSplitWs r then splitWs r else EmptyString :: splitWs r
      else match splitWs r with
           | w :: ws => String c w :: ws
           | [] => [String c EmptyString]
           end
  end.

(** [/\n/.test(s)] *)
Definition hasLF (s : string) : bool := negb (count isLF s =? 0)%nat.

(** [\s*\n] matched at the start of [s]. *)
Fixpoint spacesThenLF (s : string) : bool :=
  match s with
  | EmptyString => false
  | String c r => isLF c || (isSpace c && spacesThenLF r)
  end.

(** [/\n\r?\s*\n\r?/.test(s)]: the final [\r?] never decides. *)
Fixpoint hasLFSpacesLF (s : string) : bool :=
  match s with
  | EmptyString => false
  | String c r =>
      (isLF c &&
         (spacesThenLF r ||
          match r with
          | String d r' => Ascii.eqb d CR && spacesThenLF r'
          | EmptyString => false
          end))
      || hasLFSpacesLF r
  end.

(** [[\t\f\r ]*\n] matched at the start of [s]; what follows it. *)
Fixpoint blanksThenLF (s : string) : option string :=
  match s with
  | EmptyString => None
  | String c r =>
      if isLF c then Some r
      else if isBlank c then blanksThenLF r else None
  end.

End JsString.

(** ** The document algebra

    The values the builders of the layout library return.  [hardline] and
    [literalline] are the library's constants; the printer never looks
    inside them. *)

Inductive Doc : Type :=
| DStr (s : string)
| DConcat (parts : list Doc)
| DGroup (contents : Doc)
| DIndent (contents : Doc)
| DDedent (contents : Doc)
| DFill (parts : list Doc)
| DLine
| DSoftline
| DHardline
| DLiteralline
| DBreakParent.

Module Builders.

Definition concat (parts : list Doc) : Doc := DConcat parts.
Definition group (d : Doc) : Doc := DGroup d.
Definition indent (d : Doc) : Doc := DIndent d.
Definition dedent (d : Doc) : Doc := DDedent d.
Definition fill (parts : list Doc) : Doc := DFill parts.
Definition line : Doc := DLine.
Definition softline : Doc := DSoftline.
Definition hardline : Doc := DHardline.
Definition literalline : Doc := DLiteralline.
Definition breakParent : Doc := DBreakParent.

(** The parts of [join(sep, arr)]. *)
Fixpoint joinParts (sep : Doc) (arr : list Doc) : list Doc :=
  match arr with
  | [] => []
  | [d] => [d]
  | d :: rest => d :: sep :: joinParts sep rest
  end.

Definition join (sep : Doc) (arr : list Doc) : Doc := concat (joinParts sep arr).

End Builders.
Import Builders.

(** A string used as a document. *)
Coercion DStr : string >-> Doc.

(** Modelled from the spec: [flatten] of the helpers module, which is not
    among the sources; the arrays it is given, one after the other (the
    lines of a suppressed node are "re-joined with literal line
    breaks"). *)
Definition flatten {A : Type} (arrays : list (list A)) : list A := List.concat arrays.

(** Modelled from the spec: [groupConcat] of the helpers module, which is
    not among the sources; a group around the concatenation of its parts. *)
Definition groupConcat (contents : list Doc) : Doc := group (concat contents).

(** JavaScript truthiness of a document: only the empty string is falsy. *)
Definition truthyDoc (d : Doc) : bool :=
  match d with
  | DStr EmptyString => false
  | _ => true
  end.

(** [d !== ''] *)
Definition notEmptyString (d : Doc) : bool := truthyDoc d.

(** [docs[0] = d]: an empty array grows to one element. *)
Definition setFirst (d : Doc) (docs : list Doc) : list Doc :=
  match docs with
  | [] => [d]
  | _ :: rest => d :: rest
  end.

(** [docs[docs.length - 1] = d]: on an empty array the index is [-1],
    which adds no element. *)
Fixpoint setLast (d : Doc) (docs : list Doc) : list Doc :=
  match docs with
  | [] => []
  | [_] => [d]
  | x :: rest => x :: setLast d rest
  end.

(** ** Text classification *)

(** Modelled from the spec: [startsWithLinebreak(text, nrLines)] of the
    node helpers, which are not among the sources; the text has at least
    [nrLines] newlines at its leading edge, blanks allowed before each. *)
Fixpoint startsWithLinebreak (text : string) (nrLines : nat) : bool :=
  match nrLines with
  | 0 => true
  | S n =>
      match JsString.blanksThenLF text with
      | Some rest => startsWithLinebreak rest n
      | None => false
      end
  end.

(** Modelled from the spec: [endsWithLinebreak(text, nrLines)] of the node
    helpers; the text has at least [nrLines] newlines at its trailing
    edge, blanks allowed after each. *)
Definition endsWithLinebreak (text : string) (nrLines : nat) : bool :=
  startsWithLinebreak (JsString.rev text) nrLines.

(** The words of a text, a [line] wherever white space separates them
    or stands at an end: [join(line, text.split(...)).parts] without its
    empty strings. *)
Definition wordDocs (text : string) : list Doc :=
  filter notEmptyString (joinParts line (map DStr (JsString.splitWs text))).

(** The body of [splitTextToDocs], on the text of the node. *)
Definition splitText (text : string) : list Doc :=
  let docs := wordDocs text in
  let docs := if startsWithLinebreak text 1 then setFirst hardline docs else docs in
  let docs := if startsWithLinebreak text 2 then hardline :: docs else docs in
  let docs := if endsWithLinebreak text 1 then setLast hardline docs else docs in
  let docs := if endsWithLinebreak text 2 then docs ++ [hardline] else docs in
  docs.

(** ** The syntax tree

    The node kinds the printer dispatches on, with the fields it reads. *)

Record Loc := mkLoc { loc_start : nat; loc_end : nat }.

(** The flags [printJS] sets on an embedded expression. *)
Record JsFlags := mkJsFlags {
  isJS : bool;
  forceSingleQuote : bool;
  forceSingleLine : bool;
  removeParentheses : bool
}.

(** The value of an attribute: [true] for an attribute without one. *)
Inductive AttrValue (N : Type) : Type :=
| ValueTrue
| ValueNodes (nodes : list N).
Arguments ValueTrue {N}.
Arguments ValueNodes {N} nodes.

(** The [tag] of a dynamic element: a string or an expression. *)
Inductive TagValue (N : Type) : Type :=
| TagString (s : string)
| TagExpr (e : N).
Arguments TagString {N} s.
Arguments TagExpr {N} e.

(** The binding patterns [expandNode] spells out. *)
Inductive Pattern : Type :=
| PNull
| PString (s : string)
| PArray (isPattern : bool) (elements : list Pattern)
| PAssignment (lhs rhs : Pattern)
| PIdentifier (name : string)
| PLiteral (raw : string)
| PObjectExpression (properties : list Pattern)
| PObjectPattern (properties : list Pattern)
| PProperty (key value : Pattern)
| PRestElement (argument : Pattern)
| POther (type_ : string).

Inductive ElementKind :=
| Element | InlineComponent | Slot | SlotTemplate | Window | Head | Title.

Inductive MetaKind := Options | Body | Document.

Inductive TagKind := MustacheTag | RawMustacheTag | Spread | ConstTag.

Inductive BranchKind := ThenBlock | PendingBlock | CatchBlock.

Inductive DirectiveKind := Binding | Class | Action | Animation.

Inductive Node : Type :=
| Text (loc : Loc) (raw data : string)
| Comment (loc : Loc) (data : string)
| Fragment (loc : Loc) (children : list Node)
| ElementLike (kind : ElementKind) (loc : Loc) (name : string)
    (attributes children : list Node)
    (expression : option Node) (tag : option (TagValue Node))
| Meta (kind : MetaKind) (loc : Loc) (name : string) (attributes : list Node)
| Identifier (loc : Loc) (name : string) (flags : option JsFlags)
| AttributeShorthand (loc : Loc) (expression : Node)
| Attribute (loc : Loc) (name : string) (value : AttrValue Node)
| Tag (kind : TagKind) (loc : Loc) (expression : Node)
| IfBlock (loc : Loc) (expression : Node) (children : list Node)
    (else_ : option Node)
| ElseBlock (loc : Loc) (children : list Node)
| EachBlock (loc : Loc) (expression : Node) (context : Pattern)
    (index : option string) (key : option Node) (children : list Node)
    (else_ : option Node)
| AwaitBlock (loc : Loc) (expression : Node) (value error : Pattern)
    (pending then_ catch_ : Node)
| KeyBlock (loc : Loc) (expression : Node) (children : list Node)
| Branch (kind : BranchKind) (loc : Loc) (children : list Node)
| EventHandler (loc : Loc) (name : string) (modifiers : option (list string))
    (expression : option Node)
| Directive (kind : DirectiveKind) (loc : Loc) (name : string)
    (expression : option Node)
| StyleDirective (loc : Loc) (name : string) (modifiers : option (list string))
    (value : AttrValue Node)
| Let (loc : Loc) (name : string) (expression : option Node)
| DebugTag (loc : Loc) (identifiers : list Node)
| Ref (loc : Loc) (name : string)
| Transition (loc : Loc) (name : string) (intro outro : bool)
    (modifiers : option (list string)) (expression : option Node)
| TopLevel (loc : Loc) (type_ : string) (attributes : list Node)
    (comments : list (Node * bool)) (contentType : string)
| OtherNode (loc : Loc) (type_ : string) (flags : option JsFlags).

(** The root the parser returns: the markup and the optional style and
    script sections. *)
Record ASTNode := mkAST {
  html : Node;
  css : option Node;
  instance : option Node;
  module_ : option Node
}.

(** What [path.getValue()] can be. *)
Inductive Value :=
| VNull
| VRoot (ast : ASTNode)
| VNode (n : Node).

(** The path of the traversal: the current value first, then its
    ancestors. *)
Definition FastPath := list Value.

Definition getValue (path : FastPath) : Value := hd VNull path.

(** [path.getParentNode(level)] *)
Definition getParentNode (path : FastPath) (level : nat) : Value :=
  nth (S level) path VNull.

Definition nodeLoc (n : Node) : Loc :=
  match n with
  | Text l _ _ | Comment l _ | Fragment l _ | ElementLike _ l _ _ _ _ _
  | Meta _ l _ _ | Identifier l _ _ | AttributeShorthand l _
  | Attribute l _ _ | Tag _ l _ | IfBlock l _ _ _ | ElseBlock l _
  | EachBlock l _ _ _ _ _ _ | AwaitBlock l _ _ _ _ _ _ | KeyBlock l _ _
  | Branch _ l _ | EventHandler l _ _ _ | Directive _ l _ _
  | StyleDirective l _ _ _ | Let l _ _ | DebugTag l _ | Ref l _
  | Transition l _ _ _ _ _ | TopLevel l _ _ _ _ | OtherNode l _ _ => l
  end.

Definition start (n : Node) : nat := loc_start (nodeLoc n).
Definition end_ (n : Node) : nat := loc_end (nodeLoc n).

(** [node.children], where the kind has child nodes. *)
Definition nodeChildren (n : Node) : option (list Node) :=
  match n with
  | Fragment _ c | ElementLike _ _ _ _ c _ _ | IfBlock _ _ c _
  | ElseBlock _ c | EachBlock _ _ _ _ _ c _ | KeyBlock _ _ c
  | Branch _ _ c => Some c
  | _ => None
  end.

(** [node.children = c] *)
Definition setChildren (n : Node) (c : list Node) : Node :=
  match n with
  | Fragment l _ => Fragment l c
  | ElementLike k l nm a _ e t => ElementLike k l nm a c e t
  | IfBlock l e _ el => IfBlock l e c el
  | ElseBlock l _ => ElseBlock l c
  | EachBlock l e cx i k _ el => EachBlock l e cx i k c el
  | KeyBlock l e _ => KeyBlock l e c
  | Branch k l _ => Branch k l c
  | other => other
  end.

(** [node.name], where the kind has a name. *)
Definition nodeName (n : Node) : string :=
  match n with
  | ElementLike _ _ nm _ _ _ _ | Meta _ _ nm _ | Identifier _ nm _
  | Attribute _ nm _ | EventHandler _ nm _ _ | Directive _ _ nm _
  | StyleDirective _ nm _ _ | Let _ nm _ | Ref _ nm
  | Transition _ nm _ _ _ _ => nm
  | _ => EmptyString
  end.

(** [node.attributes], where the kind has attributes. *)
Definition nodeAttributes (n : Node) : list Node :=
  match n with
  | ElementLike _ _ _ a _ _ _ | Meta _ _ _ a | TopLevel _ _ a _ _ => a
  | _ => []
  end.

Definition isText (n : Node) : bool :=
  match n with Text _ _ _ => true | _ => false end.

Definition isIfBlock (n : Node) : bool :=
  match n with IfBlock _ _ _ _ => true | _ => false end.

Definition isEachBlock (n : Node) : bool :=
  match n with EachBlock _ _ _ _ _ _ _ => true | _ => false end.

(** The fields [printJS] is asked to print. *)
Inductive JsField := FExpression | FTag | FKey.

(** [node[name]] for the embedded expressions. *)
Definition getJs (name : JsField) (n : Node) : option Node :=
  match name, n with
  | FExpression, ElementLike _ _ _ _ _ e _ => e
  | FExpression, AttributeShorthand _ e => Some e
  | FExpression, Tag _ _ e => Some e
  | FExpression, IfBlock _ e _ _ => Some e
  | FExpression, EachBlock _ e _ _ _ _ _ => Some e
  | FExpression, AwaitBlock _ e _ _ _ _ _ => Some e
  | FExpression, KeyBlock _ e _ => Some e
  | FExpression, EventHandler _ _ _ e => e
  | FExpression, Directive _ _ _ e => e
  | FExpression, Let _ _ e => e
  | FExpression, Transition _ _ _ _ _ e => e
  | FTag, ElementLike _ _ _ _ _ _ (Some (TagExpr e)) => Some e
  | FKey, EachBlock _ _ _ _ k _ _ => k
  | _, _ => None
  end.

(** [node[name] = e] *)
Definition setJs (name : JsField) (e : Node) (n : Node) : Node :=
  match name, n with
  | FExpression, ElementLike k l nm a c _ t => ElementLike k l nm a c (Some e) t
  | FExpression, AttributeShorthand l _ => AttributeShorthand l e
  | FExpression, Tag k l _ => Tag k l e
  | FExpression, IfBlock l _ c el => IfBlock l e c el
  | FExpression, EachBlock l _ cx i k c el => EachBlock l e cx i k c el
  | FExpression, AwaitBlock l _ v er p t c => AwaitBlock l e v er p t c
  | FExpression, KeyBlock l _ c => KeyBlock l e c
  | FExpression, EventHandler l nm m _ => EventHandler l nm m (Some e)
  | FExpression, Directive k l nm _ => Directive k l nm (Some e)
  | FExpression, Let l nm _ => Let l nm (Some e)
  | FExpression, Transition l nm i o m _ => Transition l nm i o m (Some e)
  | FTag, ElementLike k l nm a c ex _ => ElementLike k l nm a c ex (Some (TagExpr e))
  | FKey, EachBlock l ex cx i _ c el => EachBlock l ex cx i (Some e) c el
  | _, other => other
  end.

(** The four assignments of [printJS] on an expression node.  Only the
    expression kinds keep the flags; no other kind is ever an embedded
    expression. *)
Definition withFlags (f : JsFlags) (e : Node) : Node :=
  match e with
  | Identifier l nm _ => Identifier l nm (Some f)
  | OtherNode l t _ => OtherNode l t (Some f)
  | other => other
  end.

(** ** Options, the module-level variables, and the effects of printing *)

Record ParserOptions := mkOptions {
  originalText : string;
  svelteStrictMode : bool;
  svelteAllowShorthand : bool;
  svelteSortOrder : string;
  insertPragma : bool;
  parentParser : string;
  (** the options only the helper modules read *)
  otherOptions : list (string * string)
}.

(** [let ignoreNext], [let ignoreRange] and [let svelteOptionsDoc]. *)
Record Globals := mkGlobals {
  ignoreNext : bool;
  ignoreRange : bool;
  svelteOptionsDoc : option Doc
}.

Definition initialGlobals : Globals := mkGlobals false false None.

(** A call returns, throws, or never comes back; the module-level
    variables keep what was written before a throw. *)
Inductive Outcome (A : Type) : Type :=
| Returned (a : A)
| Thrown (msg : string)
| Diverged.
Arguments Returned {A} a.
Arguments Thrown {A} msg.
Arguments Diverged {A}.

Definition M (A : Type) : Type := Globals -> Outcome A * Globals.

Definition ret {A : Type} (a : A) : M A := fun g => (Returned a, g).

Definition throw {A : Type} (msg : string) : M A := fun g => (Thrown msg, g).

Definition diverge {A : Type} : M A := fun g => (Diverged, g).

Definition bind {A B : Type} (m : M A) (k : A -> M B) : M B :=
  fun g =>
    match m g with
    | (Returned a, g') => k a g'
    | (Thrown msg, g') => (Thrown msg, g')
    | (Diverged, g') => (Diverged, g')
    end.

Declare Scope printer_scope.
Delimit Scope printer_scope with printer.
Notation "x <- m ;; k" := (bind m (fun x => k))
  (at level 61, m at next level, right associativity) : printer_scope.
Notation "' ( x , y ) <- m ;; k" := (bind m (fun xy => let '(x, y) := xy in k))
  (at level 61, m at next level, x name, y name, right associativity) : printer_scope.
Notation "m ;;; k" := (bind m (fun _ => k))
  (at level 61, right associativity) : printer_scope.
Open Scope printer_scope.

Definition getGlobals : M Globals := fun g => (Returned g, g).

Definition setIgnoreNext (b : bool) : M unit :=
  fun g => (Returned tt, mkGlobals b (ignoreRange g) (svelteOptionsDoc g)).

Definition setIgnoreRange (b : bool) : M unit :=
  fun g => (Returned tt, mkGlobals (ignoreNext g) b (svelteOptionsDoc g)).

Definition setSvelteOptionsDoc (d : option Doc) : M unit :=
  fun g => (Returned tt, mkGlobals (ignoreNext g) (ignoreRange g) d).

(** [arr.map(f)] for an [f] with effects: left to right. *)
Fixpoint mapM {A B : Type} (f : A -> M B) (l : list A) : M (list B) :=
  match l with
  | [] => ret []
  | x :: rest =>
      y <- f x ;;
      ys <- mapM f rest ;;
      ret (y :: ys)
  end.

(** The child printer the host passes to [print]. *)
Definition PrintFn := FastPath -> M Doc.

(** [path.call(print, field)]: the callback on the path extended by the
    value of the field. *)
Definition pathCall (print : PrintFn) (path : FastPath) (child : Node) : M Doc :=
  print (VNode child :: path).

(** [path.map(f, field)]: the callback on each element of the field. *)
Definition pathMap {A : Type} (f : FastPath -> M A) (path : FastPath)
  (elements : list Node) : M (list A) :=
  mapM (fun child => f (VNode child :: path)) elements.

(** ** Collaborators

    The functions of the helper modules ([node-helpers], [helpers],
    [doc-helpers], [options], [lib/...]) and of the libraries the printer
    calls.  They are not among the sources, so the printer is embedded
    relative to them. *)

Inductive BlockWhitespace := WsNone | WsSpace | WsLine.

Inductive SortOrderPart := PartOptions | PartScripts | PartMarkup | PartStyles.

Record Helpers := mkHelpers {
  isBracketSameLine : ParserOptions -> bool;
  isPreTagContent : FastPath -> bool;
  replaceEndOfLineWith : string -> Doc -> list Doc;
  getAttributeLine : Node -> ParserOptions -> Doc;
  printWithPrependedAttributeLine : Node -> ParserOptions -> PrintFn -> PrintFn;
  isIgnoreDirective : Node -> bool;
  isIgnoreStartDirective : Node -> bool;
  isIgnoreEndDirective : Node -> bool;
  isNodeTopLevelHTML : Node -> FastPath -> bool;
  getNextNode : FastPath -> option Node;
  doesEmbedStartAfterNode : option Node -> FastPath -> bool;
  isBlockElement : Node -> ParserOptions -> bool;
  isInlineElement : FastPath -> ParserOptions -> Node -> bool;
  isInsideQuotedAttribute : FastPath -> ParserOptions -> bool;
  isTextNodeStartingWithWhitespace : Node -> bool;
  isTextNodeEndingWithWhitespace : Node -> bool;
  isTextNodeStartingWithLinebreak : Node -> nat -> bool;
  isTextNodeEndingWithLinebreak : Node -> nat -> bool;
  trimTextNodeLeft : Node -> Node;
  trimTextNodeRight : Node -> Node;
  checkWhitespaceAtStartOfSvelteBlock : Node -> ParserOptions -> BlockWhitespace;
  checkWhitespaceAtEndOfSvelteBlock : Node -> ParserOptions -> BlockWhitespace;
  hasSnippedContent : string -> bool;
  unsnipContent : string -> string;
  extractAttributes : string -> list Node;
  getText : Node -> ParserOptions -> string;
  parseSortOrder : string -> list SortOrderPart;
  isLine : Doc -> bool;
  isEmptyDoc : Doc -> bool;
  trim : list Doc -> (Doc -> bool) -> list Doc;
  (** what [trimRight([lastDoc], isLine)] leaves of [lastDoc], which it
      edits in place *)
  trimRightLines : Doc -> Doc;
  (** what [trimChildren(children, path)] leaves of [children], which it
      edits in place *)
  trimChildren : list Node -> FastPath -> list Node;
  isNodeSupportedLanguage : Node -> bool;
  shouldHugStart : Node -> bool -> ParserOptions -> bool;
  shouldHugEnd : Node -> bool -> ParserOptions -> bool;
  canOmitSoftlineBeforeClosingTag : Node -> FastPath -> ParserOptions -> bool;
  printRaw : Node -> string -> bool -> string;
  selfClosingTags : list string;
  formattableAttributes : list string;
  (** [generate] of astring; [None] when it throws *)
  generate : Node -> option string;
  generatePattern : Pattern -> option string
}.

(** Modelled from the spec: [getUnencodedText] of the node helpers, the
    raw text of a text node. *)
Definition getUnencodedText (n : Node) : string :=
  match n with
  | Text _ raw _ => raw
  | _ => EmptyString
  end.

(** Modelled from the spec: [isEmptyTextNode] of the node helpers, a text
    node that holds nothing but whitespace. *)
Definition isEmptyTextNode (n : Node) : bool :=
  match n with
  | Text _ _ _ => String.eqb (JsString.trim (getUnencodedText n)) EmptyString
  | _ => false
  end.

(** Modelled from the spec: [isLoneMustacheTag] of the node helpers, a
    value that is exactly one mustache tag. *)
Definition isLoneMustacheTag (value : AttrValue Node) : bool :=
  match value with
  | ValueNodes [Tag MustacheTag _ _] => true
  | _ => false
  end.

(** Modelled from the spec: the test of [isOrCanBeConvertedToShorthand]
    of the node helpers, which are not among the sources; the value is
    the shorthand already, or one mustache tag over the bare identifier
    that is the name of the attribute. *)
Definition shorthandValue (name : string) (value : AttrValue Node) : bool :=
  match value with
  | ValueNodes [AttributeShorthand _ _] => true
  | ValueNodes [Tag MustacheTag _ (Identifier _ id _)] => String.eqb id name
  | _ => false
  end.

(** Modelled from the spec: [isOrCanBeConvertedToShorthand] of the node
    helpers, on an attribute or a style directive. *)
Definition isOrCanBeConvertedToShorthand (n : Node) : bool :=
  match n with
  | Attribute _ name value => shorthandValue name value
  | StyleDirective _ name _ value => shorthandValue name value
  | _ => false
  end.

(** Modelled from the spec: [getChildren] of the node helpers, the child
    list of a node. *)
Definition getChildren (n : Node) : list Node :=
  match nodeChildren n with
  | Some c => c
  | None => []
  end.

(** Modelled from the spec: [options.locStart] and [options.locEnd], which
    the parser definition supplies; the offsets of the node. *)
Definition locStart (n : Node) : nat := start n.
Definition locEnd (n : Node) : nat := end_ n.

(** [/^\s*<!--\s*@(format|prettier)\W/.test(text)] *)
Fixpoint stripPrefix (p s : string) : option string :=
  match p, s with
  | EmptyString, _ => Some s
  | String a p', String b s' => if Ascii.eqb a b then stripPrefix p' s' else None
  | String _ _, EmptyString => None
  end.

Definition nonWordNext (s : string) : bool :=
  JsString.startsWith (fun c => negb (JsString.isWordChar c)) s.

Definition hasPragma (text : string) : bool :=
  match stripPrefix "<!--" (JsString.trimStart text) with
  | None => false
  | Some r =>
      match stripPrefix "@" (JsString.trimStart r) with
      | None => false
      | Some r =>
          match stripPrefix "format" r with
          | Some q => nonWordNext q
          | None => false
          end
          || match stripPrefix "prettier" r with
             | Some q => nonWordNext q
             | None => false
             end
      end
  end.

(** [arr.map((o, i) => f(o, i))] *)
Fixpoint mapIndexFrom {A B : Type} (i : nat) (f : A -> nat -> B) (l : list A) : list B :=
  match l with
  | [] => []
  | x :: rest => f x i :: mapIndexFrom (S i) f rest
  end.

Definition mapIndex {A B : Type} (f : A -> nat -> B) (l : list A) : list B :=
  mapIndexFrom 0 f l.

(** The document of a suppressed node: its source text, the lines joined
    by literal lines. *)
Definition rawSlice (options : ParserOptions) (node : Node) : Doc :=
  concat
    (flatten
       (mapIndex
          (fun (o : string) (i : nat) =>
             if i =? 0 then [DStr o] else [literalline; DStr o])
          (JsString.splitLines
             (JsString.slice (originalText options) (locStart node) (locEnd node))))).

Definition splitTextToDocs (node : Node) : list Doc :=
  splitText (getUnencodedText node).

(** ** The printer *)

Definition liftOutcome {A : Type} (o : Outcome A) : M A := fun g => (o, g).

Definition bindOutcome {A B : Type} (o : Outcome A) (k : A -> Outcome B) : Outcome B :=
  match o with
  | Returned a => k a
  | Thrown msg => Thrown msg
  | Diverged => Diverged
  end.

(** [a.join(sep)] on strings *)
Fixpoint joinStrings (sep : string) (l : list string) : string :=
  match l with
  | [] => EmptyString
  | [s] => s
  | s :: rest => (s ++ sep ++ joinStrings sep rest)%string
  end.

(** The double quote, as a string. *)
Definition dquote : string := String "034"%char EmptyString.

(** [s.slice(1)] *)
Definition dropFirst (s : string) : string :=
  match s with
  | EmptyString => EmptyString
  | String _ r => r
  end.

(** [x.name] where [x] is a pattern: [undefined] unless an identifier. *)
Definition patternName (p : Pattern) : option string :=
  match p with
  | PIdentifier name => Some name
  | _ => None
  end.

(** An optional string in a concatenation. *)
Definition showName (o : option string) : string :=
  match o with
  | Some s => s
  | None => "undefined"
  end.

Definition optStringEqb (a b : option string) : bool :=
  match a, b with
  | Some x, Some y => String.eqb x y
  | None, None => true
  | _, _ => false
  end.

Section Printer.

Context (H : Helpers).

(** [parentIsObjectExpression] stands for the second argument: only an
  [ObjectExpression] parent is ever told apart. *)
Fixpoint expandNode (node : Pattern) (parentIsObjectExpression : bool)
  : Outcome string :=
  let expandAll :=
    fix expandAll (inObject : bool) (l : list Pattern) : Outcome (list string) :=
      match l with
      | [] => Returned []
      | p :: rest =>
          bindOutcome (expandNode p inObject) (fun s =>
          bindOutcome (expandAll inObject rest) (fun ss =>
          Returned (s :: ss)))
      end in
  match node with
  | PNull => Returned EmptyString
  | PString s => Returned (" " ++ s)%string
  | PArray _ elements =>
      bindOutcome (expandAll false elements) (fun ss =>
      Returned (" [" ++ dropFirst (joinStrings "," ss) ++ "]")%string)
  | PAssignment lhs rhs =>
      bindOutcome (expandNode lhs false) (fun l =>
      bindOutcome (expandNode rhs false) (fun r =>
      Returned (l ++ " =" ++ r)%string))
  | PIdentifier name => Returned (" " ++ name)%string
  | PLiteral raw => Returned (" " ++ raw)%string
  | PObjectExpression properties =>
      bindOutcome (expandAll true properties) (fun ss =>
      Returned (" {" ++ joinStrings "," ss ++ " }")%string)
  | PObjectPattern properties =>
      bindOutcome (expandAll false properties) (fun ss =>
      Returned (" {" ++ joinStrings "," ss ++ " }")%string)
  | PProperty key value =>
      match value, key with
      | PNull, _ => Thrown "TypeError"
      | (PObjectPattern _ | PArray true _), PNull => Thrown "TypeError"
      | (PObjectPattern _ | PArray true _), _ =>
          bindOutcome (expandNode value false) (fun v =>
          Returned (" " ++ showName (patternName key) ++ ":" ++ v)%string)
      | PIdentifier _, PNull => Thrown "TypeError"
      | _, _ =>
          if (match value with
              | PIdentifier vname =>
                  negb (optStringEqb (patternName key) (Some vname))
              | _ => false
              end)
             || parentIsObjectExpression
          then
            bindOutcome (expandNode key false) (fun k =>
            bindOutcome (expandNode value false) (fun v =>
            Returned (k ++ ":" ++ v)%string))
          else expandNode value false
      end
  | PRestElement argument =>
      match argument with
      | PNull => Thrown "TypeError"
      | _ => Returned (" ..." ++ showName (patternName argument))%string
      end
  | POther type_ =>
      match generatePattern H node with
      | Some s => Returned s
      | None => Thrown ("unknown node type: " ++ type_)%string
      end
  end.

Definition replaceValue (path : FastPath) (n : Node) : FastPath :=
  VNode n :: tl path.

Definition printComment (node : Node) : Doc :=
  let data := match node with Comment _ data => data | _ => EmptyString end in
  let text := if hasSnippedContent H data then unsnipContent H data else data in
  groupConcat [DStr "<!--"; DStr text; DStr "-->"].

(** [printJS] flags the expression held in the field and prints it; the
    path comes back with the flagged node as its value. *)
Definition printJS (path : FastPath) (print : PrintFn)
  (forceSingleQuote forceSingleLine removeParentheses : bool) (name : JsField)
  : M (Doc * FastPath) :=
  match getValue path with
  | VNode n =>
      match getJs name n with
      | Some e =>
          let e' :=
            withFlags
              (mkJsFlags true forceSingleQuote forceSingleLine removeParentheses) e in
          let path' := replaceValue path (setJs name e' n) in
          d <- pathCall print path' e' ;;
          ret (d, path')
      | None => throw "TypeError"
      end
  | _ => throw "TypeError"
  end.

Definition printSvelteBlockJS (path : FastPath) (print : PrintFn) (name : JsField)
  : M (Doc * FastPath) :=
  printJS path print false true false name.

Definition printAttributeNodeValue (path : FastPath) (print : PrintFn)
  (quotes : bool) (node : Node) : M Doc :=
  let value :=
    match node with
    | Attribute _ _ (ValueNodes l) | StyleDirective _ _ _ (ValueNodes l) => l
    | _ => []
    end in
  valueDocs <- pathMap print path value ;;
  if negb quotes
     || negb (existsb (String.eqb (nodeName node)) (formattableAttributes H))
  then ret (concat valueDocs)
  else ret (indent (groupConcat (trim H valueDocs (isLine H)))).

Definition isOptionsNode (n : Node) : bool :=
  match n with Meta Options _ _ _ => true | _ => false end.

Definition isCommentNode (n : Node) : bool :=
  match n with Comment _ _ => true | _ => false end.

(** The closure [isCommentFollowedByOptions(node, idx)]; [following] is
    what comes after [idx] in the child list. *)
Definition isCommentFollowedByOptions (node : Node) (following : list Node) : bool :=
  if negb (isCommentNode node) || isIgnoreEndDirective H node
     || isIgnoreStartDirective H node
  then false
  else
    match following with
    | nextChild :: rest =>
        if isEmptyTextNode nextChild then
          match rest with
          | afterNext :: _ => isOptionsNode afterNext
          | [] => false
          end
        else isOptionsNode nextChild
    | [] => false
    end.

(** The closure [printSvelteOptions]: the options tag is printed into
    [svelteOptionsDoc], after the comment found above it, if any. *)
Definition printSvelteOptions (options : ParserOptions)
  (svelteOptionsComment : option Doc) (node : Node) (path : FastPath)
  (print : PrintFn) : M unit :=
  let bracketSameLine := isBracketSameLine H options in
  attrs <- pathMap (printWithPrependedAttributeLine H node options print)
             (VNode node :: path) (nodeAttributes node) ;;
  let optionsDoc :=
    groupConcat
      [groupConcat
         ([DStr "<"; DStr (nodeName node);
           indent
             (groupConcat
                (attrs ++ [if bracketSameLine then DStr EmptyString else dedent line]))]
          ++ [if bracketSameLine then DStr " " else DStr EmptyString; DStr "/>"]);
       hardline] in
  setSvelteOptionsDoc
    (Some
       match svelteOptionsComment with
       | Some c =>
           if truthyDoc c then groupConcat [c; hardline; optionsDoc] else optionsDoc
       | None => optionsDoc
       end).

(** The first loop of [prepareChildren], from some index on. *)
Fixpoint withoutOptions (options : ParserOptions) (path : FastPath)
  (print : PrintFn) (svelteOptionsComment : option Doc) (children : list Node)
  : M (list Node) :=
  match children with
  | [] => ret []
  | currentChild :: rest =>
      if isText currentChild && String.eqb (getUnencodedText currentChild) EmptyString
      then withoutOptions options path print svelteOptionsComment rest
      else if isEmptyTextNode currentChild
              && doesEmbedStartAfterNode H (Some currentChild) path
      then withoutOptions options path print svelteOptionsComment rest
      else if negb (String.eqb (svelteSortOrder options) "none")
              && isCommentFollowedByOptions currentChild rest
      then
        let comment := Some (printComment currentChild) in
        match rest with
        | nextChild :: rest' =>
            if isEmptyTextNode nextChild
            then withoutOptions options path print comment rest'
            else withoutOptions options path print comment rest
        | [] => ret []
        end
      else if negb (String.eqb (svelteSortOrder options) "none")
              && isOptionsNode currentChild
      then
        printSvelteOptions options svelteOptionsComment currentChild path print ;;;
        withoutOptions options path print svelteOptionsComment rest
      else
        kept <- withoutOptions options path print svelteOptionsComment rest ;;
        ret (currentChild :: kept)
  end.

(** The second loop of [prepareChildren]: a text node takes over the
    text of a text node that follows it. *)
Fixpoint mergeTexts (children : list Node) : list Node :=
  match children with
  | [] => []
  | currentChild :: rest =>
      match currentChild, rest with
      | Text loc raw data, Text _ nextRaw nextData :: rest' =>
          Text loc (raw ++ nextRaw) (data ++ nextData) :: mergeTexts rest'
      | _, _ => currentChild :: mergeTexts rest
      end
  end.

Definition prepareChildren (children : list Node) (path : FastPath)
  (print : PrintFn) (options : ParserOptions) : M (list Node) :=
  childrenWithoutOptions <- withoutOptions options path print None children ;;
  ret (mergeTexts childrenWithoutOptions).

(** *** Children *)

(** The variables of the loop of [printChildren]. *)
Record ChildrenState := mkChildrenState {
    childNodes : list Node;
    childDocs : list Doc;
    handleWhitespaceOfPrevTextNode : bool
  }.

(** [childNodes[idx] = n] *)
Fixpoint setNth (idx : nat) (n : Node) (l : list Node) : list Node :=
  match l, idx with
  | [], _ => []
  | _ :: rest, 0 => n :: rest
  | x :: rest, S i => x :: setNth i n rest
  end.

Section Children.

Variables (path : FastPath) (node : Node) (print : PrintFn)
          (options : ParserOptions).

(** The path while the loop runs: its value holds the child list as
    it stands. *)
Definition childrenPath (nodes : list Node) : FastPath :=
  replaceValue path (setChildren node nodes).

(** [printChild(idx)] *)
Definition printChild (nodes : list Node) (idx : nat) : M Doc :=
  match nth_error nodes idx with
  | Some child => pathCall print (childrenPath nodes) child
  | None => throw "TypeError"
  end.

Definition blockAt (nodes : list Node) (idx : nat) : bool :=
  match nth_error nodes idx with
  | Some n => isBlockElement H n options
  | None => false
  end.

Definition inlineAt (nodes : list Node) (idx : nat) : bool :=
  match nth_error nodes idx with
  | Some n => isInlineElement H (childrenPath nodes) options n
  | None => false
  end.

Definition handleInlineChild (idx : nat) (st : ChildrenState) : M ChildrenState :=
  d <- printChild (childNodes st) idx ;;
  ret (mkChildrenState (childNodes st)
         (childDocs st ++
            [if handleWhitespaceOfPrevTextNode st then groupConcat [line; d] else d])
         false).

Definition handleBlockChild (idx : nat) (st : ChildrenState) : M ChildrenState :=
  let nodes := childNodes st in
  let softlineBefore :=
    match idx with
    | 0 => false
    | S before =>
        match nth_error nodes before with
        | Some prevChild =>
            negb (isBlockElement H prevChild options)
            && (negb (isText prevChild)
                || handleWhitespaceOfPrevTextNode st
                || negb (isTextNodeEndingWithWhitespace H prevChild))
        | None => false
        end
    end in
  let docs := childDocs st ++ (if softlineBefore then [softline] else []) in
  d <- printChild nodes idx ;;
  let softlineAfter :=
    match nth_error nodes (idx + 1) with
    | Some nextChild =>
        negb (isText nextChild)
        || ((negb (isEmptyTextNode nextChild) || inlineAt nodes (idx + 2))
            && negb (isTextNodeStartingWithLinebreak H nextChild 1))
    | None => false
    end in
  ret (mkChildrenState nodes
         (docs ++ [d] ++ (if softlineAfter then [softline] else []))
         false).

Definition handleTextChild (idx : nat) (childNode : Node) (st : ChildrenState)
  : M ChildrenState :=
  let nodes := childNodes st in
  if (idx =? 0) || (idx =? length nodes - 1) then
    d <- printChild nodes idx ;;
    ret (mkChildrenState nodes (childDocs st ++ [d]) false)
  else
    let prevIsBlock := blockAt nodes (idx - 1) in
    (* the leading whitespace *)
    let '(childNode, nodes, docs) :=
      if isTextNodeStartingWithWhitespace H childNode
         && negb (isEmptyTextNode childNode)
      then
        let '(childNode, nodes, docs) :=
          if inlineAt nodes (idx - 1)
             && negb (isTextNodeStartingWithLinebreak H childNode 1)
          then
            let trimmed := trimTextNodeLeft H childNode in
            (trimmed, setNth idx trimmed nodes,
             removelast (childDocs st)
             ++ [groupConcat [last (childDocs st) (DStr EmptyString); line]])
          else (childNode, nodes, childDocs st) in
        if blockAt nodes (idx - 1)
           && negb (isTextNodeStartingWithLinebreak H childNode 1)
        then
          let trimmed := trimTextNodeLeft H childNode in
          (trimmed, setNth idx trimmed nodes, docs)
        else (childNode, nodes, docs)
      else (childNode, nodes, childDocs st) in
    (* the trailing whitespace *)
    let '(childNode, nodes, flag) :=
      if isTextNodeEndingWithWhitespace H childNode then
        let '(childNode, nodes, flag) :=
          if inlineAt nodes (idx + 1)
             && negb (isTextNodeEndingWithLinebreak H childNode 1)
          then
            let trimmed := trimTextNodeRight H childNode in
            (trimmed, setNth idx trimmed nodes, negb prevIsBlock)
          else (childNode, nodes, false) in
        if blockAt nodes (idx + 1)
           && negb (isTextNodeEndingWithLinebreak H childNode 2)
        then
          let trimmed := trimTextNodeRight H childNode in
          (trimmed, setNth idx trimmed nodes, negb prevIsBlock)
        else (childNode, nodes, flag)
      else (childNode, nodes, false) in
    d <- printChild nodes idx ;;
    ret (mkChildrenState nodes (docs ++ [d]) flag).

(** One turn of the loop. *)
Definition childStep (idx : nat) (st : ChildrenState) : M ChildrenState :=
  match nth_error (childNodes st) idx with
  | None => ret st
  | Some childNode =>
      if isText childNode then handleTextChild idx childNode st
      else if isBlockElement H childNode options then handleBlockChild idx st
      else if isInlineElement H (childrenPath (childNodes st)) options childNode
      then handleInlineChild idx st
      else
        d <- printChild (childNodes st) idx ;;
        ret (mkChildrenState (childNodes st) (childDocs st ++ [d]) false)
  end.

Fixpoint childLoop (indices : list nat) (st : ChildrenState) : M ChildrenState :=
  match indices with
  | [] => ret st
  | idx :: rest =>
      st' <- childStep idx st ;;
      childLoop rest st'
  end.

End Children.

(** [printChildren]; the path comes back with the child list the call
    left in its value. *)
Definition printChildren (path : FastPath) (print : PrintFn)
  (options : ParserOptions) : M (Doc * FastPath) :=
  match getValue path with
  | VNode node =>
      match nodeChildren node with
      | None => throw "TypeError"
      | Some children =>
          if isPreTagContent H path then
            docs <- pathMap print path children ;;
            ret (concat docs, path)
          else
            prepared <- prepareChildren children path print options ;;
            if length prepared =? 0
            then ret (DStr EmptyString, replaceValue path (setChildren node prepared))
            else
              st <- childLoop path node print options
                      (seq 0 (length prepared))
                      (mkChildrenState prepared [] false) ;;
              let forceBreakContent :=
                (1 <? length (childNodes st))
                && existsb (fun child => isBlockElement H child options)
                     (childNodes st) in
              ret (concat
                     (childDocs st
                      ++ (if forceBreakContent then [breakParent] else [])),
                   childrenPath path node (childNodes st))
      end
  | _ => throw "TypeError"
  end.

(** [arr[0] = f(arr[0])] and [arr[arr.length - 1] = f(arr[arr.length - 1])] *)
Definition updateFirst (f : Node -> Node) (l : list Node) : list Node :=
  match l with
  | [] => []
  | x :: rest => f x :: rest
  end.

Fixpoint updateLast (f : Node -> Node) (l : list Node) : list Node :=
  match l with
  | [] => []
  | [x] => [f x]
  | x :: rest => x :: updateLast f rest
  end.

Definition printSvelteBlockChildren (path : FastPath) (print : PrintFn)
  (options : ParserOptions) : M (Doc * FastPath) :=
  match getValue path with
  | VNode node =>
      match nodeChildren node with
      | None | Some [] => ret (DStr EmptyString, path)
      | Some children =>
          let whitespaceAtStartOfBlock :=
            checkWhitespaceAtStartOfSvelteBlock H node options in
          let whitespaceAtEndOfBlock :=
            checkWhitespaceAtEndOfSvelteBlock H node options in
          let hard :=
            match whitespaceAtEndOfBlock, whitespaceAtStartOfBlock with
            | WsLine, _ | _, WsLine => true
            | _, _ => false
            end in
          let startline :=
            match whitespaceAtStartOfBlock with
            | WsNone => DStr EmptyString
            | _ => if hard then hardline else line
            end in
          let endline :=
            match whitespaceAtEndOfBlock with
            | WsNone => DStr EmptyString
            | _ => if hard then hardline else line
            end in
          let children :=
            updateFirst
              (fun firstChild =>
                 if isTextNodeStartingWithWhitespace H firstChild
                 then trimTextNodeLeft H firstChild else firstChild)
              children in
          let children :=
            updateLast
              (fun lastChild =>
                 if isTextNodeEndingWithWhitespace H lastChild
                 then trimTextNodeRight H lastChild else lastChild)
              children in
          '(body, path') <-
            printChildren (replaceValue path (setChildren node children))
              print options ;;
          ret (concat [indent (concat [startline; group body]); endline], path')
      end
  | _ => throw "TypeError"
  end.


(** *** The dispatcher *)

(** [node.modifiers && node.modifiers.length ? concat(['|', join('|', node.modifiers)]) : ''] *)
Definition printModifiers (modifiers : option (list string)) : Doc :=
  match modifiers with
  | Some (m :: ms) => concat [DStr "|"; join (DStr "|") (map DStr (m :: ms))]
  | _ => DStr EmptyString
  end.

(** [const [open, close] = options.svelteStrictMode ? ['"{', '}"'] : ['{', '}']] *)
Definition openBrace (options : ParserOptions) : string :=
  if svelteStrictMode options then (dquote ++ "{")%string else "{".

Definition closeBrace (options : ParserOptions) : string :=
  if svelteStrictMode options then ("}" ++ dquote)%string else "}".

(** The parts of [printJsExpression()]. *)
Definition printJsExpression (path : FastPath) (options : ParserOptions)
  (print : PrintFn) : M (list Doc * FastPath) :=
  '(e, path') <-
    printJS path print (svelteStrictMode options) false false FExpression ;;
  ret ([DStr (openBrace options); e; DStr (closeBrace options)], path').

(** [node.expression ? concat(['=', ...printJsExpression()]) : ''] *)
Definition printOptionalExpression (expression : option Node) (path : FastPath)
  (options : ParserOptions) (print : PrintFn) : M Doc :=
  match expression with
  | Some _ =>
      '(parts, _) <- printJsExpression path options print ;;
      ret (concat (DStr "=" :: parts))
  | None => ret (DStr EmptyString)
  end.

(** [expression.type === 'Identifier' && expression.name === name] *)
Definition isIdentifierNamed (name : string) (expression : Node) : bool :=
  match expression with
  | Identifier _ id _ => String.eqb id name
  | _ => false
  end.

(** The text of a [class] attribute of an element.

    [rawText.replace(/([^ \t\n])(([ \t]+$)|([ \t]+(\r?\n))|[ \t]+)/g, ...)]:
    blanks after a character that is neither a blank nor a newline stay
    as they are at the end of the text, go away before a line end, and
    become one space anywhere else.  [pending] is that character and the
    blanks read after it. *)
Definition isSpaceOrTab (c : ascii) : bool :=
  Ascii.eqb c JsString.SP || Ascii.eqb c JsString.TAB.

Definition notBlankNorLF (c : ascii) : bool :=
  negb (isSpaceOrTab c) && negb (JsString.isLF c).

Fixpoint collapseBlanks (pending : option (ascii * string)) (s : string) : string :=
  match s with
  | EmptyString =>
      match pending with
      | Some (c, run) => String c run
      | None => EmptyString
      end
  | String x r =>
      let scan :=
        if notBlankNorLF x && JsString.startsWith isSpaceOrTab r
        then collapseBlanks (Some (x, EmptyString)) r
        else String x (collapseBlanks None r) in
      match pending with
      | None => scan
      | Some (c, run) =>
          if isSpaceOrTab x
          then collapseBlanks (Some (c, (run ++ String x EmptyString)%string)) r
          else if JsString.isLF x
          then String c (String x (collapseBlanks None r))
          else
            match r with
            | String y r' =>
                if Ascii.eqb x JsString.CR && JsString.isLF y
                then String c (String x (String y (collapseBlanks None r')))
                else String c (String JsString.SP scan)
            | EmptyString => String c (String JsString.SP scan)
            end
      end
  end.

Fixpoint dropBlanks (s : string) : string :=
  match s with
  | EmptyString => EmptyString
  | String c r => if isSpaceOrTab c then dropBlanks r else s
  end.

(** [rawText.replace(/([^ \t\n])[ \t]+$/, replacement)], where the
    replacement is the character alone or the character and a space. *)
Definition shrinkTrailingBlanks (keepSpace : bool) (s : string) : string :=
  match JsString.rev s with
  | String b r =>
      if isSpaceOrTab b then
        match dropBlanks r with
        | String c before =>
            if JsString.isLF c then s
            else (JsString.rev (String c before)
                  ++ (if keepSpace then " " else EmptyString))%string
        | EmptyString => s
        end
      else s
  | EmptyString => s
  end.

(** [parent.value.indexOf(node) === parent.value.length - 1].  The
    source asks for the same object; here two values of one attribute
    are the same node when their offsets agree. *)
Fixpoint indexOfNode (node : Node) (l : list Node) : option nat :=
  match l with
  | [] => None
  | x :: rest =>
      if (start x =? start node) && (end_ x =? end_ node) then Some 0
      else option_map S (indexOfNode node rest)
  end.

Definition isLastValue (node parent : Node) : bool :=
  match parent with
  | Attribute _ _ (ValueNodes l) =>
      match indexOfNode node l with
      | Some i => S i =? length l
      | None => false
      end
  | _ => false
  end.

Definition normalizeClassText (rawText : string) (node parent : Node) : string :=
  shrinkTrailingBlanks (negb (isLastValue node parent))
    (collapseBlanks None rawText).

Definition printText (node : Node) (path : FastPath) : M Doc :=
  if negb (isPreTagContent H path) then
    if isEmptyTextNode node then
      let hasWhiteSpace :=
        String.length (JsString.trim (getUnencodedText node))
        <? String.length (getUnencodedText node) in
      let hasOneOrMoreNewlines := JsString.hasLF (getUnencodedText node) in
      let hasTwoOrMoreNewlines := JsString.hasLFSpacesLF (getUnencodedText node) in
      if hasTwoOrMoreNewlines then ret (concat [hardline; hardline])
      else if hasOneOrMoreNewlines then ret hardline
      else if hasWhiteSpace then ret line
      else ret (DStr EmptyString)
    else ret (fill (splitTextToDocs node))
  else
    let rawText := getUnencodedText node in
    match getParentNode path 0 with
    | VNull => throw "TypeError"
    | VNode (Attribute l name value) =>
        let parent := Attribute l name value in
        match
          (if String.eqb name "class" then
             match getParentNode path 1 with
             | VNull => None
             | VNode (ElementLike Element _ _ _ _ _ _) =>
                 Some (normalizeClassText rawText node parent)
             | _ => Some rawText
             end
           else Some rawText)
        with
        | None => throw "TypeError"
        | Some rawText => ret (concat (replaceEndOfLineWith H rawText literalline))
        end
    | _ => ret (DStr rawText)
    end.

(** The [Options], [Body] and [Document] cases. *)
Definition printMeta (kind : MetaKind) (node : Node) (path : FastPath)
  (options : ParserOptions) (print : PrintFn) : M Doc :=
  let bracketSameLine := isBracketSameLine H options in
  let selfClosing :=
    attributes <-
      pathMap (printWithPrependedAttributeLine H node options print) path
        (nodeAttributes node) ;;
    ret (groupConcat
           ([DStr "<"; DStr (nodeName node);
             indent
               (groupConcat
                  (attributes
                   ++ [if bracketSameLine then DStr EmptyString else dedent line]))]
            ++ [if bracketSameLine then DStr " " else DStr EmptyString; DStr "/>"])) in
  match kind with
  | Options =>
      if negb (String.eqb (svelteSortOrder options) "none")
      then throw "Options tags should have been handled by prepareChildren"
      else selfClosing
  | Body => selfClosing
  | Document => selfClosing
  end.

Definition printAttribute (node : Node) (name : string) (value : AttrValue Node)
  (path : FastPath) (options : ParserOptions) (print : PrintFn) : M Doc :=
  if isOrCanBeConvertedToShorthand node then
    if svelteStrictMode options
    then ret (concat [DStr name; DStr ("=" ++ dquote ++ "{"); DStr name; DStr ("}" ++ dquote)])
    else if svelteAllowShorthand options
    then ret (concat [DStr "{"; DStr name; DStr "}"])
    else ret (concat [DStr name; DStr "={"; DStr name; DStr "}"])
  else
    match value with
    | ValueTrue => ret (concat [DStr name])
    | ValueNodes _ =>
        let quotes := negb (isLoneMustacheTag value) || svelteStrictMode options in
        attrNodeValue <- printAttributeNodeValue path print quotes node ;;
        if quotes
        then ret (concat [DStr name; DStr "="; DStr dquote; attrNodeValue; DStr dquote])
        else ret (concat [DStr name; DStr "="; attrNodeValue])
    end.

Definition printStyleDirective (node : Node) (name : string)
  (modifiers : option (list string)) (value : AttrValue Node)
  (path : FastPath) (options : ParserOptions) (print : PrintFn) : M Doc :=
  let prefix := [DStr "style:"; DStr name; printModifiers modifiers] in
  if isOrCanBeConvertedToShorthand node
     || match value with ValueTrue => true | _ => false end
  then
    if svelteStrictMode options
    then ret (concat (prefix ++ [DStr ("=" ++ dquote ++ "{"); DStr name; DStr ("}" ++ dquote)]))
    else if svelteAllowShorthand options
    then ret (concat prefix)
    else ret (concat (prefix ++ [DStr "={"; DStr name; DStr "}"]))
  else
    let quotes := negb (isLoneMustacheTag value) || svelteStrictMode options in
    attrNodeValue <- printAttributeNodeValue path print quotes node ;;
    if quotes
    then ret (concat (prefix ++ [DStr "="; DStr dquote; attrNodeValue; DStr dquote]))
    else ret (concat (prefix ++ [DStr "="; attrNodeValue])).

(** The [Binding] and [Class] cases share their shape, the [Action] and
    [Animation] cases theirs. *)
Definition directivePrefix (kind : DirectiveKind) : string :=
  match kind with
  | Binding => "bind:"
  | Class => "class:"
  | Action => "use:"
  | Animation => "animate:"
  end.

Definition printDirective (kind : DirectiveKind) (name : string)
  (expression : option Node) (path : FastPath) (options : ParserOptions)
  (print : PrintFn) : M Doc :=
  match kind with
  | Binding | Class =>
      match expression with
      | None => throw "TypeError"
      | Some e =>
          if isIdentifierNamed name e && svelteAllowShorthand options
             && negb (svelteStrictMode options)
          then ret (concat [DStr (directivePrefix kind); DStr name; DStr EmptyString])
          else
            '(parts, _) <- printJsExpression path options print ;;
            ret (concat [DStr (directivePrefix kind); DStr name;
                         concat (DStr "=" :: parts)])
      end
  | Action | Animation =>
      value <- printOptionalExpression expression path options print ;;
      ret (concat [DStr (directivePrefix kind); DStr name; value])
  end.

Definition printEventHandler (name : string) (modifiers : option (list string))
  (expression : option Node) (path : FastPath) (options : ParserOptions)
  (print : PrintFn) : M Doc :=
  value <- printOptionalExpression expression path options print ;;
  ret (concat [DStr "on:"; DStr name; printModifiers modifiers; value]).

Definition printTransition (name : string) (intro outro : bool)
  (modifiers : option (list string)) (expression : option Node)
  (path : FastPath) (options : ParserOptions) (print : PrintFn) : M Doc :=
  let kind := if intro && outro then "transition" else if intro then "in" else "out" in
  value <- printOptionalExpression expression path options print ;;
  ret (concat [DStr kind; DStr ":"; DStr name; printModifiers modifiers; value]).

Definition printLet (name : string) (expression : option Node)
  (path : FastPath) (options : ParserOptions) (print : PrintFn) : M Doc :=
  match expression with
  | None => ret (concat [DStr "let:"; DStr name; DStr EmptyString])
  | Some e =>
      if isIdentifierNamed name e
      then ret (concat [DStr "let:"; DStr name; DStr EmptyString])
      else
        '(parts, _) <- printJsExpression path options print ;;
        ret (concat [DStr "let:"; DStr name; concat (DStr "=" :: parts)])
  end.


(** The block cases. *)

Definition nonEmptyChildren (block : Node) : bool :=
  existsb (fun n => negb (isEmptyTextNode n)) (getChildren block).

Definition printIfBlock (node : Node) (else_ : option Node) (path : FastPath)
  (options : ParserOptions) (print : PrintFn) : M Doc :=
  '(condition, path) <- printSvelteBlockJS path print FExpression ;;
  '(body, path) <- printSvelteBlockChildren path print options ;;
  alternate <-
    match else_ with
    | Some e => d <- pathCall print path e ;; ret [d]
    | None => ret []
    end ;;
  ret (concat
         [groupConcat
            ([DStr "{#if "; condition; DStr "}"; body] ++ alternate ++ [DStr "{/if}"]);
          breakParent]).

Definition printElseBlock (node : Node) (children : list Node) (path : FastPath)
  (options : ParserOptions) (print : PrintFn) : M Doc :=
  match
    match children with
    | [IfBlock l e c el] => Some (IfBlock l e c el, el)
    | _ => None
    end
  with
  | Some (ifNode, ifElse) =>
      match getParentNode path 0 with
      | VNull => throw "TypeError"
      | VNode (EachBlock _ _ _ _ _ _ _) =>
          '(body, _) <- printSvelteBlockChildren path print options ;;
          ret (concat [DStr "{:else}"; body])
      | _ =>
          let ifPath := VNode ifNode :: path in
          '(condition, ifPath) <- printSvelteBlockJS ifPath print FExpression ;;
          '(body, ifPath) <- printSvelteBlockChildren ifPath print options ;;
          alternate <-
            match ifElse with
            | Some e => d <- pathCall print ifPath e ;; ret [d]
            | None => ret []
            end ;;
          ret (concat ([DStr "{:else if "; condition; DStr "}"; body] ++ alternate))
      end
  | None =>
      '(body, _) <- printSvelteBlockChildren path print options ;;
      ret (concat [DStr "{:else}"; body])
  end.

Definition printEachBlock (node : Node) (context : Pattern) (index : option string)
  (key else_ : option Node) (path : FastPath) (options : ParserOptions)
  (print : PrintFn) : M Doc :=
  '(iterable, path) <- printSvelteBlockJS path print FExpression ;;
  item <- liftOutcome (expandNode context false) ;;
  let indexPart :=
    match index with
    | Some i => if String.eqb i EmptyString then [] else [DStr ", "; DStr i]
    | None => []
    end in
  '(keyPart, path) <-
    match key with
    | Some _ =>
        '(k, path) <- printSvelteBlockJS path print FKey ;;
        ret ([DStr " ("; k; DStr ")"], path)
    | None => ret ([], path)
    end ;;
  '(body, path) <- printSvelteBlockChildren path print options ;;
  alternate <-
    match else_ with
    | Some e => d <- pathCall print path e ;; ret [d]
    | None => ret []
    end ;;
  ret (concat
         [groupConcat
            ([DStr "{#each "; iterable; DStr " as"; DStr item]
             ++ indexPart ++ keyPart ++ [DStr "}"; body] ++ alternate
             ++ [DStr "{/each}"]);
          breakParent]).

Definition printAwaitBlock (node : Node) (value error : Pattern)
  (pending then_ catch_ : Node) (path : FastPath) (options : ParserOptions)
  (print : PrintFn) : M Doc :=
  let hasPendingBlock := nonEmptyChildren pending in
  let hasThenBlock := nonEmptyChildren then_ in
  let hasCatchBlock := nonEmptyChildren catch_ in
  '(block, path) <-
    (if negb hasPendingBlock && hasThenBlock then
       '(promise, path) <- printSvelteBlockJS path print FExpression ;;
       v <- liftOutcome (expandNode value false) ;;
       body <- pathCall print path then_ ;;
       ret ([groupConcat [DStr "{#await "; promise; DStr " then"; DStr v; DStr "}"];
             body], path)
     else if negb hasPendingBlock && hasCatchBlock then
       '(promise, path) <- printSvelteBlockJS path print FExpression ;;
       e <- liftOutcome (expandNode error false) ;;
       body <- pathCall print path catch_ ;;
       ret ([groupConcat [DStr "{#await "; promise; DStr " catch"; DStr e; DStr "}"];
             body], path)
     else
       '(promise, path) <- printSvelteBlockJS path print FExpression ;;
       let block := [groupConcat [DStr "{#await "; promise; DStr "}"]] in
       block <-
         (if hasPendingBlock
          then body <- pathCall print path pending ;; ret (block ++ [body])
          else ret block) ;;
       block <-
         (if hasThenBlock
          then
            v <- liftOutcome (expandNode value false) ;;
            body <- pathCall print path then_ ;;
            ret (block ++ [groupConcat [DStr "{:then"; DStr v; DStr "}"]; body])
          else ret block) ;;
       ret (block, path)) ;;
  block <-
    (if (hasPendingBlock || hasThenBlock) && hasCatchBlock
     then
       e <- liftOutcome (expandNode error false) ;;
       body <- pathCall print path catch_ ;;
       ret (block ++ [groupConcat [DStr "{:catch"; DStr e; DStr "}"]; body])
     else ret block) ;;
  ret (groupConcat (block ++ [DStr "{/await}"])).

Definition printKeyBlock (node : Node) (path : FastPath) (options : ParserOptions)
  (print : PrintFn) : M Doc :=
  '(key, path) <- printSvelteBlockJS path print FExpression ;;
  '(body, path) <- printSvelteBlockChildren path print options ;;
  ret (concat
         [groupConcat [DStr "{#key "; key; DStr "}"; body; DStr "{/key}"];
          breakParent]).

Definition printCommentNode (node : Node) (path : FastPath) : M Doc :=
  let nodeAfterComment := getNextNode H path in
  if isIgnoreStartDirective H node && isNodeTopLevelHTML H node path then
    setIgnoreRange true ;;; ret (printComment node)
  else if isIgnoreEndDirective H node && isNodeTopLevelHTML H node path then
    setIgnoreRange false ;;; ret (printComment node)
  else if doesEmbedStartAfterNode H (Some node) path
          || (match nodeAfterComment with
              | Some n => isEmptyTextNode n
              | None => false
              end
              && doesEmbedStartAfterNode H nodeAfterComment path)
  then ret (DStr EmptyString)
  else if isIgnoreDirective H node then
    setIgnoreNext true ;;; ret (printComment node)
  else ret (printComment node).

Definition printTag (kind : TagKind) (path : FastPath) (options : ParserOptions)
  (print : PrintFn) : M Doc :=
  match kind with
  | MustacheTag =>
      '(e, _) <-
        printJS path print (isInsideQuotedAttribute H path options) false false
          FExpression ;;
      ret (concat [DStr "{"; e; DStr "}"])
  | RawMustacheTag =>
      '(e, _) <- printJS path print false false false FExpression ;;
      ret (concat [DStr "{@html "; e; DStr "}"])
  | Spread =>
      '(e, _) <- printJS path print false false false FExpression ;;
      ret (concat [DStr "{..."; e; DStr "}"])
  | ConstTag =>
      '(e, _) <- printJS path print false false true FExpression ;;
      ret (concat [DStr "{@const "; e; DStr "}"])
  end.

Definition printDebugTag (identifiers : list Node) (path : FastPath)
  (print : PrintFn) : M Doc :=
  names <-
    match identifiers with
    | [] => ret (DStr EmptyString)
    | _ =>
        docs <- pathMap print path identifiers ;;
        ret (concat [DStr " "; join (DStr ", ") docs])
    end ;;
  ret (concat [DStr "{@debug"; names; DStr "}"]).


(** The [Fragment] case. *)

Definition isBreakParent (d : Doc) : bool :=
  match d with DBreakParent => true | _ => false end.

Definition isBlankString (d : Doc) : bool :=
  match d with
  | DStr s => String.eqb (JsString.trim s) EmptyString
  | _ => false
  end.

Definition printFragment (node : Node) (children : list Node) (path : FastPath)
  (options : ParserOptions) (print : PrintFn) : M Doc :=
  if (length children =? 0) || forallb isEmptyTextNode children
  then ret (DStr EmptyString)
  else if negb (isPreTagContent H path) then
    let path := replaceValue path (setChildren node (trimChildren H children path)) in
    '(body, _) <- printChildren path print options ;;
    let output :=
      trim H [body] (fun n => isLine H n || isBlankString n || isBreakParent n) in
    if forallb (isEmptyDoc H) output
    then ret (DStr EmptyString)
    else ret (groupConcat (output ++ [hardline]))
  else
    docs <- pathMap print path children ;;
    ret (groupConcat docs).

(** The element cases. *)

(** [s.split(/\r?\n/)] *)
Fixpoint splitCRLF (s : string) : list string :=
  match s with
  | EmptyString => [EmptyString]
  | String c r =>
      if JsString.isLF c then EmptyString :: splitCRLF r
      else if Ascii.eqb c JsString.CR && JsString.startsWith JsString.isLF r
      then splitCRLF r
      else match splitCRLF r with
           | l :: ls => String c l :: ls
           | [] => [String c EmptyString]
           end
  end.

(** [s.substring(a, b)]: the bounds are put in order. *)
Definition jsSubstring (s : string) (a b : nat) : string :=
  JsString.slice s (Nat.min a b) (Nat.max a b).

Fixpoint printPreFrom (remaining : list Node) (originalText : string)
  (path : FastPath) (print : PrintFn) : M (list Doc) :=
  match remaining with
  | [] => ret []
  | child :: rest =>
      docs <-
        (if isText child then
           ret (flatten
                  (mapIndex
                     (fun (l : string) (j : nat) =>
                        if 0 <? j then [literalline; DStr l] else [DStr l])
                     (splitCRLF (jsSubstring originalText (start child) (end_ child)))))
         else d <- pathCall print path child ;; ret [d]) ;;
      more <- printPreFrom rest originalText path print ;;
      ret (docs ++ more)
  end.

Definition printPre (node : Node) (originalText : string) (path : FastPath)
  (print : PrintFn) : M Doc :=
  docs <- printPreFrom (getChildren node) originalText path print ;;
  ret (concat docs).

(** [s.toUpperCase()]: the letters a to z change; no other code unit
    below 256 becomes a letter of [!DOCTYPE], the only string the result
    is compared with. *)
Definition upperChar (c : ascii) : ascii :=
  let n := nat_of_ascii c in
  if (97 <=? n) && (n <=? 122) then ascii_of_nat (n - 32) else c.

Fixpoint toUpperCase (s : string) : string :=
  match s with
  | EmptyString => EmptyString
  | String c r => String (upperChar c) (toUpperCase r)
  end.

(** What [body] was bound to. *)
Inductive BodyKind := BodyLine | BodySoftline | BodyPre | BodyRaw | BodyChildren.

Definition runBody (kind : BodyKind) (path : FastPath) (options : ParserOptions)
  (print : PrintFn) : M (Doc * FastPath) :=
  match kind, getValue path with
  | BodyLine, _ => ret (line, path)
  | BodySoftline, _ =>
      ret (if isBracketSameLine H options then softline else DStr EmptyString, path)
  | BodyPre, VNode node =>
      d <- printPre node (originalText options) path print ;; ret (d, path)
  | BodyRaw, VNode node =>
      ret (DStr (printRaw H node (originalText options) true), path)
  | BodyChildren, _ => printChildren path print options
  | _, _ => throw "TypeError"
  end.

Definition printElement (kind : ElementKind) (node : Node) (name : string)
  (children : list Node) (expression : option Node) (tag : option (TagValue Node))
  (path : FastPath) (options : ParserOptions) (print : PrintFn) : M Doc :=
  let bracketSameLine := isBracketSameLine H options in
  let isSupportedLanguage :=
    negb (String.eqb name "template" && negb (isNodeSupportedLanguage H node)) in
  let isEmpty := forallb isEmptyTextNode children in
  let isDoctypeTag := String.eqb (toUpperCase name) "!DOCTYPE" in
  let isSelfClosingTag :=
    isEmpty
    && (negb (svelteStrictMode options)
        || negb (match kind with Element => true | _ => false end)
        || existsb (String.eqb name) (selfClosingTags H)
        || isDoctypeTag) in
  attributes <-
    pathMap (printWithPrependedAttributeLine H node options print) path
      (nodeAttributes node) ;;
  let attributeLine := getAttributeLine H node options in
  '(possibleThisBinding, path) <-
    match kind, expression, tag with
    | InlineComponent, Some _, _ =>
        '(parts, path) <- printJsExpression path options print ;;
        ret (concat ([attributeLine; DStr "this="] ++ parts), path)
    | Element, _, Some (TagString t) =>
        if String.eqb t EmptyString then ret (DStr EmptyString, path)
        else ret (concat [attributeLine; DStr "this="; DStr (dquote ++ t ++ dquote)],
                  path)
    | Element, _, Some (TagExpr _) =>
        '(e, path) <- printJS path print (svelteStrictMode options) false false FTag ;;
        ret (concat [attributeLine; DStr "this="; DStr (openBrace options); e;
                     DStr (closeBrace options)], path)
    | _, _, _ => ret (DStr EmptyString, path)
    end ;;
  let node := match getValue path with VNode n => n | _ => node end in
  if isSelfClosingTag then
    ret (groupConcat
           [DStr "<"; DStr name;
            indent
              (groupConcat
                 ([possibleThisBinding] ++ attributes
                  ++ [if bracketSameLine || isDoctypeTag
                      then DStr EmptyString else dedent line]));
            if bracketSameLine && negb isDoctypeTag then DStr " " else DStr EmptyString;
            DStr ((if isDoctypeTag then EmptyString else "/") ++ ">")])
  else
    let hugStart := shouldHugStart H node isSupportedLanguage options in
    let hugEnd := shouldHugEnd H node isSupportedLanguage options in
    let body :=
      if isEmpty then
        if isInlineElement H path options node
           && negb (length children =? 0)
           && match children with
              | first :: _ => isTextNodeStartingWithWhitespace H first
              | [] => false
              end
           && negb (isPreTagContent H path)
        then BodyLine else BodySoftline
      else if isPreTagContent H path then BodyPre
      else if negb isSupportedLanguage then BodyRaw
      else BodyChildren in
    let openingTag :=
      [DStr "<"; DStr name;
       indent
         (groupConcat
            ([possibleThisBinding] ++ attributes
             ++ [if hugStart then DStr EmptyString
                 else if negb bracketSameLine && negb (isPreTagContent H path)
                      then dedent softline else DStr EmptyString]))] in
    let closing := DStr ("</" ++ name ++ ">") in
    let closingOpen := DStr ("</" ++ name) in
    if negb isSupportedLanguage && negb isEmpty then
      '(b, _) <- runBody body path options print ;;
      ret (groupConcat
             (openingTag ++ [DStr ">"; groupConcat [hardline; b; hardline]; closing]))
    else if hugStart && hugEnd then
      '(b, path) <- runBody body path options print ;;
      let huggedContent := concat [softline; groupConcat [DStr ">"; b; closingOpen]] in
      let omitSoftlineBeforeClosingTag :=
        (isEmpty && negb bracketSameLine)
        || match getValue path with
           | VNode n => canOmitSoftlineBeforeClosingTag H n path options
           | _ => false
           end in
      ret (groupConcat
             (openingTag
              ++ [if isEmpty then group huggedContent else group (indent huggedContent);
                  if omitSoftlineBeforeClosingTag then DStr EmptyString else softline;
                  DStr ">"]))
    else
      (* the separators, and the trimming of the first and the last child *)
      let '(noHugSeparatorStart, noHugSeparatorEnd, children') :=
        if isPreTagContent H path
        then (DStr EmptyString, DStr EmptyString, children)
        else
          let '(startSep, endSep, didSetEndSeparator, children') :=
            match children with
            | firstChild :: _ =>
                if negb hugStart && isText firstChild then
                  let lastIsWs :=
                    match List.last (map Some children) None with
                    | Some lastChild => isTextNodeEndingWithWhitespace H lastChild
                    | None => false
                    end in
                  let '(s, e, did) :=
                    if isTextNodeStartingWithLinebreak H firstChild 1
                       && negb (length children =? 1)
                       && (negb (isInlineElement H path options node) || lastIsWs)
                    then (hardline, hardline, true)
                    else if isInlineElement H path options node
                    then (line, softline, false)
                    else (softline, softline, false) in
                  (s, e, did, updateFirst (trimTextNodeLeft H) children)
                else (softline, softline, false, children)
            | [] => (softline, softline, false, children)
            end in
          match List.last (map Some children') None with
          | Some lastChild =>
              if negb hugEnd && isText lastChild then
                (startSep,
                 if isInlineElement H
                      (replaceValue path (setChildren node children')) options
                      (setChildren node children')
                    && negb didSetEndSeparator
                 then line else endSep,
                 updateLast (trimTextNodeRight H) children')
              else (startSep, endSep, children')
          | None => (startSep, endSep, children')
          end in
      let path :=
        match getValue path with
        | VNode n => replaceValue path (setChildren n children')
        | _ => path
        end in
      if hugStart then
        '(b, _) <- runBody body path options print ;;
        ret (groupConcat
               (openingTag
                ++ [indent (concat [softline; groupConcat [DStr ">"; b]]);
                    noHugSeparatorEnd; closing]))
      else if hugEnd then
        '(b, path) <- runBody body path options print ;;
        ret (groupConcat
               (openingTag
                ++ [DStr ">";
                    indent (concat [noHugSeparatorStart; groupConcat [b; closingOpen]]);
                    if match getValue path with
                       | VNode n => canOmitSoftlineBeforeClosingTag H n path options
                       | _ => false
                       end
                    then DStr EmptyString else softline;
                    DStr ">"]))
      else if isEmpty then
        '(b, _) <- runBody body path options print ;;
        ret (groupConcat (openingTag ++ [DStr ">"; b; closing]))
      else
        '(b, _) <- runBody body path options print ;;
        ret (groupConcat
               (openingTag
                ++ [DStr ">"; indent (concat [noHugSeparatorStart; b]);
                    noHugSeparatorEnd; closing])).


(** *** The root: comments above the sections, and the sections in order *)

(** An entry of [newlines]: a text node of the markup, at its index, or
    the empty text node made up for a comment that has none. *)
Inductive NewlineEntry :=
| NewlineText (idx : nat) (text : Node)
| NewlineNone.

(** [siblings.find((child) => child.end === position)], with the index. *)
Definition findEndingAt (siblings : list (nat * Node)) (position : nat)
  : option (nat * Node) :=
  find (fun entry => end_ (snd entry) =? position) siblings.

(** The [while] loop of [removeAndGetLeadingComments].  It revisits a
    sibling only if it runs forever, so one turn per sibling and one more
    is all a run that ends can take. *)
Fixpoint leadingComments (fuel : nat) (siblings : list (nat * Node))
  (position : nat) (comments : list (nat * Node)) (newlines : list NewlineEntry)
  : option (list (nat * Node) * list NewlineEntry) :=
  match fuel with
  | 0 => None
  | S fuel' =>
      match findEndingAt siblings position with
      | None => Some (comments, newlines)
      | Some (idx, prev) =>
          if isCommentNode prev && negb (isIgnoreStartDirective H prev)
             && negb (isIgnoreEndDirective H prev)
          then
            let comments := comments ++ [(idx, prev)] in
            let newlines :=
              if length comments =? length newlines
              then newlines else newlines ++ [NewlineNone] in
            leadingComments fuel' siblings (start prev) comments newlines
          else if isEmptyTextNode prev then
            leadingComments fuel' siblings (start prev) comments
              (newlines ++ [NewlineText idx prev])
          else Some (comments, newlines)
      end
  end.

(** [siblings.splice(siblings.indexOf(x), 1)]: the element goes, or, when
    it is not in the array, the last one does. *)
Definition spliceOut (idx : option nat) (siblings : list (nat * Node))
  : list (nat * Node) :=
  match idx with
  | Some i =>
      if existsb (fun entry => fst entry =? i) siblings
      then filter (fun entry => negb (fst entry =? i)) siblings
      else removelast siblings
  | None => removelast siblings
  end.

Definition indexed (children : list Node) : list (nat * Node) :=
  combine (seq 0 (length children)) children.

(** [removeAndGetLeadingComments]: the comments, each with
    [emptyLineAfter], and what is left of the children of the markup. *)
Definition removeAndGetLeadingComments (ast : ASTNode) (current : Node)
  : option (list (Node * bool) * list Node) :=
  let siblings := indexed (getChildren (html ast)) in
  match siblings with
  | [] => Some ([], [])
  | _ =>
      match leadingComments (S (length siblings)) siblings (start current) [] [] with
      | None => None
      | Some (comments, newlines) =>
          let newlines := firstn (length comments) newlines in
          let siblings :=
            fold_left (fun sibs c => spliceOut (Some (fst c)) sibs) comments siblings in
          let siblings :=
            fold_left
              (fun sibs text =>
                 match text with
                 | NewlineText i _ => spliceOut (Some i) sibs
                 | NewlineNone => spliceOut None sibs
                 end)
              newlines siblings in
          let infos :=
            map
              (fun entry =>
                 (snd (fst entry),
                  match snd entry with
                  | NewlineText _ text =>
                      2 <? length (JsString.splitLines (getUnencodedText text))
                  | NewlineNone => false
                  end))
              (combine comments newlines) in
          Some (List.rev infos, map snd siblings)
      end
  end.

Definition setComments (comments : list (Node * bool)) (part : Node) : Node :=
  match part with
  | TopLevel l t a _ ct => TopLevel l t a comments ct
  | other => other
  end.

(** One [if] of [assignCommentsToNodes]. *)
Definition assignComments (ast : ASTNode) (part : option Node)
  (store : ASTNode -> Node -> ASTNode) : option ASTNode :=
  match part with
  | None => Some ast
  | Some current =>
      match removeAndGetLeadingComments ast current with
      | None => None
      | Some (comments, siblings) =>
          let markup :=
            match getChildren (html ast) with
            | [] => html ast
            | _ => setChildren (html ast) siblings
            end in
          Some (store (mkAST markup (css ast) (instance ast) (module_ ast))
                  (setComments comments current))
      end
  end.

Definition assignCommentsToNodes (ast : ASTNode) : option ASTNode :=
  match assignComments ast (module_ ast)
          (fun a m => mkAST (html a) (css a) (instance a) (Some m)) with
  | None => None
  | Some ast =>
      match assignComments ast (instance ast)
              (fun a i => mkAST (html a) (css a) (Some i) (module_ a)) with
      | None => None
      | Some ast =>
          assignComments ast (css ast)
            (fun a c => mkAST (html a) (Some c) (instance a) (module_ a))
      end
  end.

(** [part.type = type_; part.attributes = extractAttributes(getText(part, options))] *)
Definition asScript (options : ParserOptions) (part : Node) : Node :=
  match part with
  | TopLevel l _ a c ct =>
      TopLevel l "Script"
        (extractAttributes H (getText H (TopLevel l "Script" a c ct) options)) c ct
  | other => other
  end.

(** [css.type = 'Style'; css.content.type = 'StyleProgram'] *)
Definition asStyle (part : Node) : Node :=
  match part with
  | TopLevel l _ a c _ => TopLevel l "Style" a c "StyleProgram"
  | other => other
  end.

(** [topLevelPartsByEnd], a map from offsets to sections. *)
Definition PartsByEnd := list (nat * Node).

Definition partsSet (key : nat) (part : Node) (m : PartsByEnd) : PartsByEnd :=
  (key, part) :: filter (fun entry => negb (fst entry =? key)) m.

Definition partsGet (key : nat) (m : PartsByEnd) : option Node :=
  option_map snd (find (fun entry => fst entry =? key) m).

Definition partsDelete (key : nat) (m : PartsByEnd) : PartsByEnd :=
  filter (fun entry => negb (fst entry =? key)) m.

(** The loop that puts each section back in front of the child that
    starts where the section ends. *)
Fixpoint spliceParts (m : PartsByEnd) (children : list Node) : list Node :=
  match children with
  | [] => []
  | node :: rest =>
      match partsGet (start node) m with
      | Some part => part :: node :: spliceParts (partsDelete (start node) m) rest
      | None => node :: spliceParts m rest
      end
  end.

(** [parts], the documents of each kind of section. *)
Record Parts := mkParts {
  partOptions : list Doc;
  partScripts : list Doc;
  partMarkup : list Doc;
  partStyles : list Doc
}.

Definition partsOf (parts : Parts) (p : SortOrderPart) : list Doc :=
  match p with
  | PartOptions => partOptions parts
  | PartScripts => partScripts parts
  | PartMarkup => partMarkup parts
  | PartStyles => partStyles parts
  end.

Definition pragmaComment : Doc := DStr "<!-- @format -->".

Definition printTopLevelParts (n : ASTNode) (options : ParserOptions)
  (path : FastPath) (print : PrintFn) : M Doc :=
  let rootPath (ast : ASTNode) : FastPath := VRoot ast :: tl path in
  if String.eqb (svelteSortOrder options) "none" then
    let module' := option_map (asScript options) (module_ n) in
    let instance' := option_map (asScript options) (instance n) in
    let css' := option_map asStyle (css n) in
    let topLevelPartsByEnd : PartsByEnd := [] in
    let topLevelPartsByEnd :=
      match module' with
      | Some m => partsSet (end_ m) m topLevelPartsByEnd
      | None => topLevelPartsByEnd
      end in
    let topLevelPartsByEnd :=
      match instance' with
      | Some i => partsSet (end_ i) i topLevelPartsByEnd
      | None => topLevelPartsByEnd
      end in
    let topLevelPartsByEnd :=
      match css' with
      | Some c => partsSet (end_ c) c topLevelPartsByEnd
      | None => topLevelPartsByEnd
      end in
    let markup :=
      match nodeChildren (html n) with
      | Some children => setChildren (html n) (spliceParts topLevelPartsByEnd children)
      | None => html n
      end in
    let n := mkAST markup css' instance' module' in
    result <- pathCall print (rootPath n) (html n) ;;
    if insertPragma options && negb (hasPragma (originalText options))
    then ret (concat [pragmaComment; hardline; result])
    else ret result
  else
    (* scripts *)
    '(scripts, n) <-
      match module_ n with
      | Some m =>
          let m := asScript options m in
          let n := mkAST (html n) (css n) (instance n) (Some m) in
          d <- pathCall print (rootPath n) m ;;
          ret ([d], n)
      | None => ret ([], n)
      end ;;
    '(scripts, n) <-
      match instance n with
      | Some i =>
          let i := asScript options i in
          let n := mkAST (html n) (css n) (Some i) (module_ n) in
          d <- pathCall print (rootPath n) i ;;
          ret (scripts ++ [d], n)
      | None => ret (scripts, n)
      end ;;
    (* styles *)
    '(styles, n) <-
      match css n with
      | Some c =>
          let c := asStyle c in
          let n := mkAST (html n) (Some c) (instance n) (module_ n) in
          d <- pathCall print (rootPath n) c ;;
          ret ([d], n)
      | None => ret ([], n)
      end ;;
    (* markup *)
    htmlDoc <- pathCall print (rootPath n) (html n) ;;
    let markup := if truthyDoc htmlDoc then [htmlDoc] else [] in
    g <- getGlobals ;;
    let optionsPart :=
      match svelteOptionsDoc g with
      | Some d => if truthyDoc d then [d] else []
      | None => []
      end in
    let parts := mkParts optionsPart scripts markup styles in
    let docs :=
      flatten (map (partsOf parts) (parseSortOrder H (svelteSortOrder options))) in
    (* Need to reset these because they are global and could affect the
       next formatting run *)
    setIgnoreNext false ;;;
    setIgnoreRange false ;;;
    setSvelteOptionsDoc None ;;;
    let docs :=
      if String.eqb (parentParser options) "markdown"
      then match docs with
           | [] => docs
           | _ => removelast docs ++ [trimRightLines H (last docs (DStr EmptyString))]
           end
      else docs in
    if insertPragma options && negb (hasPragma (originalText options))
    then ret (concat [pragmaComment; hardline; groupConcat docs])
    else ret (groupConcat [join hardline docs]).


(** *** [print] *)

(** The [switch] of [print], and what follows it. *)
Definition printNode (node : Node) (path : FastPath) (options : ParserOptions)
  (print : PrintFn) : M Doc :=
  match node with
  | Fragment _ children => printFragment node children path options print
  | Text _ _ _ => printText node path
  | ElementLike kind _ name _ children expression tag =>
      printElement kind node name children expression tag path options print
  | Meta kind _ _ _ => printMeta kind node path options print
  | Identifier _ name _ => ret (DStr name)
  | AttributeShorthand _ expression => ret (DStr (nodeName expression))
  | Attribute _ name value => printAttribute node name value path options print
  | Tag kind _ _ => printTag kind path options print
  | IfBlock _ _ _ else_ => printIfBlock node else_ path options print
  | ElseBlock _ children => printElseBlock node children path options print
  | EachBlock _ _ context index key _ else_ =>
      printEachBlock node context index key else_ path options print
  | AwaitBlock _ _ value error pending then_ catch_ =>
      printAwaitBlock node value error pending then_ catch_ path options print
  | KeyBlock _ _ _ => printKeyBlock node path options print
  | Branch _ _ _ =>
      '(body, _) <- printSvelteBlockChildren path print options ;;
      ret body
  | EventHandler _ name modifiers expression =>
      printEventHandler name modifiers expression path options print
  | Directive kind _ name expression =>
      printDirective kind name expression path options print
  | StyleDirective _ name modifiers value =>
      printStyleDirective node name modifiers value path options print
  | Let _ name expression => printLet name expression path options print
  | DebugTag _ identifiers => printDebugTag identifiers path print
  | Ref _ name => ret (concat [DStr "ref:"; DStr name])
  | Comment _ _ => printCommentNode node path
  | Transition _ name intro outro modifiers expression =>
      printTransition name intro outro modifiers expression path options print
  | TopLevel _ type_ _ _ _ | OtherNode _ type_ _ =>
      match generate H node with
      | Some s => ret (DStr s)
      | None => throw ("unknown node type: " ++ type_)
      end
  end.

(** The test that sends a node to the raw source text. *)
Definition suppressed (g : Globals) (node : Node) : bool :=
  (ignoreNext g || (ignoreRange g && negb (isIgnoreEndDirective H node)))
  && (negb (isText node) || negb (isEmptyTextNode node)).

Definition print (path : FastPath) (options : ParserOptions) (print : PrintFn)
  : M Doc :=
  match getValue path with
  | VNull => ret (DStr EmptyString)
  | VRoot n =>
      match assignCommentsToNodes n with
      | Some n => printTopLevelParts n options (VRoot n :: tl path) print
      | None => diverge
      end
  | VNode node =>
      g <- getGlobals ;;
      if suppressed g node then
        (if ignoreNext g then setIgnoreNext false else ret tt) ;;;
        ret (rawSlice options node)
      else printNode node path options print
  end.


End Printer.


(** ** The rules as the specification words them

    Two of the rules restated the way the specification tells them, to be
    compared with the printer. *)

(** The three shapes of an await block. *)
Inductive AwaitShape := ShortThen | ShortCatch | FullAwait.

Definition awaitShape (hasPending hasThen hasCatch : bool) : AwaitShape :=
  if negb hasPending && hasThen then ShortThen
  else if negb hasPending && negb hasThen && hasCatch then ShortCatch
  else FullAwait.

(** What an await block is made of, in order: its opening delimiter,
    plain or with the keyword and the binding of the short form; a
    [{:then}] or [{:catch}] delimiter; the body of a child block. *)
Inductive AwaitPiece :=
| Opening
| ShortOpening (keyword : string) (binding : BranchKind)
| Delimiter (keyword : string) (binding : BranchKind)
| BodyOf (block : BranchKind).

Definition awaitPieces (hasPending hasThen hasCatch : bool) : list AwaitPiece :=
  match awaitShape hasPending hasThen hasCatch with
  | ShortThen =>
      [ShortOpening " then" ThenBlock; BodyOf ThenBlock]
      ++ (if hasCatch then [Delimiter "{:catch" CatchBlock; BodyOf CatchBlock] else [])
  | ShortCatch => [ShortOpening " catch" CatchBlock; BodyOf CatchBlock]
  | FullAwait =>
      [Opening]
      ++ (if hasPending then [BodyOf PendingBlock] else [])
      ++ (if hasThen then [Delimiter "{:then" ThenBlock; BodyOf ThenBlock] else [])
      ++ (if hasCatch then [Delimiter "{:catch" CatchBlock; BodyOf CatchBlock] else [])
  end.

(** One piece printed: [promise] is the printed expression, [path] the
    path of the await block. *)
Definition printAwaitPiece (H : Helpers) (value error : Pattern)
  (pending then_ catch_ : Node) (promise : Doc) (path : FastPath)
  (print : PrintFn) (piece : AwaitPiece) : M Doc :=
  let bindingOf (b : BranchKind) : Pattern :=
    match b with
    | CatchBlock => error
    | _ => value
    end in
  match piece with
  | Opening => ret (groupConcat [DStr "{#await "; promise; DStr "}"])
  | ShortOpening keyword b =>
      v <- liftOutcome (expandNode H (bindingOf b) false) ;;
      ret (groupConcat [DStr "{#await "; promise; DStr keyword; DStr v; DStr "}"])
  | Delimiter keyword b =>
      v <- liftOutcome (expandNode H (bindingOf b) false) ;;
      ret (groupConcat [DStr keyword; DStr v; DStr "}"])
  | BodyOf PendingBlock => pathCall print path pending
  | BodyOf ThenBlock => pathCall print path then_
  | BodyOf CatchBlock => pathCall print path catch_
  end.



(** What a computation returned, passed through [f]; a throw stays a
    throw. *)
Definition mapReturned {A B : Type} (f : A -> B) (r : Outcome A * Globals)
  : Outcome B * Globals :=
  match r with
  | (Returned a, g) => (Returned (f a), g)
  | (Thrown msg, g) => (Thrown msg, g)
  | (Diverged, g) => (Diverged, g)
  end.


(** What the loop of [printChildren] leaves of the child list: the same
    length, and every child that is not a text node where it was. *)
Definition keepsOthers (nodes nodes' : list Node) : Prop :=
  length nodes' = length nodes
  /\ forall i n, nth_error nodes i = Some n -> isText n = false ->
       nth_error nodes' i = Some n.

(** A child printer that always returns. *)
Definition alwaysReturns (print : PrintFn) : Prop :=
  forall path g, exists d g', print path g = (Returned d, g').

(** ** Reading a printed document

    The text a document stands for when every hard or literal line is a
    newline, a [line] a space and a [softline] nothing.  It is how the
    statements below speak of the characters a document holds; it plays no
    part in the printer. *)

Fixpoint docText (d : Doc) : string :=
  match d with
  | DStr s => s
  | DConcat parts | DFill parts =>
      (fix all (l : list Doc) : string :=
         match l with
         | [] => EmptyString
         | x :: rest => (docText x ++ all rest)%string
         end) parts
  | DGroup c | DIndent c | DDedent c => docText c
  | DLine => " "
  | DSoftline => EmptyString
  | DHardline | DLiteralline => String JsString.LF EmptyString
  | DBreakParent => EmptyString
  end.

(** The texts of some documents, one after the other. *)
Definition concatText (l : list Doc) : string :=
  fold_right (fun d acc => (docText d ++ acc)%string) EmptyString l.

(** A forced break somewhere in the document: a group around it cannot
    be laid out flat. *)
Fixpoint forcesBreak (d : Doc) : bool :=
  match d with
  | DStr _ | DLine | DSoftline => false
  | DHardline | DLiteralline | DBreakParent => true
  | DGroup c | DIndent c | DDedent c => forcesBreak c
  | DConcat parts | DFill parts =>
      (fix any (l : list Doc) : bool :=
         match l with
         | [] => false
         | x :: rest => forcesBreak x || any rest
         end) parts
  end.

(** ** Notions used to state further properties *)

(** [patterns.map(expandNode)]: the patterns expanded one after the
    other; [inObject] tells whether an [ObjectExpression] is passed as
    their parent. *)
Fixpoint expandEach (H : Helpers) (inObject : bool) (l : list Pattern)
  : Outcome (list string) :=
  match l with
  | [] => Returned []
  | p :: rest =>
      bindOutcome (expandNode H p inObject) (fun s =>
      bindOutcome (expandEach H inObject rest) (fun ss =>
      Returned (s :: ss)))
  end.

Definition isIdentifierPattern (p : Pattern) : bool :=
  match p with PIdentifier _ => true | _ => false end.

(** The binding patterns [expandNode] spells out itself, without the
    code generator: identifiers, literals, arrays (holes allowed),
    objects whose keys are identifiers, defaults and rest elements. *)
Fixpoint plainPattern (p : Pattern) : bool :=
  match p with
  | PNull => false
  | PString _ | PIdentifier _ | PLiteral _ => true
  | PArray _ elements =>
      forallb (fun e => match e with PNull => true | _ => plainPattern e end) elements
  | PAssignment lhs rhs => plainPattern lhs && plainPattern rhs
  | PObjectExpression properties | PObjectPattern properties =>
      forallb plainPattern properties
  | PProperty key value => isIdentifierPattern key && plainPattern value
  | PRestElement argument => isIdentifierPattern argument
  | POther _ => false
  end.

(** A property [key: value] of two identifiers. *)
Definition identifierProperty (kv : string * string) : Pattern :=
  PProperty (PIdentifier (fst kv)) (PIdentifier (snd kv)).


(** Some strings, one after the other. *)
Definition appendAll (l : list string) : string :=
  fold_right append EmptyString l.

(** The two tests of the first loop of [prepareChildren] that drop a
    child whatever the sort order: a text node without text, and a
    whitespace-only text node right before an embedded section. *)
Definition keptChild (H : Helpers) (path : FastPath) (child : Node) : bool :=
  negb (isText child && String.eqb (getUnencodedText child) EmptyString)
  && negb (isEmptyTextNode child && doesEmbedStartAfterNode H (Some child) path).

(** The [raw] and the [data] of a text node. *)
Definition textRaw (n : Node) : string :=
  match n with
  | Text _ raw _ => raw
  | _ => EmptyString
  end.

Definition textData (n : Node) : string :=
  match n with
  | Text _ _ data => data
  | _ => EmptyString
  end.

(** [kept] is [all] with some of its elements left out, the others in
    their order. *)
Inductive Subsequence {A : Type} : list A -> list A -> Prop :=
| sub_nil : Subsequence [] []
| sub_skip (x : A) (kept all : list A) :
    Subsequence kept all -> Subsequence kept (x :: all)
| sub_keep (x : A) (kept all : list A) :
    Subsequence kept all -> Subsequence (x :: kept) (x :: all).

(** A sibling, with its index, that the loop of
    [removeAndGetLeadingComments] takes for a comment of the section: a
    comment that is no range directive. *)
Definition takenComment (H : Helpers) (siblings : list (nat * Node))
  (entry : nat * Node) : Prop :=
  In entry siblings
  /\ isCommentNode (snd entry) = true
  /\ isIgnoreStartDirective H (snd entry) = false
  /\ isIgnoreEndDirective H (snd entry) = false.

(** A child of the markup, behind the section put in front of it, if
    any. *)
Definition withSection (entry : option Node * Node) : list Node :=
  match fst entry with
  | Some part => [part; snd entry]
  | None => [snd entry]
  end.

(** A computation that leaves [svelteOptionsDoc] as it finds it, whether
    it returns or throws. *)
Definition keepsOptionsDoc {A : Type} (m : M A) : Prop :=
  forall g, svelteOptionsDoc (snd (m g)) = svelteOptionsDoc g.

(** A computation after which the module-level variables stand in the
    relation [R] to what they were before it, whether it returns or
    throws. *)
Definition respects {A : Type} (R : Globals -> Globals -> Prop) (m : M A) : Prop :=
  forall g, R g (snd (m g)).

(** [svelteOptionsDoc] is the same before and after. *)
Definition sameOptionsDoc (g g' : Globals) : Prop :=
  svelteOptionsDoc g' = svelteOptionsDoc g.

(** Nothing is being ignored after, when nothing was before. *)
Definition flagsStayDown (g g' : Globals) : Prop :=
  ignoreNext g = false -> ignoreRange g = false ->
  ignoreNext g' = false /\ ignoreRange g' = false.

(** A piece of a text that is a word: not the empty string. *)
Definition isWord (w : string) : bool := negb (String.eqb w EmptyString).

(** A [line] or a hard line. *)
Definition isLineBreak (d : Doc) : bool :=
  match d with
  | DLine | DHardline => true
  | _ => false
  end.

(** A text without its spaces and tabs. *)
Fixpoint withoutBlanks (s : string) : string :=
  match s with
  | EmptyString => EmptyString
  | String c r => if isSpaceOrTab c then withoutBlanks r else String c (withoutBlanks r)
  end.
(** In [collapseBlanks], what is pending: a character that stays, and the
    blanks read after it. *)
Definition pendingKept (pending : option (ascii * string)) : string :=
  match pending with
  | Some (c, _) => String c EmptyString
  | None => EmptyString
  end.

Definition pendingBlank (pending : option (ascii * string)) : Prop :=
  match pending with
  | Some (c, run) => isSpaceOrTab c = false /\ withoutBlanks run = EmptyString
  | None => True
  end.

(** The documents of children none of which is a text node, each with its
    own document: a [softline] stands between two neighbours exactly when
    one of them is a block element. *)
Fixpoint woven (H : Helpers) (options : ParserOptions) (previous : option Node)
  (entries : list (Node * Doc)) : list Doc :=
  match entries with
  | [] => []
  | (n, d) :: rest =>
      match previous with
      | Some p =>
          if isBlockElement H p options || isBlockElement H n options
          then [softline] else []
      | None => []
      end ++ d :: woven H options (Some n) rest
  end.

(** A character of a class name on one line: no space, no tab, no line
    end. *)
Definition isClassChar (c : ascii) : bool :=
  notBlankNorLF c && negb (Ascii.eqb c JsString.CR).

Definition isClassWord (w : string) : bool :=
  negb (String.eqb w EmptyString) && JsString.forallb isClassChar w.

(** A run of spaces and tabs, one at least. *)
Definition isBlankRun (r : string) : bool :=
  negb (String.eqb r EmptyString) && JsString.forallb isSpaceOrTab r.

(** Class names on one line: each name of [names] with the blanks that
    follow it, then the last name. *)
Fixpoint classLine (names : list (string * string)) (lastName : string) : string :=
  match names with
  | [] => lastName
  | (w, run) :: rest => (w ++ run ++ classLine rest lastName)%string
  end.


(** ** The printer on examples

    An instance of the collaborators, and the host's recursion, to run
    the printer on concrete trees. *)

Module Sample.

Definition commentIs (directive : string) (n : Node) : bool :=
  match n with
  | Comment _ data => String.eqb (JsString.trim data) directive
  | _ => false
  end.

Definition blockElements : list string :=
  ["div"; "p"; "ul"; "ol"; "li"; "section"; "header"; "footer"; "main"; "h1"; "pre"].

Definition isBlock (n : Node) (_ : ParserOptions) : bool :=
  match n with
  | ElementLike Element _ name _ _ _ _ => existsb (String.eqb name) blockElements
  | _ => false
  end.

Definition isInline (_ : FastPath) (options : ParserOptions) (n : Node) : bool :=
  match n with
  | ElementLike _ _ _ _ _ _ _ => negb (isBlock n options)
  | Tag MustacheTag _ _ => true
  | _ => false
  end.

Definition inPre (path : FastPath) : bool :=
  existsb
    (fun v =>
       match v with
       | VNode (ElementLike _ _ name _ _ _ _) => String.eqb name "pre"
       | _ => false
       end)
    path.

Definition textStartsWithSpace (n : Node) : bool :=
  isText n && JsString.startsWith JsString.isSpace (getUnencodedText n).

Definition textEndsWithSpace (n : Node) : bool :=
  isText n && JsString.startsWith JsString.isSpace (JsString.rev (getUnencodedText n)).

Definition trimLeft (n : Node) : Node :=
  match n with
  | Text l raw data => Text l (JsString.trimStart raw) (JsString.trimStart data)
  | other => other
  end.

Definition trimRight (n : Node) : Node :=
  match n with
  | Text l raw data => Text l (JsString.trimEnd raw) (JsString.trimEnd data)
  | other => other
  end.

Definition startWhitespace (n : Node) (_ : ParserOptions) : BlockWhitespace :=
  match getChildren n with
  | first :: _ =>
      if isText first && startsWithLinebreak (getUnencodedText first) 1 then WsLine
      else if textStartsWithSpace first then WsSpace else WsNone
  | [] => WsNone
  end.

Definition endWhitespace (n : Node) (_ : ParserOptions) : BlockWhitespace :=
  match List.last (map Some (getChildren n)) None with
  | Some lastChild =>
      if isText lastChild && endsWithLinebreak (getUnencodedText lastChild) 1 then WsLine
      else if textEndsWithSpace lastChild then WsSpace else WsNone
  | None => WsNone
  end.

Definition isLineDoc (d : Doc) : bool :=
  match d with
  | DLine | DSoftline | DHardline | DLiteralline => true
  | _ => false
  end.

Definition isEmpty (d : Doc) : bool :=
  match d with
  | DStr EmptyString | DConcat [] => true
  | _ => false
  end.

Fixpoint dropWhile {A : Type} (p : A -> bool) (l : list A) : list A :=
  match l with
  | [] => []
  | x :: rest => if p x then dropWhile p rest else l
  end.

Definition trimDocs (docs : list Doc) (p : Doc -> bool) : list Doc :=
  List.rev (dropWhile p (List.rev (dropWhile p docs))).

(** [s.split('-')] *)
Fixpoint splitDash (s : string) : list string :=
  match s with
  | EmptyString => [EmptyString]
  | String c r =>
      if Ascii.eqb c "-"%char then EmptyString :: splitDash r
      else match splitDash r with
           | w :: ws => String c w :: ws
           | [] => [String c EmptyString]
           end
  end.

Definition sortOrderPart (s : string) : list SortOrderPart :=
  if String.eqb s "options" then [PartOptions]
  else if String.eqb s "scripts" then [PartScripts]
  else if String.eqb s "markup" then [PartMarkup]
  else if String.eqb s "styles" then [PartStyles]
  else [].

Definition sortOrder (s : string) : list SortOrderPart :=
  if String.eqb s "none" then [] else flat_map sortOrderPart (splitDash s).

Definition nextSibling (path : FastPath) : option Node :=
  match path with
  | VNode n :: VNode parent :: _ =>
      find (fun child => start child =? end_ n) (getChildren parent)
  | _ => None
  end.

Definition topLevel (_ : Node) (path : FastPath) : bool :=
  match getParentNode path 1 with
  | VRoot _ => true
  | _ => false
  end.

Definition withAttributeLine (_ : Node) (_ : ParserOptions) (print : PrintFn) : PrintFn :=
  fun path =>
    match getValue path with
    | VNode (Comment _ _) => ret (DStr EmptyString)
    | _ => d <- print path ;; ret (concat [line; d])
    end.

Definition helpers : Helpers :=
  {| isBracketSameLine := fun _ => false;
     isPreTagContent := inPre;
     replaceEndOfLineWith :=
       fun s d => joinParts d (map DStr (JsString.splitLines s));
     getAttributeLine := fun _ _ => line;
     printWithPrependedAttributeLine := withAttributeLine;
     isIgnoreDirective := commentIs "prettier-ignore";
     isIgnoreStartDirective := commentIs "prettier-ignore-start";
     isIgnoreEndDirective := commentIs "prettier-ignore-end";
     isNodeTopLevelHTML := topLevel;
     getNextNode := nextSibling;
     doesEmbedStartAfterNode := fun _ _ => false;
     isBlockElement := isBlock;
     isInlineElement := isInline;
     isInsideQuotedAttribute := fun _ _ => false;
     isTextNodeStartingWithWhitespace := textStartsWithSpace;
     isTextNodeEndingWithWhitespace := textEndsWithSpace;
     isTextNodeStartingWithLinebreak :=
       fun n k => isText n && startsWithLinebreak (getUnencodedText n) k;
     isTextNodeEndingWithLinebreak :=
       fun n k => isText n && endsWithLinebreak (getUnencodedText n) k;
     trimTextNodeLeft := trimLeft;
     trimTextNodeRight := trimRight;
     checkWhitespaceAtStartOfSvelteBlock := startWhitespace;
     checkWhitespaceAtEndOfSvelteBlock := endWhitespace;
     hasSnippedContent := fun _ => false;
     unsnipContent := fun s => s;
     extractAttributes := fun _ => [];
     getText := fun n options =>
       JsString.slice (originalText options) (start n) (end_ n);
     parseSortOrder := sortOrder;
     isLine := isLineDoc;
     isEmptyDoc := isEmpty;
     trim := trimDocs;
     trimRightLines := fun d => d;
     trimChildren := fun children _ => children;
     isNodeSupportedLanguage := fun _ => true;
     shouldHugStart := fun _ _ _ => false;
     shouldHugEnd := fun _ _ _ => false;
     canOmitSoftlineBeforeClosingTag := fun _ _ _ => false;
     printRaw := fun n text _ => JsString.slice text (start n) (end_ n);
     selfClosingTags := ["br"; "hr"; "img"; "input"];
     formattableAttributes := [];
     generate := fun _ => None;
     generatePattern := fun _ => None |}.

(** The host's recursion: every child goes back to [print].  The fuel
    bounds the depth of the tree. *)
Fixpoint printTree (fuel : nat) (options : ParserOptions) (path : FastPath) : M Doc :=
  match fuel with
  | 0 => diverge
  | S fuel' => print helpers path options (printTree fuel' options)
  end.

Definition options (text sortOrder : string) (strict shorthand pragma : bool)
  : ParserOptions :=
  mkOptions text strict shorthand sortOrder pragma EmptyString [].

Definition defaultOrder : string := "options-scripts-markup-styles".

(** Trees and options for the examples. *)

Definition at_ (a b : nat) : Loc := mkLoc a b.

Definition ident (name : string) : Node := Identifier (at_ 0 0) name None.

(** [<p>hello  world</p>] *)
Definition paragraphText : string := "<p>hello  world</p>".

Definition paragraph : Node :=
  ElementLike Element (at_ 0 19) "p" [] [Text (at_ 3 15) "hello  world" "hello  world"]
    None None.

Definition paragraphRoot : ASTNode :=
  mkAST (Fragment (at_ 0 19) [paragraph]) None None None.

(** [<!-- prettier-ignore-start --><p>a</p>] *)
Definition ignoredText : string := "<!-- prettier-ignore-start --><p>a</p>".

Definition ignoredRoot : ASTNode :=
  mkAST
    (Fragment (at_ 0 38)
       [Comment (at_ 0 30) " prettier-ignore-start ";
        ElementLike Element (at_ 30 38) "p" [] [Text (at_ 33 34) "a" "a"] None None])
    None None None.

(** A style section, a script section and some markup; the child printer
    [labels] prints each as its kind. *)
Definition sectionsRoot : ASTNode :=
  mkAST (Fragment (at_ 40 50) [Text (at_ 40 50) "some words" "some words"])
    (Some (TopLevel (at_ 20 40) "Style" [] [] EmptyString))
    (Some (TopLevel (at_ 0 20) "Program" [] [] EmptyString))
    None.

Definition labels : PrintFn :=
  fun path =>
    ret (DStr
           match getValue path with
           | VNode (TopLevel _ type_ _ _ _) => type_
           | VNode (Fragment _ _) => "Markup"
           | _ => EmptyString
           end).

(** A child printer that tells whether a range is being ignored. *)
Definition observer : PrintFn :=
  fun path =>
    g <- getGlobals ;;
    ret (DStr (if ignoreRange g then "ignoring" else "formatting")).


End Sample.

(** * Properties of the printer *)

(** * Strings *)

Module JsStringFacts.
Import JsString.

Lemma append_empty_r (s : string) : (s ++ EmptyString)%string = s.
Proof. induction s as [|c s IH]; simpl; [reflexivity | now rewrite IH]. Qed.

Lemma append_assoc (a b c : string) : ((a ++ b) ++ c)%string = (a ++ (b ++ c))%string.
Proof. induction a as [|x a IH]; simpl; [reflexivity | now rewrite IH]. Qed.

Lemma rev_append (a b : string) : rev (a ++ b) = (rev b ++ rev a)%string.
Proof.
  induction a as [|x a IH]; simpl.
  - now rewrite append_empty_r.
  - now rewrite IH, append_assoc.
Qed.

Lemma rev_involutive (s : string) : rev (rev s) = s.
Proof.
  induction s as [|c s IH]; simpl; [reflexivity|].
  now rewrite rev_append, IH.
Qed.

Lemma rev_empty (s : string) : rev s = EmptyString -> s = EmptyString.
Proof.
  intros E. rewrite <- (rev_involutive s), E. reflexivity.
Qed.

Lemma forallb_append p (a b : string) :
  forallb p (a ++ b) = forallb p a && forallb p b.
Proof.
  induction a as [|x a IH]; simpl; [reflexivity|].
  now rewrite IH, andb_assoc.
Qed.

Lemma forallb_rev p (s : string) : forallb p (rev s) = forallb p s.
Proof.
  induction s as [|c s IH]; simpl; [reflexivity|].
  rewrite forallb_append, IH. simpl. rewrite andb_true_r. apply andb_comm.
Qed.

Lemma count_append p (a b : string) : count p (a ++ b) = count p a + count p b.
Proof.
  induction a as [|x a IH]; simpl; [reflexivity|]. rewrite IH. lia.
Qed.

Lemma count_rev p (s : string) : count p (rev s) = count p s.
Proof.
  induction s as [|c s IH]; simpl; [reflexivity|].
  rewrite count_append, IH. simpl. lia.
Qed.

Lemma length_append (a b : string) :
  String.length (a ++ b) = String.length a + String.length b.
Proof. induction a as [|x a IH]; simpl; [reflexivity | now rewrite IH]. Qed.

(** ** [trim] *)

Lemma trimStart_spaces (s : string) :
  forallb isSpace s = true -> trimStart s = EmptyString.
Proof.
  induction s as [|c s IH]; simpl; [reflexivity|].
  intros E. apply andb_true_iff in E as [Ec Es]. rewrite Ec. auto.
Qed.

Lemma trimStart_empty (s : string) :
  trimStart s = EmptyString -> forallb isSpace s = true.
Proof.
  induction s as [|c s IH]; simpl; [reflexivity|].
  destruct (isSpace c); [auto | discriminate].
Qed.

Lemma trimStart_head (s : string) :
  trimStart s = EmptyString \/ startsWith (fun c => negb (isSpace c)) (trimStart s) = true.
Proof.
  induction s as [|c s IH]; simpl; [now left|].
  destruct (isSpace c) eqn:E; [exact IH|].
  right. simpl. now rewrite E.
Qed.

(** A string trims to nothing exactly when it is white space only. *)
Lemma trim_empty_iff (s : string) :
  trim s = EmptyString <-> forallb isSpace s = true.
Proof.
  unfold trim, trimEnd. split.
  - intros E. apply rev_empty, trimStart_empty in E.
    rewrite forallb_rev in E.
    destruct (trimStart_head s) as [E0 | Hd].
    + now apply trimStart_empty.
    + destruct (trimStart s) as [|c r]; [discriminate|].
      simpl in Hd, E. destruct (isSpace c); discriminate.
  - intros E. rewrite (trimStart_spaces _ E). reflexivity.
Qed.

(** ** Lines *)

Lemma splitLines_nonempty (s : string) : splitLines s <> [].
Proof.
  induction s as [|c s IH]; simpl; [discriminate|].
  destruct (isLF c); [discriminate|].
  destruct (splitLines s); [contradiction | discriminate].
Qed.

Lemma isLF_eq (c : ascii) : isLF c = true -> c = LF.
Proof. unfold isLF. apply Ascii.eqb_eq. Qed.

Lemma length_splitLines (s : string) :
  List.length (splitLines s) = S (count isLF s).
Proof.
  induction s as [|c s IH]; simpl; [reflexivity|].
  destruct (isLF c); simpl; [now rewrite IH|].
  pose proof (splitLines_nonempty s) as NE.
  destruct (splitLines s); [contradiction|]. simpl in *. lia.
Qed.

(** ** The newline tests on white space *)

Lemma spacesThenLF_spaces (s : string) :
  forallb isSpace s = true -> spacesThenLF s = (1 <=? count isLF s).
Proof.
  induction s as [|c s IH]; [reflexivity|].
  cbn [forallb spacesThenLF count].
  intros E. apply andb_true_iff in E as [Ec Es]. rewrite Ec, (IH Es).
  destruct (isLF c); reflexivity.
Qed.

Lemma hasLFSpacesLF_spaces (s : string) :
  forallb isSpace s = true -> hasLFSpacesLF s = (2 <=? count isLF s).
Proof.
  induction s as [|c s IH]; [reflexivity|].
  cbn [forallb hasLFSpacesLF count].
  intros E. apply andb_true_iff in E as [Ec Es]. rewrite (IH Es).
  rewrite (spacesThenLF_spaces _ Es).
  assert (CRcase :
    match s with
    | String d r' => Ascii.eqb d CR && spacesThenLF r'
    | EmptyString => false
    end = true -> 1 <= count isLF s).
  { destruct s as [|d r']; [discriminate|].
    intros Hd. apply andb_true_iff in Hd as [Hd Hr].
    cbn [forallb] in Es. apply andb_true_iff in Es as [_ Er].
    rewrite (spacesThenLF_spaces _ Er) in Hr.
    apply Nat.leb_le in Hr. cbn [count]. lia. }
  destruct (match s with
            | String d r' => Ascii.eqb d CR && spacesThenLF r'
            | EmptyString => false
            end).
  - specialize (CRcase eq_refl).
    destruct (isLF c).
    + replace (1 <=? count isLF s) with true by (symmetry; apply Nat.leb_le; lia).
      replace (2 <=? 1 + count isLF s) with true by (symmetry; apply Nat.leb_le; lia).
      reflexivity.
    + reflexivity.
  - destruct (isLF c); [|reflexivity].
    rewrite orb_false_r. cbn [andb].
    destruct (count isLF s) as [|[|k]]; reflexivity.
Qed.

Lemma hasLF_count (s : string) : hasLF s = (1 <=? count isLF s).
Proof.
  unfold hasLF. destruct (count isLF s); reflexivity.
Qed.

End JsStringFacts.

(** * Documents *)

Lemma joinParts_cons (sep x : Doc) (l : list Doc) :
  joinParts sep (x :: l) = x :: flat_map (fun y => [sep; y]) l.
Proof.
  revert x. induction l as [|y l IH]; intros x; [reflexivity|].
  change (joinParts sep (x :: y :: l)) with (x :: sep :: joinParts sep (y :: l)).
  now rewrite IH.
Qed.

Lemma docText_concat (l : list Doc) : docText (DConcat l) = concatText l.
Proof.
  induction l as [|d l IH]; [reflexivity|].
  unfold concatText. cbn [fold_right]. fold (concatText l). rewrite <- IH.
  reflexivity.
Qed.

Lemma concatText_app (a b : list Doc) :
  concatText (a ++ b) = (concatText a ++ concatText b)%string.
Proof.
  induction a as [|d a IH]; [reflexivity|].
  cbn [app concatText fold_right]. fold (concatText (a ++ b)). fold (concatText a).
  now rewrite IH, JsStringFacts.append_assoc.
Qed.

(** The lines of a string, joined by newlines, are the string. *)
Lemma splitLines_joined (s : string) :
  concatText (joinParts literalline (map DStr (JsString.splitLines s))) = s.
Proof.
  induction s as [|c s IH]; [reflexivity|].
  cbn [JsString.splitLines].
  pose proof (JsStringFacts.splitLines_nonempty s) as NE.
  destruct (JsString.splitLines s) as [|l ls]; [contradiction|].
  destruct (JsString.isLF c) eqn:E.
  - apply JsStringFacts.isLF_eq in E. subst c.
    cbn [map]. change (joinParts literalline (DStr EmptyString :: DStr l :: map DStr ls))
      with (DStr EmptyString :: literalline :: joinParts literalline (map DStr (l :: ls))).
    cbn [concatText fold_right]. fold (concatText (joinParts literalline (map DStr (l :: ls)))).
    rewrite IH. reflexivity.
  - cbn [map] in *. rewrite joinParts_cons in *.
    cbn [concatText fold_right docText] in *.
    cbn [append]. f_equal. exact IH.
Qed.

Lemma flatten_mapIndexFrom (i : nat) (lines : list string) :
  flatten
    (mapIndexFrom (S i)
       (fun (o : string) (i : nat) =>
          if i =? 0 then [DStr o] else [literalline; DStr o]) lines)
  = flat_map (fun y => [literalline; y]) (map DStr lines).
Proof.
  revert i. induction lines as [|o lines IH]; intros i; [reflexivity|].
  cbn [mapIndexFrom flatten List.concat map flat_map]. 
  change (List.concat ?x) with (flatten x). rewrite IH. reflexivity.
Qed.

(** The document of a suppressed node: the lines of the source text of
    the node, a literal line between any two of them. *)
Lemma rawSlice_lines (options : ParserOptions) (node : Node) :
  rawSlice options node
  = concat
      (joinParts literalline
         (map DStr
            (JsString.splitLines
               (JsString.slice (originalText options) (locStart node) (locEnd node))))).
Proof.
  unfold rawSlice. f_equal.
  pose proof (JsStringFacts.splitLines_nonempty
                (JsString.slice (originalText options) (locStart node) (locEnd node))) as NE.
  destruct (JsString.splitLines _) as [|l ls]; [contradiction|].
  cbn [map]. rewrite joinParts_cons.
  unfold mapIndex. cbn [mapIndexFrom flatten List.concat Nat.eqb app].
  change (List.concat ?x) with (flatten x). now rewrite flatten_mapIndexFrom.
Qed.

(** * Words *)

Module SplitFacts.
Import JsString JsStringFacts.

Lemma splitWs_nonempty (s : string) : splitWs s <> [].
Proof.
  induction s as [|c s IH]; cbn [splitWs]; [discriminate|].
  destruct (isSplitWs c).
  - destruct (startsWith isSplitWs s); [exact IH | discriminate].
  - destruct (splitWs s); [contradiction | discriminate].
Qed.

(** A run of separators in front leaves an empty first piece. *)
Lemma splitWs_leading (lead : string) (c : ascii) (body : string) :
  lead <> EmptyString -> forallb isSplitWs lead = true -> isSplitWs c = false ->
  splitWs (lead ++ String c body) = EmptyString :: splitWs (String c body).
Proof.
  induction lead as [|a lead IH]; [congruence|].
  intros _ All Hc. cbn [forallb] in All. apply andb_true_iff in All as [Ha All].
  cbn [append splitWs]. rewrite Ha.
  destruct lead as [|b lead].
  - cbn [append startsWith splitWs]. now rewrite !Hc.
  - assert (Hb : isSplitWs b = true)
      by (cbn [forallb] in All; now apply andb_true_iff in All as [Hb _]).
    cbn [append startsWith]. rewrite Hb.
    change (String b (lead ++ String c body)) with (String b lead ++ String c body)%string.
    rewrite IH; [|discriminate | exact All | exact Hc].
    cbn [splitWs]. now rewrite Hc.
Qed.

Lemma splitWs_word (c : ascii) (body : string) :
  isSplitWs c = false ->
  exists w ws, splitWs (String c body) = String c w :: ws.
Proof.
  intros Hc. cbn [splitWs]. rewrite Hc.
  pose proof (splitWs_nonempty body) as NE.
  destruct (splitWs body) as [|w ws]; [contradiction|]. now exists w, ws.
Qed.

Lemma splitWs_separators (trail : string) :
  trail <> EmptyString -> forallb isSplitWs trail = true ->
  splitWs trail = [EmptyString; EmptyString].
Proof.
  induction trail as [|a trail IH]; [congruence|].
  intros _ All. cbn [forallb] in All. apply andb_true_iff in All as [Ha All].
  cbn [splitWs]. rewrite Ha.
  destruct trail as [|b trail]; [reflexivity|].
  assert (Hb : isSplitWs b = true)
    by (cbn [forallb] in All; now apply andb_true_iff in All as [Hb _]).
  cbn [startsWith]. rewrite Hb. apply IH; [discriminate | exact All].
Qed.

(** A run of separators at the end leaves an empty last piece. *)
Lemma splitWs_trailing (body : string) (c : ascii) (trail : string) :
  trail <> EmptyString -> forallb isSplitWs trail = true -> isSplitWs c = false ->
  splitWs ((body ++ String c EmptyString) ++ trail)
  = splitWs (body ++ String c EmptyString) ++ [EmptyString].
Proof.
  intros NE All Hc.
  induction body as [|a body IH].
  - cbn [append splitWs]. rewrite Hc.
    rewrite (splitWs_separators trail NE All). reflexivity.
  - cbn [append splitWs].
    assert (Hd : startsWith isSplitWs ((body ++ String c EmptyString) ++ trail)
                 = startsWith isSplitWs (body ++ String c EmptyString))
      by (destruct body; reflexivity).
    rewrite Hd, IH.
    pose proof (splitWs_nonempty (body ++ String c EmptyString)) as NE'.
    destruct (isSplitWs a).
    + destruct (startsWith isSplitWs (body ++ String c EmptyString)); reflexivity.
    + destruct (splitWs (body ++ String c EmptyString)); [contradiction | reflexivity].
Qed.

(** The last piece of a text that ends in a word is that word. *)
Lemma splitWs_last_word (body : string) (c : ascii) :
  isSplitWs c = false ->
  exists front w,
    splitWs (body ++ String c EmptyString) = front ++ [w] /\ w <> EmptyString.
Proof.
  intros Hc. induction body as [|a body (front & w & E & NE)].
  - exists [], (String c EmptyString). cbn [append splitWs]. rewrite Hc. now split.
  - cbn [append splitWs]. rewrite E.
    destruct (isSplitWs a).
    + destruct (startsWith isSplitWs (body ++ String c EmptyString)).
      * now exists front, w.
      * now exists (EmptyString :: front), w.
    + destruct front as [|f front]; cbn [app].
      * exists [], (String a w). now split.
      * exists (String a f :: front), w. now split.
Qed.

End SplitFacts.

(** * The documents of a text *)

Module TextFacts.
Import JsString JsStringFacts SplitFacts.

Lemma notEmptyString_word (w : string) :
  w <> EmptyString -> notEmptyString (DStr w) = true.
Proof. destruct w; [congruence | reflexivity]. Qed.

Lemma splitWs_starts_empty (text : string) :
  startsWith isSplitWs text = true ->
  exists p ps, splitWs text = EmptyString :: p :: ps.
Proof.
  induction text as [|a t IH]; [discriminate|].
  cbn [startsWith]. intros Ha. cbn [splitWs]. rewrite Ha.
  destruct (startsWith isSplitWs t) eqn:E.
  - now apply IH.
  - pose proof (splitWs_nonempty t) as NE.
    destruct (splitWs t) as [|p ps]; [contradiction|]. now exists p, ps.
Qed.

(** White space in front of a text shows as a [line] in front of its
    documents. *)
Lemma wordDocs_starts_line (text : string) :
  startsWith isSplitWs text = true ->
  exists rest, wordDocs text = line :: rest.
Proof.
  intros Hd. destruct (splitWs_starts_empty text Hd) as (p & ps & E).
  unfold wordDocs. rewrite E. cbn [map]. rewrite joinParts_cons.
  cbn [flat_map app filter notEmptyString truthyDoc line].
  eexists. reflexivity.
Qed.

Lemma wordDocs_leading (lead : string) (c : ascii) (body : string) :
  lead <> EmptyString -> forallb isSplitWs lead = true -> isSplitWs c = false ->
  exists w rest,
    wordDocs (lead ++ String c body) = line :: DStr (String c w) :: rest.
Proof.
  intros NE All Hc. unfold wordDocs.
  rewrite (splitWs_leading lead c body NE All Hc).
  destruct (splitWs_word c body Hc) as (w & ws & E). rewrite E.
  cbn [map]. rewrite joinParts_cons.
  cbn [flat_map app filter notEmptyString truthyDoc line].
  now exists w, (filter truthyDoc (flat_map (fun y => [DLine; y]) (map DStr ws))).
Qed.

Lemma joinParts_snoc (sep : Doc) (l : list Doc) (x : Doc) :
  exists P, joinParts sep (l ++ [x]) = P ++ [x]
            /\ forall y, joinParts sep (l ++ [x; y]) = P ++ [x; sep; y].
Proof.
  destruct l as [|a l].
  - exists []. split; [reflexivity|]. intros y. reflexivity.
  - exists (a :: flat_map (fun y => [sep; y]) l ++ [sep]).
    cbn [app]. rewrite joinParts_cons, flat_map_app. cbn [flat_map app].
    split.
    + now rewrite <- !app_assoc.
    + intros y. rewrite joinParts_cons, flat_map_app. cbn [flat_map app].
      now rewrite <- !app_assoc.
Qed.

(** White space after the last word shows as a [line] after it. *)
Lemma wordDocs_trailing (body : string) (c : ascii) (trail : string) :
  trail <> EmptyString -> forallb isSplitWs trail = true -> isSplitWs c = false ->
  exists front w,
    wordDocs ((body ++ String c EmptyString) ++ trail) = front ++ [DStr w; line]
    /\ w <> EmptyString.
Proof.
  intros NE All Hc. unfold wordDocs.
  rewrite (splitWs_trailing body c trail NE All Hc).
  destruct (splitWs_last_word body c Hc) as (front & w & E & Hw). rewrite E.
  rewrite <- app_assoc. cbn [app].
  replace (map DStr (front ++ [w; EmptyString]))
    with (map DStr front ++ [DStr w; DStr EmptyString])
    by (now rewrite map_app).
  destruct (joinParts_snoc line (map DStr front) (DStr w)) as (P & _ & E2).
  rewrite E2, filter_app. cbn [filter]. rewrite (notEmptyString_word w Hw).
  cbn [notEmptyString truthyDoc line]. now exists (filter notEmptyString P), w.
Qed.

Lemma all_separators_or_word (s : string) :
  forallb isSplitWs s = true
  \/ exists b d trail,
       s = ((b ++ String d EmptyString) ++ trail)%string
       /\ isSplitWs d = false /\ forallb isSplitWs trail = true.
Proof.
  induction s as [|a s [All | (b & d & trail & E & Hd & All)]].
  - now left.
  - destruct (isSplitWs a) eqn:Ha.
    + left. cbn [forallb]. now rewrite Ha.
    + right. exists EmptyString, a, s. now repeat split.
  - right. exists (String a b), d, trail. subst s. now repeat split.
Qed.

Lemma wordDocs_ends_line (text : string) :
  startsWith isSplitWs (rev text) = true ->
  exists front, wordDocs text = front ++ [line].
Proof.
  intros Hd.
  destruct (all_separators_or_word text) as [All | (b & d & trail & E & Hdd & All)].
  - assert (NE : text <> EmptyString) by (intros ->; discriminate).
    unfold wordDocs. rewrite (splitWs_separators text NE All).
    now exists [].
  - assert (NE : trail <> EmptyString).
    { intros ->. subst text. rewrite append_empty_r, rev_append in Hd.
      cbn [rev append startsWith] in Hd. congruence. }
    subst text.
    destruct (wordDocs_trailing b d trail NE All Hdd) as (front & w & E & _).
    rewrite E. exists (front ++ [DStr w]). now rewrite <- app_assoc.
Qed.

(** ** Line breaks at the edges *)

Lemma isSplitWs_cases (c : ascii) :
  isSplitWs c = true -> isLF c = true \/ (isLF c = false /\ isBlank c = true).
Proof.
  unfold isSplitWs, isBlank, isLF. cbn [existsb].
  destruct (Ascii.eqb c LF) eqn:E.
  - now left.
  - intros Hc. right. split; [reflexivity|].
    destruct (Ascii.eqb c TAB); [reflexivity|]. cbn [orb] in *. exact Hc.
Qed.

Lemma blanksThenLF_lead (lead rest : string) :
  forallb isSplitWs lead = true -> 1 <= count isLF lead ->
  exists lead',
    blanksThenLF (lead ++ rest) = Some (lead' ++ rest)%string
    /\ forallb isSplitWs lead' = true
    /\ count isLF lead' + 1 = count isLF lead.
Proof.
  induction lead as [|a lead IH]; cbn [forallb count append blanksThenLF].
  - lia.
  - intros All Cnt. apply andb_true_iff in All as [Ha All].
    destruct (isSplitWs_cases a Ha) as [E | [E B]]; rewrite E in *.
    + exists lead. repeat split; [exact All | lia].
    + rewrite B. cbn [Nat.add] in Cnt.
      destruct (IH All Cnt) as (lead' & E1 & E2 & E3).
      exists lead'. repeat split; [exact E1 | exact E2 | lia].
Qed.

Lemma startsWithLinebreak_lead (n : nat) (lead rest : string) :
  forallb isSplitWs lead = true -> n <= count isLF lead ->
  startsWithLinebreak (lead ++ rest) n = true.
Proof.
  revert lead. induction n as [|n IH]; intros lead All Cnt; [reflexivity|].
  cbn [startsWithLinebreak].
  destruct (blanksThenLF_lead lead rest All ltac:(lia)) as (lead' & E1 & E2 & E3).
  rewrite E1. apply IH; [exact E2 | lia].
Qed.

Lemma startsWithLinebreak_head (text : string) (n : nat) :
  startsWithLinebreak text (S n) = true -> startsWith isSplitWs text = true.
Proof.
  cbn [startsWithLinebreak]. destruct text as [|c t]; [discriminate|].
  cbn [blanksThenLF startsWith]. unfold isSplitWs, isBlank, isLF. cbn [existsb].
  destruct (Ascii.eqb c LF); [now rewrite orb_true_r|].
  destruct (Ascii.eqb c TAB); [reflexivity|]. cbn [orb].
  destruct (Ascii.eqb c FF || (Ascii.eqb c CR || (Ascii.eqb c SP || false)));
    [reflexivity | discriminate].
Qed.

Lemma endsWithLinebreak_trail (n : nat) (body trail : string) :
  forallb isSplitWs trail = true -> n <= count isLF trail ->
  endsWithLinebreak (body ++ trail) n = true.
Proof.
  intros All Cnt. unfold endsWithLinebreak. rewrite rev_append.
  apply startsWithLinebreak_lead; [now rewrite forallb_rev | now rewrite count_rev].
Qed.

Lemma setLast_snoc (d : Doc) (l : list Doc) (x : Doc) :
  setLast d (l ++ [x]) = l ++ [d].
Proof.
  induction l as [|a l IH]; [reflexivity|].
  destruct l as [|b l]; [reflexivity|].
  change (setLast d ((a :: b :: l) ++ [x])) with (a :: setLast d ((b :: l) ++ [x])).
  now rewrite IH.
Qed.

End TextFacts.

Module EdgeFacts.
Import JsString JsStringFacts SplitFacts TextFacts.

Lemma tail_ends_with {A : Type} (a b z : A) (rest front : list A) :
  a :: b :: rest = front ++ [z] -> b <> z -> exists r, rest = r ++ [z].
Proof.
  intros E Hb.
  destruct (@exists_last _ rest) as (r & y & ->).
  - intros ->. destruct front as [|f [|f' front]]; try discriminate.
    + injection E as _ E. congruence.
    + injection E as _ _ E. now destruct front.
  - exists r. f_equal.
    change (a :: b :: r ++ [y]) with ((a :: b :: r) ++ [y]) in E.
    apply app_inj_tail in E as [_ ->]. reflexivity.
Qed.

(** Two or more newlines in front of the first word: two hard lines, then
    the word. *)
Lemma splitText_leading_edge (lead : string) (c : ascii) (body : string) :
  forallb isSplitWs lead = true -> 2 <= count isLF lead -> isSplitWs c = false ->
  exists w rest,
    splitText (lead ++ String c body)
    = hardline :: hardline :: DStr (String c w) :: rest.
Proof.
  intros All Cnt Hc.
  assert (NE : lead <> EmptyString) by (intros ->; cbn in Cnt; lia).
  destruct (wordDocs_leading lead c body NE All Hc) as (w & rest0 & E).
  unfold splitText. rewrite E.
  rewrite (startsWithLinebreak_lead 1 lead _ All) by lia.
  rewrite (startsWithLinebreak_lead 2 lead _ All) by lia.
  cbn [setFirst].
  destruct (endsWithLinebreak (lead ++ String c body) 1) eqn:E1.
  - unfold endsWithLinebreak in E1. apply startsWithLinebreak_head in E1.
    destruct (wordDocs_ends_line _ E1) as (front & Ef). rewrite E in Ef.
    destruct (tail_ends_with _ _ _ _ _ Ef ltac:(discriminate)) as (r & ->).
    change (hardline :: hardline :: DStr (String c w) :: r ++ [line])
      with ((hardline :: hardline :: DStr (String c w) :: r) ++ [line]).
    rewrite setLast_snoc. cbn [app].
    destruct (endsWithLinebreak _ 2); eexists w, _; reflexivity.
  - destruct (endsWithLinebreak _ 2); eexists w, _; reflexivity.
Qed.

(** Two or more newlines after the last word: the word, then two hard
    lines. *)
Lemma splitText_trailing_edge (body : string) (c : ascii) (trail : string) :
  forallb isSplitWs trail = true -> 2 <= count isLF trail -> isSplitWs c = false ->
  exists front w,
    splitText ((body ++ String c EmptyString) ++ trail)
    = front ++ [DStr w; hardline; hardline]
    /\ w <> EmptyString.
Proof.
  intros All Cnt Hc.
  assert (NE : trail <> EmptyString) by (intros ->; cbn in Cnt; lia).
  destruct (wordDocs_trailing body c trail NE All Hc) as (X & w & E & Hw).
  unfold splitText. rewrite E.
  rewrite (endsWithLinebreak_trail 1 _ trail All) by lia.
  rewrite (endsWithLinebreak_trail 2 _ trail All) by lia.
  assert (Lead : exists Y,
    (if startsWithLinebreak ((body ++ String c EmptyString) ++ trail) 2
     then hardline ::
          (if startsWithLinebreak ((body ++ String c EmptyString) ++ trail) 1
           then setFirst hardline (X ++ [DStr w; line]) else X ++ [DStr w; line])
     else (if startsWithLinebreak ((body ++ String c EmptyString) ++ trail) 1
           then setFirst hardline (X ++ [DStr w; line]) else X ++ [DStr w; line]))
    = Y ++ [DStr w; line]).
  { assert (First : exists Y,
      (if startsWithLinebreak ((body ++ String c EmptyString) ++ trail) 1
       then setFirst hardline (X ++ [DStr w; line]) else X ++ [DStr w; line])
      = Y ++ [DStr w; line]).
    { destruct (startsWithLinebreak _ 1) eqn:S1; [|now exists X].
      apply startsWithLinebreak_head in S1.
      destruct (wordDocs_starts_line _ S1) as (r & Er). rewrite E in Er.
      destruct X as [|x X]; [discriminate|].
      exists (hardline :: X). reflexivity. }
    destruct First as (Y & ->).
    destruct (startsWithLinebreak _ 2); [now exists (hardline :: Y) | now exists Y]. }
  destruct Lead as (Y & ->).
  exists Y, w. split; [|exact Hw].
  change (Y ++ [DStr w; line]) with (Y ++ [DStr w] ++ [line]).
  rewrite app_assoc, setLast_snoc, <- !app_assoc. reflexivity.
Qed.

End EdgeFacts.

Section Dispatch.

Context (H : Helpers).

(** [print] on a node: the raw source text when the node is suppressed,
    the rule of its kind otherwise. *)
Lemma print_node (node : Node) (rest : FastPath) (options : ParserOptions)
  (cb : PrintFn) (g : Globals) :
  print H (VNode node :: rest) options cb g
  = if suppressed H g node
    then (Returned (rawSlice options node),
          mkGlobals false (ignoreRange g) (svelteOptionsDoc g))
    else printNode H node (VNode node :: rest) options cb g.
Proof.
  unfold print. cbn [getValue hd]. unfold bind at 1, getGlobals.
  destruct (suppressed H g node); [|reflexivity].
  destruct g as [n r d]. cbn [ignoreNext ignoreRange svelteOptionsDoc].
  destruct n; reflexivity.
Qed.

Lemma print_normal (node : Node) (rest : FastPath) (options : ParserOptions)
  (cb : PrintFn) (g : Globals) :
  suppressed H g node = false ->
  print H (VNode node :: rest) options cb g
  = printNode H node (VNode node :: rest) options cb g.
Proof. intros E. now rewrite print_node, E. Qed.

Lemma emptyText_not_suppressed (node : Node) (g : Globals) :
  isEmptyTextNode node = true -> suppressed H g node = false.
Proof.
  intros E. unfold suppressed. rewrite E.
  destruct node; try discriminate. cbn [isText negb orb]. apply andb_false_r.
Qed.

Lemma emptyText_spaces (loc : Loc) (raw data : string) :
  isEmptyTextNode (Text loc raw data) = true ->
  JsString.trim raw = EmptyString /\ JsString.forallb JsString.isSpace raw = true.
Proof.
  cbn [isEmptyTextNode getUnencodedText]. intros E. apply String.eqb_eq in E.
  split; [exact E | now apply JsStringFacts.trim_empty_iff].
Qed.

End Dispatch.

(** C1.  While suppression is active ([ignoreNext] set, or [ignoreRange]
    set and the node is not the directive that ends the range), a node
    that is not a whitespace-only text node is printed as its source
    text from its start offset to its end offset: the lines of that
    text, a literal line between any two of them, so that the document
    reads back as the very text; [ignoreNext] is used up.  A
    whitespace-only text node goes to the rule of its kind all the
    same. *)
Theorem suppressed_node_is_printed_verbatim
  (H : Helpers) (node : Node) (rest : FastPath) (options : ParserOptions)
  (cb : PrintFn) (g : Globals) :
  ignoreNext g = true
  \/ (ignoreRange g = true /\ isIgnoreEndDirective H node = false) ->
  if isEmptyTextNode node
  then print H (VNode node :: rest) options cb g
       = printNode H node (VNode node :: rest) options cb g
  else
    let source :=
      JsString.slice (originalText options) (start node) (end_ node) in
    let raw :=
      concat (joinParts literalline (map DStr (JsString.splitLines source))) in
    print H (VNode node :: rest) options cb g
    = (Returned raw, mkGlobals false (ignoreRange g) (svelteOptionsDoc g))
    /\ docText raw = source.
Proof.
  intros Active. destruct (isEmptyTextNode node) eqn:E.
  - apply print_normal. now apply emptyText_not_suppressed.
  - cbn zeta. split.
    + rewrite print_node.
      assert (S : suppressed H g node = true).
      { unfold suppressed. rewrite E. cbn [negb]. rewrite orb_true_r, andb_true_r.
        destruct Active as [-> | [-> ->]]; [reflexivity | apply orb_true_r]. }
      rewrite S, rawSlice_lines. reflexivity.
    + unfold concat. rewrite docText_concat. apply splitLines_joined.
Qed.

(** C2.  A text node outside pre-tag content.  When it holds nothing but
    whitespace it prints as nothing if it is empty, one [line] if it has
    no newline, one hard line if it has exactly one newline, and two hard
    lines if it has two or more.  Otherwise it prints as the [fill] of
    its words, and two or more newlines before the first word, or after
    the last one, come out as exactly two hard lines next to that word,
    however many there are. *)
Theorem text_whitespace_is_bounded
  (H : Helpers) (loc : Loc) (raw data : string) (rest : FastPath)
  (options : ParserOptions) (cb : PrintFn) (g : Globals) :
  let node := Text loc raw data in
  let path := VNode node :: rest in
  isPreTagContent H path = false ->
  (isEmptyTextNode node = true ->
   print H path options cb g
   = (Returned
        match JsString.count JsString.isLF raw with
        | 0 => if String.eqb raw EmptyString then DStr EmptyString else line
        | 1 => hardline
        | _ => concat [hardline; hardline]
        end, g))
  /\ (isEmptyTextNode node = false -> suppressed H g node = false ->
      print H path options cb g = (Returned (fill (splitTextToDocs node)), g))
  /\ (forall lead c body,
        raw = (lead ++ String c body)%string ->
        JsString.forallb JsString.isSplitWs lead = true ->
        2 <= JsString.count JsString.isLF lead ->
        JsString.isSplitWs c = false ->
        exists w more,
          splitTextToDocs node
          = hardline :: hardline :: DStr (String c w) :: more)
  /\ (forall body c trail,
        raw = ((body ++ String c EmptyString) ++ trail)%string ->
        JsString.forallb JsString.isSplitWs trail = true ->
        2 <= JsString.count JsString.isLF trail ->
        JsString.isSplitWs c = false ->
        exists front w,
          splitTextToDocs node = front ++ [DStr w; hardline; hardline]
          /\ w <> EmptyString).
Proof.
  intros node path Pre. repeat split.
  - intros E. unfold path. rewrite print_normal by now apply emptyText_not_suppressed.
    cbn [printNode node]. unfold printText. fold node. fold path. rewrite Pre, E.
    cbn [negb]. subst node. destruct (emptyText_spaces _ _ _ E) as [Tr Sp].
    cbn [getUnencodedText]. rewrite Tr.
    rewrite (JsStringFacts.hasLFSpacesLF_spaces _ Sp), JsStringFacts.hasLF_count.
    destruct (JsString.count JsString.isLF raw) as [|[|k]]; cbn [Nat.leb];
      try reflexivity.
    destruct raw; reflexivity.
  - intros E S. unfold path. rewrite (print_normal _ _ _ _ _ _ S).
    cbn [printNode node]. unfold printText. fold node. fold path.
    now rewrite Pre, E.
  - intros lead c body -> All Cnt Hc. unfold splitTextToDocs, node.
    cbn [getUnencodedText]. now apply EdgeFacts.splitText_leading_edge.
  - intros body c trail -> All Cnt Hc. unfold splitTextToDocs, node.
    cbn [getUnencodedText]. now apply EdgeFacts.splitText_trailing_edge.
Qed.

(** C6.  An attribute whose value is one mustache tag over the bare
    identifier that is the name of the attribute ([foo={foo}]), printed
    while no ignore directive is in force: in strict
    mode the printer gives name, [="{], name, [}"]; otherwise, when the
    shorthand is allowed, [{], name, [}]; otherwise name, [={], name,
    [}]. *)
Theorem attribute_shorthand_forms
  (H : Helpers) (loc tagLoc idLoc : Loc) (name : string) (flags : option JsFlags)
  (rest : FastPath) (options : ParserOptions) (cb : PrintFn) (g : Globals) :
  let node :=
    Attribute loc name
      (ValueNodes [Tag MustacheTag tagLoc (Identifier idLoc name flags)]) in
  suppressed H g node = false ->
  exists d,
    print H (VNode node :: rest) options cb g = (Returned d, g)
    /\ d = (if svelteStrictMode options
            then concat [DStr name; DStr ("=" ++ dquote ++ "{"); DStr name;
                         DStr ("}" ++ dquote)]
            else if svelteAllowShorthand options
                 then concat [DStr "{"; DStr name; DStr "}"]
                 else concat [DStr name; DStr "={"; DStr name; DStr "}"])
    /\ docText d
       = (if svelteStrictMode options
          then name ++ "=" ++ dquote ++ "{" ++ name ++ "}" ++ dquote
          else if svelteAllowShorthand options
               then "{" ++ name ++ "}"
               else name ++ "={" ++ name ++ "}")%string.
Proof.
  intros node S. eexists. split; [|split; [reflexivity|]].
  - rewrite (print_normal H _ _ _ _ _ S). subst node. cbn [printNode].
    unfold printAttribute.
    cbn [isOrCanBeConvertedToShorthand shorthandValue]. rewrite String.eqb_refl.
    destruct (svelteStrictMode options), (svelteAllowShorthand options); reflexivity.
  - destruct (svelteStrictMode options), (svelteAllowShorthand options);
      cbn [docText concat]; rewrite ?JsStringFacts.append_empty_r;
      cbn [append]; rewrite ?JsStringFacts.append_empty_r; reflexivity.
Qed.

(** Runs the call at the head of a computation, whatever its outcome. *)
Ltac run_head :=
  match goal with
  | |- context [expandNode ?H ?p ?b] => destruct (expandNode H p b)
  | |- context [printSvelteBlockJS ?p ?cb ?f ?g] =>
      destruct (printSvelteBlockJS p cb f g) as [[[? ?]| ? |] ?]
  | |- context [printSvelteBlockChildren ?H ?p ?cb ?o ?g] =>
      destruct (printSvelteBlockChildren H p cb o g) as [[[? ?]| ? |] ?]
  | |- context [printJsExpression ?p ?o ?cb ?g] =>
      destruct (printJsExpression p o cb g) as [[[? ?]| ? |] ?]
  | |- context [pathCall ?cb ?p ?n ?g] =>
      destruct (pathCall cb p n g) as [[?| ? |] ?]
  | |- context [pathMap ?f ?p ?l ?g] =>
      destruct (pathMap f p l g) as [[?| ? |] ?]
  end.

Ltac run :=
  cbv [bind ret throw liftOutcome]; cbv beta iota zeta;
  repeat (run_head; cbv beta iota zeta); try reflexivity.

(** C4.  An await block, printed while no ignore directive is in force,
    prints as its expression followed by the pieces
    of the shape picked by which of its pending, then and catch blocks
    hold a child that is not whitespace: the short then form, the short
    catch form, or the full form; [{/await}] closes it.  The body of a
    block is among the pieces exactly when the block holds such a child,
    and a [{:then}] or [{:catch}] delimiter only when its block does: a
    pending block without content is never printed. *)
Theorem await_block_shape
  (H : Helpers) (loc : Loc) (expression : Node) (value error : Pattern)
  (pending then_ catch_ : Node) (rest : FastPath) (options : ParserOptions)
  (cb : PrintFn) (g : Globals) :
  let node := AwaitBlock loc expression value error pending then_ catch_ in
  let path := VNode node :: rest in
  let hasPending := existsb (fun n => negb (isEmptyTextNode n)) (getChildren pending) in
  let hasThen := existsb (fun n => negb (isEmptyTextNode n)) (getChildren then_) in
  let hasCatch := existsb (fun n => negb (isEmptyTextNode n)) (getChildren catch_) in
  let pieces := awaitPieces hasPending hasThen hasCatch in
  suppressed H g node = false ->
  print H path options cb g
  = ('(promise, path') <- printSvelteBlockJS path cb FExpression ;;
     docs <- mapM (printAwaitPiece H value error pending then_ catch_ promise path' cb)
               pieces ;;
     ret (groupConcat (docs ++ [DStr "{/await}"]))) g
  /\ (In (BodyOf PendingBlock) pieces <-> hasPending = true)
  /\ (In (BodyOf ThenBlock) pieces <-> hasThen = true)
  /\ (In (BodyOf CatchBlock) pieces <-> hasCatch = true)
  /\ (In (Delimiter "{:then" ThenBlock) pieces -> hasThen = true)
  /\ (In (Delimiter "{:catch" CatchBlock) pieces -> hasCatch = true).
Proof.
  intros node path hasPending hasThen hasCatch pieces S. split.
  - unfold path. rewrite (print_normal H _ _ _ _ _ S). subst node. cbn [printNode].
    unfold printAwaitBlock, nonEmptyChildren.
    fold hasPending hasThen hasCatch. subst pieces. unfold awaitPieces, awaitShape.
    destruct hasPending, hasThen, hasCatch;
      cbn [negb andb orb app mapM printAwaitPiece].
    all: run.
  - subst pieces. unfold awaitPieces, awaitShape.
    destruct hasPending, hasThen, hasCatch; cbn [negb andb orb app In];
      repeat split; intros; try reflexivity; try discriminate;
      repeat match goal with
             | HH : _ \/ _ |- _ => destruct HH
             | HH : False |- _ => destruct HH
             | HH : _ = _ |- _ => discriminate HH
             end; auto 10.
Qed.

(** C10.  The dispatcher on an [Options] node, while no ignore directive is
    in force: when the sort order is
    not ["none"] it throws at once, before anything is printed and
    without touching the module-level variables; when the sort order is
    ["none"] it gives the self-closing tag around the printed
    attributes, and throws only if printing an attribute does. *)
Theorem options_node_in_dispatcher
  (H : Helpers) (loc : Loc) (name : string) (attributes : list Node)
  (rest : FastPath) (options : ParserOptions) (cb : PrintFn) (g : Globals) :
  let node := Meta Options loc name attributes in
  let path := VNode node :: rest in
  suppressed H g node = false ->
  if String.eqb (svelteSortOrder options) "none"
  then
    print H path options cb g
    = mapReturned
        (fun printed =>
           groupConcat
             [DStr "<"; DStr name;
              indent
                (groupConcat
                   (printed
                    ++ [if isBracketSameLine H options
                        then DStr EmptyString else dedent line]));
              if isBracketSameLine H options then DStr " " else DStr EmptyString;
              DStr "/>"])
        (pathMap (printWithPrependedAttributeLine H node options cb) path
           attributes g)
  else
    print H path options cb g
    = (Thrown "Options tags should have been handled by prepareChildren", g).
Proof.
  intros node path S. unfold path. rewrite (print_normal H _ _ _ _ _ S).
  subst node. cbn [printNode]. unfold printMeta.
  destruct (String.eqb (svelteSortOrder options) "none"); cbn [negb];
    [|reflexivity].
  cbn [nodeAttributes nodeName app]. unfold mapReturned. run.
Qed.






Section ChildrenLoop.

Context (H : Helpers) (path : FastPath) (node : Node) (cb : PrintFn)
    (options : ParserOptions).

Hypothesis cb_returns : alwaysReturns cb.

Lemma length_setNth (idx : nat) (n : Node) (l : list Node) :
  length (setNth idx n l) = length l.
Proof.
  revert idx. induction l as [|x l IH]; intros [|idx]; cbn [setNth length];
    try reflexivity. now rewrite IH.
Qed.

Lemma setNth_other (idx i : nat) (n : Node) (l : list Node) :
  i <> idx -> nth_error (setNth idx n l) i = nth_error l i.
Proof.
  revert idx i. induction l as [|x l IH]; intros [|idx] [|i] NE;
    cbn [setNth nth_error]; try reflexivity; try congruence.
  apply IH. congruence.
Qed.

Lemma printChild_returns (nodes : list Node) (idx : nat) (g : Globals) :
  idx < length nodes ->
  exists d g', printChild path node cb nodes idx g = (Returned d, g').
Proof.
  intros Lt. unfold printChild.
  destruct (nth_error nodes idx) eqn:E.
  - apply cb_returns.
  - apply nth_error_None in E. lia.
Qed.

(** Printing a text child changes no other child. *)
Lemma handleTextChild_returns (idx : nat) (childNode : Node) (st : ChildrenState)
  (g : Globals) :
  idx < length (childNodes st) ->
  exists st' g',
    handleTextChild H path node cb options idx childNode st g = (Returned st', g')
    /\ length (childNodes st') = length (childNodes st)
    /\ forall i, i <> idx ->
         nth_error (childNodes st') i = nth_error (childNodes st) i.
Proof.
  intros Lt. unfold handleTextChild.
  assert (Final : forall nodes' docs flag,
    length nodes' = length (childNodes st) ->
    (forall i, i <> idx -> nth_error nodes' i = nth_error (childNodes st) i) ->
    exists st' g',
      (d <- printChild path node cb nodes' idx ;;
       ret (mkChildrenState nodes' (docs ++ [d]) flag)) g = (Returned st', g')
      /\ length (childNodes st') = length (childNodes st)
      /\ forall i, i <> idx ->
           nth_error (childNodes st') i = nth_error (childNodes st) i).
  { intros nodes' docs flag Len Same.
    destruct (printChild_returns nodes' idx g ltac:(lia)) as (d & g' & E).
    unfold bind. rewrite E. now eexists _, _. }
  repeat match goal with
         | |- context [if ?b then _ else _] => destruct b
         end;
    apply Final;
    rewrite ?length_setNth; try reflexivity;
    intros i NE; rewrite ?setNth_other by exact NE; reflexivity.
Qed.

Lemma childStep_returns (idx : nat) (st : ChildrenState) (g : Globals) :
  idx < length (childNodes st) ->
  exists st' g',
    childStep H path node cb options idx st g = (Returned st', g')
    /\ keepsOthers (childNodes st) (childNodes st').
Proof.
  intros Lt. unfold childStep.
  destruct (nth_error (childNodes st) idx) as [childNode|] eqn:E;
    [|apply nth_error_None in E; lia].
  destruct (isText childNode) eqn:T.
  - destruct (handleTextChild_returns idx childNode st g Lt)
      as (st' & g' & E1 & Len & Same).
    exists st', g'. split; [exact E1|]. split; [exact Len|].
    intros i n Hi Hn. destruct (Nat.eq_dec i idx) as [-> | NE].
    + congruence.
    + now rewrite Same.
  - destruct (printChild_returns (childNodes st) idx g Lt) as (d & g' & E1).
    assert (Same : keepsOthers (childNodes st) (childNodes st))
      by (split; [reflexivity | auto]).
    destruct (isBlockElement H childNode options);
      [|destruct (isInlineElement H _ options childNode)].
    + unfold handleBlockChild, bind. rewrite E1. now eexists _, _.
    + unfold handleInlineChild, bind. rewrite E1. now eexists _, _.
    + unfold bind. rewrite E1. now eexists _, _.
Qed.

Lemma childLoop_returns (indices : list nat) (st : ChildrenState) (g : Globals) :
  (forall idx, In idx indices -> idx < length (childNodes st)) ->
  exists st' g',
    childLoop H path node cb options indices st g = (Returned st', g')
    /\ keepsOthers (childNodes st) (childNodes st').
Proof.
  revert st g. induction indices as [|idx indices IH]; intros st g Bound.
  - exists st, g. split; [reflexivity|]. split; [reflexivity | auto].
  - destruct (childStep_returns idx st g (Bound idx (or_introl eq_refl)))
      as (st1 & g1 & E1 & Len1 & Keep1).
    destruct (IH st1 g1) as (st2 & g2 & E2 & Len2 & Keep2).
    { intros i Hi. rewrite Len1. apply Bound. now right. }
    exists st2, g2. cbn [childLoop]. unfold bind at 1. rewrite E1.
    split; [exact E2|]. split; [congruence|].
    intros i n Hi Hn. apply Keep2; [|exact Hn]. now apply Keep1.
Qed.

End ChildrenLoop.

Lemma forcesBreak_breakParent (docs : list Doc) :
  forcesBreak (concat (docs ++ [breakParent])) = true.
Proof.
  unfold concat. cbn [forcesBreak].
  induction docs as [|d docs IH]; [reflexivity|].
  cbn [app]. rewrite IH. apply orb_true_r.
Qed.

(** C9.  Outside pre-tag content, when the prepared child list holds more
    than one node and one of them, not a text node, is block-like,
    [printChildren] ends the
    document of the children with [breakParent], whatever the children
    print as: no group around it can be laid out flat. *)
Theorem block_child_forces_break
  (H : Helpers) (node : Node) (children : list Node) (rest : FastPath)
  (options : ParserOptions) (cb : PrintFn) (g : Globals)
  (prepared : list Node) (g1 : Globals) :
  let path := VNode node :: rest in
  nodeChildren node = Some children ->
  isPreTagContent H path = false ->
  alwaysReturns cb ->
  prepareChildren H children path cb options g = (Returned prepared, g1) ->
  1 < length prepared ->
  (exists child,
     In child prepared /\ isText child = false
     /\ isBlockElement H child options = true) ->
  exists docs path' g',
    printChildren H path cb options g
    = (Returned (concat (docs ++ [breakParent]), path'), g')
    /\ forcesBreak (concat (docs ++ [breakParent])) = true.
Proof.
  intros path Children Pre Total Prepared Many (child & In_ & NotText & Block).
  unfold printChildren. cbn [getValue hd path]. rewrite Children. fold path. rewrite Pre.
  unfold bind at 1. rewrite Prepared.
  replace (length prepared =? 0) with false by (symmetry; apply Nat.eqb_neq; lia).
  destruct (childLoop_returns H path node cb options Total
              (seq 0 (length prepared)) (mkChildrenState prepared [] false) g1)
    as (st & g2 & Loop & Len & Keep).
  { intros idx Hin. apply in_seq in Hin. cbn [childNodes]. lia. }
  cbn [childNodes] in Len, Keep.
  unfold bind. rewrite Loop.
  assert (Force : (1 <? length (childNodes st))
                  && existsb (fun c => isBlockElement H c options) (childNodes st)
                  = true).
  { apply andb_true_iff. split; [apply Nat.ltb_lt; lia|].
    apply In_nth_error in In_ as (i & Hi).
    apply existsb_exists. exists child. split; [|exact Block].
    eapply nth_error_In. apply (Keep i child Hi NotText). }
  rewrite Force.
  eexists _, _, _. split; [reflexivity | apply forcesBreak_breakParent].
Qed.



Lemma verbatim_paragraph_witness :
  let options := Sample.options Sample.paragraphText Sample.defaultOrder false true false in
  let g := mkGlobals false true None in
  (ignoreNext g = true
   \/ (ignoreRange g = true
       /\ isIgnoreEndDirective Sample.helpers Sample.paragraph = false))
  /\ print Sample.helpers [VNode Sample.paragraph] options
       (Sample.printTree 3 options) g
     = (Returned (concat [DStr "<p>hello  world</p>"]), g)
  /\ docText (concat [DStr "<p>hello  world</p>"]) = "<p>hello  world</p>".
Proof.
  cbv zeta. split.
  - right. split; reflexivity.
  - exact (suppressed_node_is_printed_verbatim Sample.helpers Sample.paragraph []
             (Sample.options Sample.paragraphText Sample.defaultOrder false true false)
             (Sample.printTree 3
                (Sample.options Sample.paragraphText Sample.defaultOrder false true false))
             (mkGlobals false true None)
             (or_intror (conj eq_refl eq_refl))).
Defined.

Lemma blank_text_witness :
  let options := Sample.options EmptyString Sample.defaultOrder false true false in
  let blank := String JsString.LF (String JsString.CR (String JsString.LF " ")) in
  let path := [VNode (Text (mkLoc 0 4) blank blank)] in
  isPreTagContent Sample.helpers path = false
  /\ print Sample.helpers path options (Sample.printTree 3 options) initialGlobals
     = (Returned (concat [hardline; hardline]), initialGlobals).
Proof.
  cbv zeta. split; [reflexivity|].
  exact (proj1
           (text_whitespace_is_bounded Sample.helpers (mkLoc 0 4)
              (String JsString.LF (String JsString.CR (String JsString.LF " ")))
              (String JsString.LF (String JsString.CR (String JsString.LF " ")))
              [] (Sample.options EmptyString Sample.defaultOrder false true false)
              (Sample.printTree 3
                 (Sample.options EmptyString Sample.defaultOrder false true false))
              initialGlobals eq_refl)
           eq_refl).
Defined.

Lemma foo_attribute_witness :
  let options := Sample.options EmptyString Sample.defaultOrder false true false in
  let node :=
    Attribute (mkLoc 0 9) "foo"
      (ValueNodes [Tag MustacheTag (mkLoc 4 9) (Identifier (mkLoc 5 8) "foo" None)]) in
  suppressed Sample.helpers initialGlobals node = false
  /\ exists d,
       print Sample.helpers [VNode node] options (Sample.printTree 3 options)
         initialGlobals = (Returned d, initialGlobals)
       /\ d = concat [DStr "{"; DStr "foo"; DStr "}"]
       /\ docText d = "{foo}".
Proof.
  cbv zeta. split; [reflexivity|].
  exact (attribute_shorthand_forms Sample.helpers (mkLoc 0 9) (mkLoc 4 9) (mkLoc 5 8)
           "foo" None []
           (Sample.options EmptyString Sample.defaultOrder false true false)
           (Sample.printTree 3
              (Sample.options EmptyString Sample.defaultOrder false true false))
           initialGlobals eq_refl).
Defined.

Lemma labels_returns : alwaysReturns Sample.labels.
Proof. intros path g. eexists _, _. reflexivity. Qed.

Lemma short_then_witness :
  let options := Sample.options EmptyString Sample.defaultOrder false true false in
  let word := Text (mkLoc 0 1) "x" "x" in
  let blank := Text (mkLoc 0 1) " " " " in
  let pending := Branch PendingBlock (mkLoc 0 0) [blank] in
  let then_ := Branch ThenBlock (mkLoc 0 0) [word] in
  let catch_ := Branch CatchBlock (mkLoc 0 0) [] in
  let node :=
    AwaitBlock (mkLoc 0 0) (Sample.ident "p") (PIdentifier "v") PNull
      pending then_ catch_ in
  suppressed Sample.helpers initialGlobals node = false
  /\ awaitPieces false true false = [ShortOpening " then" ThenBlock; BodyOf ThenBlock]
  /\ print Sample.helpers [VNode node] options Sample.labels initialGlobals
     = (Returned
          (groupConcat
             [groupConcat [DStr "{#await "; DStr EmptyString; DStr " then";
                           DStr " v"; DStr "}"];
              DStr EmptyString; DStr "{/await}"]), initialGlobals).
Proof.
  cbv zeta. split; [reflexivity|]. split; [reflexivity|].
  exact (proj1
           (await_block_shape Sample.helpers (mkLoc 0 0) (Sample.ident "p")
              (PIdentifier "v") PNull
              (Branch PendingBlock (mkLoc 0 0) [Text (mkLoc 0 1) " " " "])
              (Branch ThenBlock (mkLoc 0 0) [Text (mkLoc 0 1) "x" "x"])
              (Branch CatchBlock (mkLoc 0 0) []) []
              (Sample.options EmptyString Sample.defaultOrder false true false)
              Sample.labels initialGlobals eq_refl)).
Defined.



Lemma stray_options_witness :
  let options := Sample.options EmptyString Sample.defaultOrder false true false in
  let node := Meta Options (mkLoc 0 0) "svelte:options" [] in
  suppressed Sample.helpers initialGlobals node = false
  /\ print Sample.helpers [VNode node] options Sample.labels initialGlobals
     = (Thrown "Options tags should have been handled by prepareChildren",
        initialGlobals).
Proof.
  cbv zeta. split; [reflexivity|].
  exact (options_node_in_dispatcher Sample.helpers (mkLoc 0 0) "svelte:options" [] []
           (Sample.options EmptyString Sample.defaultOrder false true false)
           Sample.labels initialGlobals eq_refl).
Defined.

Lemma div_and_word_witness :
  let options := Sample.options EmptyString Sample.defaultOrder false true false in
  let block := ElementLike Element (mkLoc 0 11) "div" [] [] None None in
  let word := Text (mkLoc 11 12) "x" "x" in
  let node := Fragment (mkLoc 0 12) [block; word] in
  let path := [VNode node] in
  nodeChildren node = Some [block; word]
  /\ isPreTagContent Sample.helpers path = false
  /\ prepareChildren Sample.helpers [block; word] path Sample.labels options
       initialGlobals = (Returned [block; word], initialGlobals)
  /\ 1 < length [block; word]
  /\ (In block [block; word] /\ isText block = false
      /\ isBlockElement Sample.helpers block options = true)
  /\ exists docs path' g',
       printChildren Sample.helpers path Sample.labels options initialGlobals
       = (Returned (concat (docs ++ [breakParent]), path'), g')
       /\ forcesBreak (concat (docs ++ [breakParent])) = true.
Proof.
  cbv zeta.
  split; [reflexivity|]. split; [reflexivity|]. split; [reflexivity|].
  split; [apply Nat.lt_succ_diag_r|].
  split; [split; [left; reflexivity | split; reflexivity]|].
  exact (block_child_forces_break Sample.helpers
           (Fragment (mkLoc 0 12)
              [ElementLike Element (mkLoc 0 11) "div" [] [] None None;
               Text (mkLoc 11 12) "x" "x"])
           [ElementLike Element (mkLoc 0 11) "div" [] [] None None;
            Text (mkLoc 11 12) "x" "x"]
           [] (Sample.options EmptyString Sample.defaultOrder false true false)
           Sample.labels initialGlobals
           [ElementLike Element (mkLoc 0 11) "div" [] [] None None;
            Text (mkLoc 11 12) "x" "x"]
           initialGlobals eq_refl eq_refl labels_returns eq_refl
           (Nat.lt_succ_diag_r 1)
           (ex_intro _ (ElementLike Element (mkLoc 0 11) "div" [] [] None None)
              (conj (or_introl eq_refl) (conj eq_refl eq_refl)))).
Defined.



(** C8.  For the sort order styles, scripts, markup the sections come
    out in that order; they are joined by a hard line when no pragma is
    inserted, but follow one another with nothing in between when the
    pragma is. *)
Lemma pragma_sections_not_separated :
  let root := Sample.sectionsRoot in
  let run pragma :=
    printTopLevelParts Sample.helpers root
      (Sample.options EmptyString "styles-scripts-markup" false true pragma)
      [VRoot root] Sample.labels initialGlobals in
  parseSortOrder Sample.helpers "styles-scripts-markup"
  = [PartStyles; PartScripts; PartMarkup]
  /\ run false
     = (Returned
          (groupConcat
             [concat [DStr "Style"; hardline; DStr "Script"; hardline; DStr "Markup"]]),
        initialGlobals)
  /\ run true
     = (Returned
          (concat
             [DStr "<!-- @format -->"; hardline;
              groupConcat [DStr "Style"; DStr "Script"; DStr "Markup"]]),
        initialGlobals).
Proof. cbv zeta. repeat split; vm_compute; reflexivity. Qed.

(** ** More about the root, and the printer on examples *)

(** With the sort order ["none"] the root-level [print] is the child
    printer on the markup, behind the pragma when one is inserted: the
    module-level variables come back as the child printer left them. *)
Lemma unsorted_print_keeps_globals
  (H : Helpers) (n : ASTNode) (rest : FastPath) (options : ParserOptions)
  (cb : PrintFn) (g : Globals) :
  svelteSortOrder options = "none" ->
  assignCommentsToNodes H n <> None ->
  exists markupPath,
    print H (VRoot n :: rest) options cb g
    = mapReturned
        (fun result =>
           if insertPragma options && negb (hasPragma (originalText options))
           then concat [pragmaComment; hardline; result] else result)
        (cb markupPath g).
Proof.
  intros Unsorted Found. unfold print. cbn [getValue hd].
  destruct (assignCommentsToNodes H n) as [ast|]; [|congruence].
  unfold printTopLevelParts. rewrite Unsorted. cbn [String.eqb Ascii.eqb Bool.eqb].
  unfold pathCall, bind, mapReturned.
  match goal with |- context [cb ?p g] => exists p end.
  destruct (cb _ g) as [[d| m |] g']; [|reflexivity..].
  destruct (insertPragma options && negb (hasPragma (originalText options)));
    reflexivity.
Qed.

(** With a sort order, what the root-level [printTopLevelParts] returns
    is built from the documents of the sections in one of two ways: a
    hard line between any two of them when no pragma is inserted,
    nothing between them when one is. *)
Lemma sorted_print_shape
  (H : Helpers) (n : ASTNode) (path : FastPath) (options : ParserOptions)
  (cb : PrintFn) (g : Globals) (d : Doc) (g' : Globals) :
  svelteSortOrder options <> "none" ->
  printTopLevelParts H n options path cb g = (Returned d, g') ->
  exists parts,
    let docs :=
      flatten (map (partsOf parts) (parseSortOrder H (svelteSortOrder options))) in
    let docs :=
      if String.eqb (parentParser options) "markdown"
      then match docs with
           | [] => docs
           | _ => removelast docs ++ [trimRightLines H (last docs (DStr EmptyString))]
           end
      else docs in
    d = if insertPragma options && negb (hasPragma (originalText options))
        then concat [pragmaComment; hardline; groupConcat docs]
        else groupConcat [join hardline docs].
Proof.
  intros Sorted. apply String.eqb_neq in Sorted.
  unfold printTopLevelParts. rewrite Sorted.
  destruct n as [markup [style|] [inst|] [modl|]];
    cbn [module_ instance css html];
    cbv [bind ret getGlobals setIgnoreNext setIgnoreRange setSvelteOptionsDoc];
    cbv beta iota zeta; cbn [module_ instance css html];
    repeat (run_head; cbv beta iota zeta; cbn [module_ instance css html]);
    try discriminate;
    destruct (insertPragma options && negb (hasPragma (originalText options)));
    intros E; injection E as <- _; eexists (mkParts _ _ _ _); reflexivity.
Qed.

Example splitText_words :
  splitText "  foo   bar " = [line; DStr "foo"; line; DStr "bar"; line].
Proof. reflexivity. Qed.

Example splitText_blank_lines :
  splitText
    (String JsString.LF (String JsString.LF (String JsString.LF
       ("a b" ++ String JsString.LF (String JsString.CR (String JsString.LF EmptyString))))))
  = [hardline; hardline; DStr "a"; line; DStr "b"; hardline; hardline].
Proof. reflexivity. Qed.

Example hasPragma_format : hasPragma "  <!-- @format -->" = true.
Proof. reflexivity. Qed.

Example hasPragma_longer_word : hasPragma "<!-- @formatted -->" = false.
Proof. reflexivity. Qed.

Example expandNode_destructuring :
  expandNode Sample.helpers
    (PObjectPattern
       [PProperty (PIdentifier "a") (PIdentifier "a");
        PProperty (PIdentifier "b") (PIdentifier "c");
        PRestElement (PIdentifier "rest")]) false
  = Returned " { a, b: c, ...rest }".
Proof. reflexivity. Qed.

Example expandNode_array :
  expandNode Sample.helpers
    (PArray true [PIdentifier "x"; PAssignment (PIdentifier "y") (PLiteral "1")]) false
  = Returned " [x, y = 1]".
Proof. reflexivity. Qed.

Example collapseBlanks_lines :
  collapseBlanks None ("a   b  " ++ String JsString.LF "  c d   ")
  = ("a b" ++ String JsString.LF "  c d   ")%string.
Proof. reflexivity. Qed.

Example paragraph_fill :
  exists d,
    Sample.printTree 6
      (Sample.options Sample.paragraphText Sample.defaultOrder false true false)
      [VRoot Sample.paragraphRoot] initialGlobals
    = (Returned d, initialGlobals)
    /\ docText d = ("<p>hello world</p>" ++ String JsString.LF EmptyString)%string.
Proof. eexists. split; vm_compute; reflexivity. Qed.

(** * Further properties of the printer *)

(** ** Destructuring patterns *)

Section PatternFacts.

Context (H : Helpers).

Lemma expandNode_elements (isPattern : bool) (elements : list Pattern) (parent : bool) :
  expandNode H (PArray isPattern elements) parent
  = bindOutcome (expandEach H false elements) (fun ss =>
    Returned (" [" ++ dropFirst (joinStrings "," ss) ++ "]")%string).
Proof.
  cbn [expandNode]. f_equal.
  induction elements as [|p rest IH]; [reflexivity|].
  cbn [expandEach]. rewrite <- IH. reflexivity.
Qed.

Lemma expandNode_properties (inExpression : bool) (properties : list Pattern) (parent : bool) :
  expandNode H
    (if inExpression then PObjectExpression properties else PObjectPattern properties)
    parent
  = bindOutcome (expandEach H inExpression properties) (fun ss =>
    Returned (" {" ++ joinStrings "," ss ++ " }")%string).
Proof.
  destruct inExpression; cbn [expandNode]; f_equal;
    (induction properties as [|p rest IH]; [reflexivity|]);
    cbn [expandEach]; rewrite <- IH; reflexivity.
Qed.

Lemma expandEach_identifiers (inObject : bool) (names : list string) :
  expandEach H inObject (map PIdentifier names)
  = Returned (map (fun n => (" " ++ n)%string) names).
Proof.
  induction names as [|n names IH]; [reflexivity|].
  cbn [map expandEach]. rewrite IH. reflexivity.
Qed.

Lemma joinStrings_cons (sep s : string) (l : list string) :
  joinStrings sep (s :: l)
  = (s ++ String.concat EmptyString (map (fun x => sep ++ x) l))%string.
Proof.
  revert s. induction l as [|y l IH]; intros s.
  - cbn. now rewrite JsStringFacts.append_empty_r.
  - change (joinStrings sep (s :: y :: l)) with (s ++ sep ++ joinStrings sep (y :: l))%string.
    rewrite IH. cbn [map String.concat].
    destruct l.
    + cbn. rewrite !JsStringFacts.append_empty_r. reflexivity.
    + cbn [map String.concat]. cbn [append].
      rewrite !JsStringFacts.append_assoc. reflexivity.
Qed.

Lemma joinStrings_spaced (n : string) (names : list string) :
  joinStrings "," (map (fun x => (" " ++ x)%string) (n :: names))
  = (" " ++ joinStrings ", " (n :: names))%string.
Proof.
  revert n. induction names as [|m names IH]; intros n; [reflexivity|].
  change (joinStrings "," (map (fun x => (" " ++ x)%string) (n :: m :: names)))
    with ((" " ++ n) ++ "," ++ joinStrings "," (map (fun x => (" " ++ x)%string) (m :: names)))%string.
  rewrite IH.
  change (joinStrings ", " (n :: m :: names))
    with (n ++ ", " ++ joinStrings ", " (m :: names))%string.
  cbn [append]. reflexivity.
Qed.

Lemma joinStrings_app (sep : string) (a : list string) (y : string) (b : list string) :
  a <> [] ->
  joinStrings sep (a ++ y :: b)
  = (joinStrings sep a ++ sep ++ joinStrings sep (y :: b))%string.
Proof.
  induction a as [|x a IH]; [congruence|]. intros _.
  destruct a as [|x' a].
  - reflexivity.
  - change (joinStrings sep ((x :: x' :: a) ++ y :: b))
      with (x ++ sep ++ joinStrings sep ((x' :: a) ++ y :: b))%string.
    rewrite IH by discriminate.
    change (joinStrings sep (x :: x' :: a))
      with (x ++ sep ++ joinStrings sep (x' :: a))%string.
    now rewrite !JsStringFacts.append_assoc.
Qed.

Lemma expandEach_app (inObject : bool) (a b : list Pattern) (sa sb : list string) :
  expandEach H inObject a = Returned sa ->
  expandEach H inObject b = Returned sb ->
  expandEach H inObject (a ++ b) = Returned (sa ++ sb).
Proof.
  revert sa. induction a as [|p a IH]; intros sa Ea Eb.
  - injection Ea as <-. exact Eb.
  - cbn [app expandEach] in *.
    destruct (expandNode H p inObject) as [s| |]; try discriminate.
    cbn [bindOutcome] in *.
    destruct (expandEach H inObject a) as [ss| |]; try discriminate.
    cbn [bindOutcome] in *. injection Ea as <-.
    rewrite (IH ss eq_refl Eb). reflexivity.
Qed.

End PatternFacts.

(** X3.  An array of identifiers is spelled with a comma and a space between
    its names and no space inside the brackets: the space in front of the
    first name is cut off after the names are joined. *)
Theorem array_of_identifiers_is_spelled_out
  (H : Helpers) (isPattern : bool) (names : list string) (parent : bool) :
  expandNode H (PArray isPattern (map PIdentifier names)) parent
  = Returned (" [" ++ joinStrings ", " names ++ "]")%string.
Proof.
  rewrite expandNode_elements, expandEach_identifiers. cbn [bindOutcome].
  destruct names as [|n names]; [reflexivity|].
  rewrite joinStrings_spaced. reflexivity.
Qed.

(** X4.  A hole in an array of identifiers.  In front of the first name the
    hole leaves no comma, only the space of that name; after a name it
    keeps its comma. *)
Theorem array_hole_in_front_loses_its_comma
  (H : Helpers) (isPattern : bool) (parent : bool) (n : string)
  (names after : list string) :
  expandNode H (PArray isPattern (PNull :: map PIdentifier (n :: names))) parent
  = Returned (" [ " ++ joinStrings ", " (n :: names) ++ "]")%string
  /\ expandNode H
       (PArray isPattern (map PIdentifier (n :: names) ++ PNull :: map PIdentifier after))
       parent
     = Returned
         (" [" ++ joinStrings ", " (n :: names) ++ ","
          ++ String.concat EmptyString (map (fun x => ", " ++ x) after) ++ "]")%string.
Proof.
  split.
  - rewrite expandNode_elements.
    change (expandEach H false (PNull :: map PIdentifier (n :: names)))
      with (bindOutcome (expandEach H false (map PIdentifier (n :: names)))
              (fun ss => Returned (EmptyString :: ss))).
    rewrite expandEach_identifiers. cbn [bindOutcome].
    change (joinStrings "," (EmptyString :: map (fun x => (" " ++ x)%string) (n :: names)))
      with (EmptyString ++ ","
            ++ joinStrings "," (map (fun x => (" " ++ x)%string) (n :: names)))%string.
    rewrite joinStrings_spaced. reflexivity.
  - rewrite expandNode_elements.
    rewrite (expandEach_app H false _ (PNull :: map PIdentifier after)
               _ (EmptyString :: map (fun x => (" " ++ x)%string) after)
               (expandEach_identifiers H false (n :: names))).
    2:{ change (expandEach H false (PNull :: map PIdentifier after))
          with (bindOutcome (expandEach H false (map PIdentifier after))
                  (fun ss => Returned (EmptyString :: ss))).
        now rewrite expandEach_identifiers. }
    cbn [bindOutcome].
    rewrite joinStrings_app by discriminate.
    rewrite joinStrings_spaced, joinStrings_cons.
    cbn [append dropFirst]. do 3 f_equal.
    rewrite !JsStringFacts.append_assoc. cbn [append]. do 2 f_equal.
    f_equal. rewrite joinStrings_cons, map_map. reflexivity.
Qed.

Lemma expandEach_properties (H : Helpers) (inObject : bool)
  (pairs : list (string * string)) :
  expandEach H inObject (map identifierProperty pairs)
  = Returned
      (map (fun kv =>
              if String.eqb (fst kv) (snd kv) && negb inObject
              then (" " ++ snd kv)%string
              else (" " ++ fst kv ++ ": " ++ snd kv)%string)
         pairs).
Proof.
  induction pairs as [|[k v] pairs IH]; [reflexivity|].
  cbn [map expandEach]. rewrite IH.
  unfold identifierProperty. cbn [fst snd expandNode patternName optStringEqb bindOutcome].
  destruct (String.eqb k v), inObject; cbn [negb orb andb bindOutcome append];
    reflexivity.
Qed.

(** X5.  Properties whose key and value are identifiers.  In an object pattern
    a property whose two names agree is spelled once, any other as key,
    colon, value; in an object expression every property is spelled as
    key, colon, value. *)
Theorem object_properties_are_spelled_by_parent
  (H : Helpers) (pairs : list (string * string)) (parent : bool) :
  expandNode H (PObjectPattern (map identifierProperty pairs)) parent
  = Returned
      (" {"
       ++ joinStrings ","
            (map (fun kv =>
                    if String.eqb (fst kv) (snd kv)
                    then (" " ++ snd kv)%string
                    else (" " ++ fst kv ++ ": " ++ snd kv)%string)
               pairs)
       ++ " }")%string
  /\ expandNode H (PObjectExpression (map identifierProperty pairs)) parent
     = Returned
         (" {"
          ++ joinStrings ","
               (map (fun kv => (" " ++ fst kv ++ ": " ++ snd kv)%string) pairs)
          ++ " }")%string.
Proof.
  split.
  - rewrite (expandNode_properties H false), expandEach_properties. cbn [bindOutcome].
    erewrite map_ext; [reflexivity|]. intros kv. cbn [negb]. now rewrite andb_true_r.
  - rewrite (expandNode_properties H true), expandEach_properties. cbn [bindOutcome].
    erewrite map_ext; [reflexivity|]. intros kv. cbn [negb]. now rewrite andb_false_r.
Qed.

Section PlainPatterns.

Context (H : Helpers).

Lemma expandNode_property (k : string) (value : Pattern) (parent : bool) :
  value <> PNull ->
  exists f : string -> string,
    (forall v, exists s, f (String " " v) = String " " s)
    /\ expandNode H (PProperty (PIdentifier k) value) parent
       = bindOutcome (expandNode H value false) (fun v => Returned (f v)).
Proof.
  intros NotNull.
  assert (Id : forall o : Outcome string, o = bindOutcome o (fun v => Returned v))
    by (intros [| |]; reflexivity).
  assert (Keyed : exists f : string -> string,
            (forall v, exists s, f (String " " v) = String " " s)
            /\ bindOutcome (expandNode H (PIdentifier k) false) (fun key =>
               bindOutcome (expandNode H value false) (fun v =>
               Returned (key ++ ":" ++ v)%string))
               = bindOutcome (expandNode H value false) (fun v => Returned (f v))).
  { exists (fun v => (" " ++ k ++ ":" ++ v)%string).
    split; [intros v; eexists; reflexivity | reflexivity]. }
  assert (Bare : exists f : string -> string,
            (forall v, exists s, f (String " " v) = String " " s)
            /\ expandNode H value false
               = bindOutcome (expandNode H value false) (fun v => Returned (f v))).
  { exists (fun v => v). split; [intros v; now exists v | apply Id]. }
  destruct value as [|s|[|] elements|lhs rhs|name|raw|properties|properties
                     |key value|argument|type_];
    try congruence;
    try (destruct parent; [exact Keyed | exact Bare]).
  - exists (fun v => (" " ++ k ++ ":" ++ v)%string).
    split; [intros v; eexists; reflexivity | reflexivity].
  - change (expandNode H (PProperty (PIdentifier k) (PIdentifier name)) parent)
      with (if negb (String.eqb k name) || parent
            then bindOutcome (expandNode H (PIdentifier k) false) (fun key =>
                 bindOutcome (expandNode H (PIdentifier name) false) (fun v =>
                 Returned (key ++ ":" ++ v)%string))
            else expandNode H (PIdentifier name) false).
    destruct (negb (String.eqb k name) || parent); [exact Keyed | exact Bare].
  - exists (fun v => (" " ++ k ++ ":" ++ v)%string).
    split; [intros v; eexists; reflexivity | reflexivity].
Qed.

Lemma expandNode_plain :
  forall (p : Pattern) (parent : bool),
    plainPattern p = true -> exists s, expandNode H p parent = Returned (String " " s).
Proof.
  fix IH 1. intros p parent Plain.
  destruct p as [|s|isPattern elements|lhs rhs|name|raw|properties|properties
                 |key value|argument|type_].
  - discriminate.
  - eexists. reflexivity.
  - rewrite expandNode_elements.
    assert (Each : exists ss, expandEach H false elements = Returned ss).
    { cbn [plainPattern] in Plain.
      induction elements as [|e elements IHe]; [now exists []|].
      cbn [forallb] in Plain. apply andb_true_iff in Plain as [He Rest].
      destruct (IHe Rest) as (ss & Ess). cbn [expandEach]. rewrite Ess.
      assert (Case : e = PNull \/ plainPattern e = true)
        by (destruct e; auto).
      destruct Case as [-> | Pe]; [eexists; reflexivity|].
      destruct (IH e false Pe) as (s & ->). eexists. reflexivity. }
    destruct Each as (ss & ->). eexists. reflexivity.
  - cbn [plainPattern] in Plain. apply andb_true_iff in Plain as [L R].
    destruct (IH lhs false L) as (l & El). destruct (IH rhs false R) as (r & Er).
    cbn [expandNode]. rewrite El, Er. eexists. reflexivity.
  - eexists. reflexivity.
  - eexists. reflexivity.
  - rewrite (expandNode_properties H true).
    assert (Each : exists ss, expandEach H true properties = Returned ss).
    { cbn [plainPattern] in Plain.
      induction properties as [|e properties IHe]; [now exists []|].
      cbn [forallb] in Plain. apply andb_true_iff in Plain as [He Rest].
      destruct (IHe Rest) as (ss & Ess). cbn [expandEach]. rewrite Ess.
      destruct (IH _ true He) as (s & ->). eexists. reflexivity. }
    destruct Each as (ss & ->). eexists. reflexivity.
  - rewrite (expandNode_properties H false).
    assert (Each : exists ss, expandEach H false properties = Returned ss).
    { cbn [plainPattern] in Plain.
      induction properties as [|e properties IHe]; [now exists []|].
      cbn [forallb] in Plain. apply andb_true_iff in Plain as [He Rest].
      destruct (IHe Rest) as (ss & Ess). cbn [expandEach]. rewrite Ess.
      destruct (IH _ false He) as (s & ->). eexists. reflexivity. }
    destruct Each as (ss & ->). eexists. reflexivity.
  - cbn [plainPattern] in Plain. apply andb_true_iff in Plain as [K V].
    destruct key; try discriminate.
    destruct (IH value false V) as (v & Ev).
    destruct (expandNode_property name value parent) as (f & Spaced & ->).
    { intros ->. discriminate. }
    rewrite Ev. cbn [bindOutcome]. destruct (Spaced v) as (s & ->). now exists s.
  - destruct argument; try discriminate. eexists. reflexivity.
  - discriminate.
Qed.

End PlainPatterns.

(** ** The content of a [pre] element *)







(** ** The prepared children *)

Section PreparedChildren.

Context (H : Helpers) (path : FastPath) (cb : PrintFn) (options : ParserOptions).

Lemma mergeTexts_Forall (P : Node -> Prop) :
  (forall l r d l2 r2 d2,
     P (Text l r d) -> P (Text l2 r2 d2) -> P (Text l (r ++ r2) (d ++ d2))%string) ->
  forall n children, length children <= n ->
    Forall P children -> Forall P (mergeTexts children).
Proof.
  intros Merge. induction n as [|n IH]; intros children Len All.
  - destruct children; [constructor | cbn in Len; lia].
  - destruct children as [|c rest]; [constructor|].
    cbn [length] in Len. inversion All as [|? ? Pc Prest]; subst.
    assert (Plain : Forall P (c :: mergeTexts rest))
      by (constructor; [exact Pc | apply IH; [lia | exact Prest]]).
    destruct c; try exact Plain.
    destruct rest as [|c2 rest']; [exact Plain|].
    destruct c2; try exact Plain.
    cbn [mergeTexts]. inversion Prest as [|? ? Pc2 Prest']; subst.
    constructor; [eapply Merge; eassumption|]. apply IH; [cbn [length] in Len; lia | assumption].
Qed.

Lemma mergeTexts_field (field : Node -> string) :
  (forall l r d l2 r2 d2,
     field (Text l (r ++ r2) (d ++ d2))
     = (field (Text l r d) ++ field (Text l2 r2 d2))%string) ->
  forall n children, length children <= n ->
    appendAll (map field (mergeTexts children)) = appendAll (map field children).
Proof.
  intros Merge. induction n as [|n IH]; intros children Len.
  - destruct children; [reflexivity | cbn in Len; lia].
  - destruct children as [|c rest]; [reflexivity|].
    cbn [length] in Len.
    assert (Plain : appendAll (map field (c :: mergeTexts rest))
                    = appendAll (map field (c :: rest))).
    { cbn [map appendAll fold_right].
      fold (appendAll (map field (mergeTexts rest))).
      fold (appendAll (map field rest)).
      now rewrite (IH rest ltac:(lia)). }
    destruct c; try exact Plain.
    destruct rest as [|c2 rest']; [exact Plain|].
    destruct c2; try exact Plain.
    cbn [mergeTexts]. cbn [length] in Len.
    cbn [map appendAll fold_right].
    fold (appendAll (map field (mergeTexts rest'))).
    fold (appendAll (map field rest')).
    rewrite (IH rest' ltac:(lia)).
    match goal with
    | |- context [field (Text ?l (?r ++ ?r2) (?d ++ ?d2))] =>
        match goal with
        | |- context [field (Text ?l2 r2 d2)] => rewrite (Merge l r d l2 r2 d2)
        end
    end.
    now rewrite JsStringFacts.append_assoc.
Qed.

Lemma mergeTexts_others (n : nat) (children : list Node) :
  length children <= n ->
  filter (fun c => negb (isText c)) (mergeTexts children)
  = filter (fun c => negb (isText c)) children
  /\ length (mergeTexts children) <= length children.
Proof.
  revert children. induction n as [|n IH]; intros children Len.
  - destruct children; [repeat split; constructor | cbn in Len; lia].
  - destruct children as [|c rest]; [repeat split; constructor|].
    cbn [length] in Len.
    destruct (IH rest ltac:(lia)) as (N1 & L1).
    assert (Plain :
      filter (fun c => negb (isText c)) (c :: mergeTexts rest)
      = filter (fun c => negb (isText c)) (c :: rest)
      /\ length (c :: mergeTexts rest) <= length (c :: rest)).
    { cbn [filter length]. rewrite N1. split; [reflexivity | lia]. }
    destruct c; try exact Plain.
    destruct rest as [|c2 rest']; [exact Plain|].
    destruct c2; try exact Plain.
    cbn [mergeTexts]. cbn [length] in Len.
    destruct (IH rest' ltac:(lia)) as (N2 & L2).
    cbn [filter length isText negb].
    rewrite N2. split; [reflexivity | lia].
Qed.

(** What the first loop keeps: children of the list it was given, none
    of them dropped by the two tests, and, under a sort order, none of
    them an options tag. *)
Lemma withoutOptions_kept (n : nat) :
  forall children comment g kept g',
    length children <= n ->
    withoutOptions H options path cb comment children g = (Returned kept, g') ->
    Forall
      (fun c =>
         In c children /\ keptChild H path c = true
         /\ (svelteSortOrder options <> "none" -> isOptionsNode c = false))
      kept.
Proof.
  induction n as [|n IH]; intros children comment g kept g' Len Run.
  - destruct children; [|cbn in Len; lia]. injection Run as <- _. constructor.
  - destruct children as [|c rest]; [injection Run as <- _; constructor|].
    cbn [length] in Len. cbn [withoutOptions] in Run.
    assert (Weaken : forall sub l,
              (forall x, In x sub -> In x (c :: rest)) ->
              Forall
                (fun c0 =>
                   In c0 sub /\ keptChild H path c0 = true
                   /\ (svelteSortOrder options <> "none" -> isOptionsNode c0 = false)) l ->
              Forall
                (fun c0 =>
                   In c0 (c :: rest) /\ keptChild H path c0 = true
                   /\ (svelteSortOrder options <> "none" -> isOptionsNode c0 = false)) l).
    { intros sub l Sub All. eapply Forall_impl; [|exact All].
      intros x (I & K & O). auto. }
    destruct (isText c && String.eqb (getUnencodedText c) EmptyString) eqn:Blank.
    { eapply Weaken; [|eapply IH; [|exact Run]; lia]. intros x; now right. }
    destruct (isEmptyTextNode c && doesEmbedStartAfterNode H (Some c) path) eqn:Embed.
    { eapply Weaken; [|eapply IH; [|exact Run]; lia]. intros x; now right. }
    destruct (negb (String.eqb (svelteSortOrder options) "none")) eqn:Sorted;
      cbn [andb] in Run.
    + destruct (isCommentFollowedByOptions H c rest).
      { destruct rest as [|c2 rest']; [injection Run as <- _; constructor|].
        destruct (isEmptyTextNode c2).
        - eapply Weaken; [|eapply IH; [|exact Run]; cbn [length] in Len; lia].
          intros x Hx. right. now right.
        - eapply Weaken; [|eapply IH; [|exact Run]; lia]. intros x; now right. }
      destruct (isOptionsNode c) eqn:Opt.
      { unfold bind in Run.
        destruct (printSvelteOptions H options comment c path cb g) as [[u| |] g1];
          try discriminate.
        eapply Weaken; [|eapply IH; [|exact Run]; lia]. intros x; now right. }
      unfold bind in Run.
      destruct (withoutOptions H options path cb comment rest g) as [[kept'| |] g1] eqn:E;
        try discriminate.
      injection Run as <- <-.
      constructor.
      * split; [now left|]. split; [unfold keptChild; now rewrite Blank, Embed|].
        intros _. exact Opt.
      * eapply Weaken; [|eapply IH; [|exact E]; lia]. intros x; now right.
    + unfold bind in Run.
      destruct (withoutOptions H options path cb comment rest g) as [[kept'| |] g1] eqn:E;
        try discriminate.
      injection Run as <- <-.
      constructor.
      * split; [now left|]. split; [unfold keptChild; now rewrite Blank, Embed|].
        intros NotNone. apply String.eqb_neq in NotNone. rewrite NotNone in Sorted.
        discriminate.
      * eapply Weaken; [|eapply IH; [|exact E]; lia]. intros x; now right.
Qed.

Lemma withoutOptions_unsorted (children : list Node) (comment : option Doc)
  (g : Globals) :
  svelteSortOrder options = "none" ->
  withoutOptions H options path cb comment children g
  = (Returned (filter (keptChild H path) children), g).
Proof.
  intros Unsorted. induction children as [|c rest IH]; [reflexivity|].
  cbn [withoutOptions filter]. unfold keptChild at 1.
  rewrite Unsorted. cbn [String.eqb Ascii.eqb Bool.eqb negb andb].
  destruct (isText c && String.eqb (getUnencodedText c) EmptyString);
    cbn [negb andb]; [exact IH|].
  destruct (isEmptyTextNode c && doesEmbedStartAfterNode H (Some c) path);
    cbn [negb]; [exact IH|].
  unfold bind. rewrite IH. reflexivity.
Qed.

End PreparedChildren.

(** X8.  Merging neighbouring text nodes loses nothing: the [raw] texts of
    the children, one after the other, are the same before and after,
    and so are their [data]; the children that are not text nodes are
    the same, in the same order; and the list does not grow.  A text
    node takes over one neighbour only: of three text nodes in a row,
    the third stays on its own. *)
Theorem merging_texts_loses_nothing (children : list Node) :
  appendAll (map textRaw (mergeTexts children)) = appendAll (map textRaw children)
  /\ appendAll (map textData (mergeTexts children))
     = appendAll (map textData children)
  /\ filter (fun c => negb (isText c)) (mergeTexts children)
     = filter (fun c => negb (isText c)) children
  /\ length (mergeTexts children) <= length children
  /\ forall l1 r1 d1 l2 r2 d2 l3 r3 d3,
       mergeTexts [Text l1 r1 d1; Text l2 r2 d2; Text l3 r3 d3]
       = [Text l1 (r1 ++ r2) (d1 ++ d2); Text l3 r3 d3].
Proof.
  destruct (mergeTexts_others (length children) children (le_n _)) as (N & L).
  repeat split; try assumption.
  - apply (mergeTexts_field textRaw) with (n := length children);
      [intros; reflexivity | apply le_n].
  - apply (mergeTexts_field textData) with (n := length children);
      [intros; reflexivity | apply le_n].
Qed.

(** X9.  With the sort order ["none"], [prepareChildren] neither calls the
    child printer nor writes a module-level variable: it drops the text
    nodes without text and the whitespace right before an embedded
    section, keeps every other child, options tags and their comments
    included, and merges neighbouring text nodes. *)
Theorem unsorted_children_are_only_filtered
  (H : Helpers) (children : list Node) (path : FastPath) (cb : PrintFn)
  (options : ParserOptions) (g : Globals) :
  svelteSortOrder options = "none" ->
  prepareChildren H children path cb options g
  = (Returned (mergeTexts (filter (keptChild H path) children)), g).
Proof.
  intros Unsorted. unfold prepareChildren, bind.
  now rewrite withoutOptions_unsorted.
Qed.

Lemma unsorted_children_witness :
  let options := Sample.options EmptyString "none" false true false in
  let tag := Meta Options (mkLoc 0 18) "svelte:options" [] in
  let children :=
    [Text (mkLoc 0 0) EmptyString EmptyString; tag; Text (mkLoc 18 19) "a" "a";
     Text (mkLoc 19 20) "b" "b"] in
  svelteSortOrder options = "none"
  /\ prepareChildren Sample.helpers children [] Sample.observer options initialGlobals
     = (Returned [tag; Text (mkLoc 18 19) "ab" "ab"], initialGlobals).
Proof.
  cbv zeta. split; [reflexivity|].
  exact (unsorted_children_are_only_filtered Sample.helpers
           [Text (mkLoc 0 0) EmptyString EmptyString;
            Meta Options (mkLoc 0 18) "svelte:options" [];
            Text (mkLoc 18 19) "a" "a"; Text (mkLoc 19 20) "b" "b"]
           [] Sample.observer
           (Sample.options EmptyString "none" false true false)
           initialGlobals eq_refl).
Defined.

(** X10.  Under a sort order, whatever [prepareChildren] returns holds no
    options tag: each one was printed into [svelteOptionsDoc] and left
    out, so the dispatcher never meets one among the children.  Whatever
    the sort order, a child that is not a text node is one of the
    children it was given, and no text node is without text. *)
Theorem prepared_children_hold_no_options_tag
  (H : Helpers) (children : list Node) (path : FastPath) (cb : PrintFn)
  (options : ParserOptions) (g : Globals) (prepared : list Node) (g' : Globals) :
  prepareChildren H children path cb options g = (Returned prepared, g') ->
  (svelteSortOrder options <> "none" ->
   Forall (fun c => isOptionsNode c = false) prepared)
  /\ Forall (fun c => isText c = false -> In c children) prepared
  /\ Forall (fun c => isText c = true -> getUnencodedText c <> EmptyString) prepared.
Proof.
  unfold prepareChildren, bind. intros Run.
  destruct (withoutOptions H options path cb None children g) as [[kept| |] g1] eqn:E;
    try discriminate.
  injection Run as <- <-.
  pose proof (withoutOptions_kept H path cb options (length children) children None g
                kept g1 (le_n _) E) as Kept.
  repeat split.
  - intros Sorted.
    apply (mergeTexts_Forall (fun c => isOptionsNode c = false)
             ltac:(intros; reflexivity) (length kept) kept (le_n _)).
    eapply Forall_impl; [|exact Kept]. intros c (_ & _ & O). auto.
  - apply (mergeTexts_Forall (fun c => isText c = false -> In c children)
             ltac:(intros; discriminate) (length kept) kept (le_n _)).
    eapply Forall_impl; [|exact Kept]. intros c (I & _ & _) _. exact I.
  - apply (mergeTexts_Forall
             (fun c => isText c = true -> getUnencodedText c <> EmptyString))
      with (n := length kept).
    + intros l r d l2 r2 d2 P1 _ _. cbn [getUnencodedText] in *.
      specialize (P1 eq_refl). destruct r; [congruence | discriminate].
    + apply le_n.
    + eapply Forall_impl; [|exact Kept]. intros c (_ & K & _) T.
      unfold keptChild in K. rewrite T in K. cbn [andb] in K.
      apply andb_true_iff in K as [K _]. apply negb_true_iff in K.
      now apply String.eqb_neq in K.
Qed.

Lemma prepared_children_witness :
  let options := Sample.options EmptyString Sample.defaultOrder false true false in
  let tag := Meta Options (mkLoc 0 18) "svelte:options" [] in
  let word := Text (mkLoc 18 19) "a" "a" in
  prepareChildren Sample.helpers [tag; word] [] Sample.labels options initialGlobals
  = (Returned [word],
     mkGlobals false false
       (Some
          (groupConcat
             [groupConcat
                [DStr "<"; DStr "svelte:options"; indent (groupConcat [dedent line]);
                 DStr EmptyString; DStr "/>"];
              hardline])))
  /\ Forall (fun c => isOptionsNode c = false) [word].
Proof.
  cbv zeta. split; [reflexivity|].
  exact (proj1
           (prepared_children_hold_no_options_tag Sample.helpers
              [Meta Options (mkLoc 0 18) "svelte:options" []; Text (mkLoc 18 19) "a" "a"]
              [] Sample.labels
              (Sample.options EmptyString Sample.defaultOrder false true false)
              initialGlobals [Text (mkLoc 18 19) "a" "a"] _ eq_refl)
           ltac:(cbv; discriminate)).
Defined.

(** ** Ignore directives *)

Lemma printText_keeps_globals (H : Helpers) (node : Node) (path : FastPath)
  (g : Globals) :
  snd (printText H node path g) = g.
Proof.
  unfold printText.
  repeat match goal with
         | |- context [if ?b then _ else _] => destruct b
         | |- context [match ?x with _ => _ end] => destruct x
         end; reflexivity.
Qed.

Lemma flags_down (g : Globals) :
  ignoreNext g = false -> ignoreRange g = false ->
  g = mkGlobals false false (svelteOptionsDoc g).
Proof. destruct g as [n r d]. cbn. now intros -> ->. Qed.

(** X11.  An ignore directive reaches exactly one node.  A comment that is the
    directive, printed while nothing is ignored, is printed as a comment
    and sets [ignoreNext]; whitespace-only text printed after it leaves
    the flag set; the next node that is not such text is printed from
    the source, and the module-level variables are back as they were
    before the comment. *)
Theorem ignore_directive_reaches_one_node
  (H : Helpers) (loc : Loc) (data : string) (rest after : FastPath)
  (options : ParserOptions) (cb : PrintFn) (g : Globals) (next : Node) :
  let comment := Comment loc data in
  let path := VNode comment :: rest in
  let flagged := mkGlobals true false (svelteOptionsDoc g) in
  ignoreNext g = false -> ignoreRange g = false ->
  isIgnoreDirective H comment = true ->
  isIgnoreStartDirective H comment && isNodeTopLevelHTML H comment path = false ->
  isIgnoreEndDirective H comment && isNodeTopLevelHTML H comment path = false ->
  doesEmbedStartAfterNode H (Some comment) path
  || (match getNextNode H path with
      | Some n => isEmptyTextNode n
      | None => false
      end
      && doesEmbedStartAfterNode H (getNextNode H path) path) = false ->
  isEmptyTextNode next = false ->
  print H path options cb g = (Returned (printComment H comment), flagged)
  /\ (forall blank,
        isEmptyTextNode blank = true ->
        snd (print H (VNode blank :: after) options cb flagged) = flagged)
  /\ print H (VNode next :: after) options cb flagged
     = (Returned (rawSlice options next), g).
Proof.
  intros comment path flagged Next Range Ignore Start End_ Embed Solid.
  split; [|split].
  - unfold path. rewrite print_normal.
    + cbn [printNode comment]. unfold printCommentNode. fold comment. fold path.
      rewrite Start, End_, Embed, Ignore.
      unfold bind, setIgnoreNext, ret. rewrite Range. reflexivity.
    + unfold suppressed. now rewrite Next, Range.
  - intros blank Blank.
    rewrite print_normal by now apply emptyText_not_suppressed.
    destruct blank; try discriminate. cbn [printNode]. apply printText_keeps_globals.
  - rewrite print_node.
    assert (S : suppressed H flagged next = true).
    { unfold suppressed, flagged. cbn [ignoreNext orb]. rewrite Solid.
      cbn [negb]. apply orb_true_r. }
    rewrite S. unfold flagged. cbn [ignoreRange svelteOptionsDoc].
    now rewrite <- flags_down.
Qed.

Lemma ignore_directive_witness :
  let options := Sample.options "<!-- prettier-ignore --><p>a</p>" Sample.defaultOrder
                   false true false in
  let comment := Comment (mkLoc 0 24) " prettier-ignore " in
  let next := ElementLike Element (mkLoc 24 32) "p" [] [Text (mkLoc 27 28) "a" "a"]
                None None in
  let flagged := mkGlobals true false None in
  print Sample.helpers [VNode comment] options Sample.labels initialGlobals
  = (Returned (groupConcat [DStr "<!--"; DStr " prettier-ignore "; DStr "-->"]), flagged)
  /\ print Sample.helpers [VNode next] options Sample.labels flagged
     = (Returned (concat [DStr "<p>a</p>"]), initialGlobals).
Proof.
  cbv zeta.
  pose proof (ignore_directive_reaches_one_node Sample.helpers (mkLoc 0 24)
                " prettier-ignore " [] []
                (Sample.options "<!-- prettier-ignore --><p>a</p>" Sample.defaultOrder
                   false true false)
                Sample.labels initialGlobals
                (ElementLike Element (mkLoc 24 32) "p" []
                   [Text (mkLoc 27 28) "a" "a"] None None)
                eq_refl eq_refl eq_refl eq_refl eq_refl eq_refl eq_refl)
    as (First & _ & Second).
  split; [exact First | exact Second].
Defined.

(** X12.  An ignored range opens and closes.  At the top level of the markup,
    the comment that starts a range is printed as a comment and sets
    [ignoreRange]; while it is set, every node that is neither the
    comment that ends the range nor whitespace-only text is printed from
    the source and leaves it set; the comment that ends the range is
    printed as a comment and puts the module-level variables back as
    they were before the range. *)
Theorem ignored_range_opens_and_closes
  (H : Helpers) (startLoc endLoc : Loc) (startData endData : string)
  (rest rest' : FastPath) (options : ParserOptions) (cb : PrintFn) (g : Globals) :
  let opening := Comment startLoc startData in
  let closing := Comment endLoc endData in
  let ranged := mkGlobals false true (svelteOptionsDoc g) in
  ignoreNext g = false -> ignoreRange g = false ->
  isIgnoreStartDirective H opening = true ->
  isNodeTopLevelHTML H opening (VNode opening :: rest) = true ->
  isIgnoreEndDirective H closing = true ->
  isIgnoreStartDirective H closing = false ->
  isNodeTopLevelHTML H closing (VNode closing :: rest') = true ->
  print H (VNode opening :: rest) options cb g
  = (Returned (printComment H opening), ranged)
  /\ (forall node inside,
        isIgnoreEndDirective H node = false -> isEmptyTextNode node = false ->
        print H (VNode node :: inside) options cb ranged
        = (Returned (rawSlice options node), ranged))
  /\ print H (VNode closing :: rest') options cb ranged
     = (Returned (printComment H closing), g).
Proof.
  intros opening closing ranged Next Range Start Top End_ NotStart Top'.
  split; [|split].
  - rewrite print_normal.
    + cbn [printNode opening]. unfold printCommentNode. fold opening.
      rewrite Start, Top. cbn [andb]. unfold bind, setIgnoreRange, ret.
      now rewrite Next.
    + unfold suppressed. now rewrite Next, Range.
  - intros node inside NotEnd Solid. rewrite print_node.
    assert (S : suppressed H ranged node = true).
    { unfold suppressed, ranged. cbn [ignoreNext ignoreRange orb andb].
      rewrite NotEnd, Solid. cbn [negb]. apply orb_true_r. }
    now rewrite S.
  - rewrite print_normal.
    + cbn [printNode closing]. unfold printCommentNode. fold closing.
      rewrite NotStart, End_, Top'. cbn [andb].
      unfold bind, setIgnoreRange, ret, ranged. cbn [ignoreNext svelteOptionsDoc].
      now rewrite <- flags_down.
    + unfold suppressed, ranged. cbn [ignoreNext ignoreRange orb andb].
      now rewrite End_.
Qed.

Lemma ignored_range_witness :
  let options := Sample.options EmptyString Sample.defaultOrder false true false in
  let opening := Comment (mkLoc 0 30) " prettier-ignore-start " in
  let closing := Comment (mkLoc 40 68) " prettier-ignore-end " in
  let root := VRoot (mkAST (Fragment (mkLoc 0 68) []) None None None) in
  let above := [VNode (Fragment (mkLoc 0 68) []); root] in
  let ranged := mkGlobals false true None in
  print Sample.helpers (VNode opening :: above) options Sample.labels initialGlobals
  = (Returned (groupConcat [DStr "<!--"; DStr " prettier-ignore-start "; DStr "-->"]),
     ranged)
  /\ print Sample.helpers (VNode closing :: above) options Sample.labels ranged
     = (Returned (groupConcat [DStr "<!--"; DStr " prettier-ignore-end "; DStr "-->"]),
        initialGlobals).
Proof.
  cbv zeta.
  pose proof (ignored_range_opens_and_closes Sample.helpers (mkLoc 0 30) (mkLoc 40 68)
                " prettier-ignore-start " " prettier-ignore-end "
                [VNode (Fragment (mkLoc 0 68) []);
                 VRoot (mkAST (Fragment (mkLoc 0 68) []) None None None)]
                [VNode (Fragment (mkLoc 0 68) []);
                 VRoot (mkAST (Fragment (mkLoc 0 68) []) None None None)]
                (Sample.options EmptyString Sample.defaultOrder false true false)
                Sample.labels initialGlobals
                eq_refl eq_refl eq_refl eq_refl eq_refl eq_refl eq_refl)
    as (First & _ & Last).
  split; [exact First | exact Last].
Defined.

(** ** The comments above the sections: the search ends *)

Section LeadingComments.

Context (H : Helpers).





End LeadingComments.



(** ** The comments above the sections: what is taken *)

Lemma map_snd_indexed_from (a : nat) (l : list Node) :
  map snd (combine (seq a (length l)) l) = l.
Proof.
  revert a. induction l as [|x l IH]; intros a; [reflexivity|].
  cbn [length seq combine map snd]. now rewrite IH.
Qed.

Lemma find_indexed_none (a : nat) (l : list Node) (position : nat) :
  (forall c, In c l -> end_ c <> position) ->
  findEndingAt (combine (seq a (length l)) l) position = None.
Proof.
  revert a. induction l as [|x l IH]; intros a No; [reflexivity|].
  cbn [length seq combine]. unfold findEndingAt. cbn [find snd].
  destruct (end_ x =? position) eqn:E.
  - apply Nat.eqb_eq in E. exfalso. apply (No x); [now left | exact E].
  - apply IH. intros c In_. apply No. now right.
Qed.

Lemma keep_from (a b : nat) (l : list Node) :
  b < a ->
  filter (fun entry : nat * Node => negb (fst entry =? b)) (combine (seq a (length l)) l)
  = combine (seq a (length l)) l.
Proof.
  revert a. induction l as [|x l IH]; intros a Lt; [reflexivity|].
  cbn [length seq combine filter fst].
  replace (a =? b) with false by (symmetry; apply Nat.eqb_neq; lia).
  cbn [negb]. rewrite IH by lia. reflexivity.
Qed.

Lemma map_snd_removelast (l : list (nat * Node)) :
  map snd (removelast l) = removelast (map snd l).
Proof.
  induction l as [|x [|y l] IH]; try reflexivity.
  change (removelast (x :: y :: l)) with (x :: removelast (y :: l)).
  cbn [map]. cbn [map] in IH. rewrite IH. reflexivity.
Qed.

(** X14.  A section that no child of the markup ends at has no comment: none
    is taken, and the children of the markup stay as they are. *)
Theorem section_without_neighbour_has_no_comment
  (H : Helpers) (ast : ASTNode) (current : Node) :
  (forall c, In c (getChildren (html ast)) -> end_ c <> start current) ->
  removeAndGetLeadingComments H ast current = Some ([], getChildren (html ast)).
Proof.
  intros No. unfold removeAndGetLeadingComments, indexed.
  destruct (getChildren (html ast)) as [|c0 cs] eqn:E; [reflexivity|].
  rewrite <- E in *.
  assert (NE : combine (seq 0 (length (getChildren (html ast)))) (getChildren (html ast))
               <> []) by (rewrite E; discriminate).
  destruct (combine _ _) as [|s0 ss] eqn:Ec; [congruence|]. rewrite <- Ec.
  cbn [leadingComments]. rewrite (find_indexed_none 0 _ _ No).
  cbn [length firstn fold_left combine map List.rev].
  now rewrite map_snd_indexed_from.
Qed.

Lemma lonely_section_witness :
  let ast := Sample.ignoredRoot in
  let script := TopLevel (mkLoc 50 70) "Script" [] [] EmptyString in
  (forall c, In c (getChildren (html ast)) -> end_ c <> start script)
  /\ removeAndGetLeadingComments Sample.helpers ast script
     = Some ([], getChildren (html ast)).
Proof.
  cbv zeta.
  assert (No : forall c, In c (getChildren (html Sample.ignoredRoot)) ->
                 end_ c <> start (TopLevel (mkLoc 50 70) "Script" [] [] EmptyString)).
  { intros c [<- | [<- | []]]; cbn; lia. }
  split; [exact No|].
  exact (section_without_neighbour_has_no_comment Sample.helpers Sample.ignoredRoot
           (TopLevel (mkLoc 50 70) "Script" [] [] EmptyString) No).
Defined.

(** X15.  A comment above a section, whitespace between them.  When the first
    child of the markup is a comment that is not a range directive, the
    second is whitespace-only text that ends where the section starts,
    and nothing ends where the comment starts, the comment becomes the
    comment of the section, [emptyLineAfter] tells whether the whitespace
    holds two newlines or more, and exactly the comment and the
    whitespace leave the markup. *)
Theorem comment_above_section_is_moved
  (H : Helpers) (ast : ASTNode) (current : Node) (loc : Loc) (data : string)
  (blank : Node) (others : list Node) :
  let comment := Comment loc data in
  getChildren (html ast) = comment :: blank :: others ->
  isIgnoreStartDirective H comment = false ->
  isIgnoreEndDirective H comment = false ->
  isEmptyTextNode blank = true ->
  end_ blank = start current ->
  end_ comment = start blank ->
  end_ comment <> start current ->
  (forall c, In c (comment :: blank :: others) -> end_ c <> start comment) ->
  removeAndGetLeadingComments H ast current
  = Some ([(comment, 2 <=? JsString.count JsString.isLF (getUnencodedText blank))],
          others).
Proof.
  intros comment Children NotStart NotEnd Blank Touch Above Apart Free.
  unfold removeAndGetLeadingComments, indexed. rewrite Children.
  cbn [length seq combine]. 
  assert (NotComment : isCommentNode blank = false)
    by (destruct blank; try discriminate; reflexivity).
  cbn [leadingComments]. unfold findEndingAt at 1. cbn [find snd].
  replace (end_ comment =? start current) with false
    by (symmetry; now apply Nat.eqb_neq).
  replace (end_ blank =? start current) with true
    by (symmetry; now apply Nat.eqb_eq).
  rewrite NotComment, Blank. cbn [andb app].
  unfold findEndingAt at 1. cbn [find snd].
  replace (end_ comment =? start blank) with true
    by (symmetry; now apply Nat.eqb_eq).
  fold comment. rewrite NotStart, NotEnd. cbn [isCommentNode comment negb andb app length Nat.eqb].
  assert (None_ : findEndingAt
                    ((0, comment) :: (1, blank) :: combine (seq 2 (length others)) others)
                    (start comment) = None).
  { apply (find_indexed_none 0 (comment :: blank :: others)). exact Free. }
  fold comment in None_. 
  cbn [leadingComments]. rewrite None_.
  cbn [length firstn fold_left fst spliceOut existsb Nat.eqb orb filter negb combine
       map snd List.rev app].
  rewrite (keep_from 2 0 others), (keep_from 2 1 others) by lia.
  rewrite map_snd_indexed_from, JsStringFacts.length_splitLines.
  destruct (JsString.count _ _) as [|[|k]]; reflexivity.
Qed.

Lemma comment_above_section_witness :
  let comment := Comment (mkLoc 0 10) " about " in
  let blank :=
    Text (mkLoc 10 12) (String JsString.LF (String JsString.LF EmptyString))
      (String JsString.LF (String JsString.LF EmptyString)) in
  let word := Text (mkLoc 30 31) "a" "a" in
  let script := TopLevel (mkLoc 12 30) "Script" [] [] EmptyString in
  let ast := mkAST (Fragment (mkLoc 0 31) [comment; blank; word]) None (Some script) None in
  removeAndGetLeadingComments Sample.helpers ast script
  = Some ([(comment, true)], [word]).
Proof.
  cbv zeta.
  refine (comment_above_section_is_moved Sample.helpers
            (mkAST
               (Fragment (mkLoc 0 31)
                  [Comment (mkLoc 0 10) " about ";
                   Text (mkLoc 10 12) (String JsString.LF (String JsString.LF EmptyString))
                     (String JsString.LF (String JsString.LF EmptyString));
                   Text (mkLoc 30 31) "a" "a"])
               None (Some (TopLevel (mkLoc 12 30) "Script" [] [] EmptyString)) None)
            (TopLevel (mkLoc 12 30) "Script" [] [] EmptyString)
            (mkLoc 0 10) " about "
            (Text (mkLoc 10 12) (String JsString.LF (String JsString.LF EmptyString))
               (String JsString.LF (String JsString.LF EmptyString)))
            [Text (mkLoc 30 31) "a" "a"]
            eq_refl eq_refl eq_refl eq_refl eq_refl eq_refl _ _).
  - cbn. lia.
  - intros c [<- | [<- | [<- | []]]]; cbn; lia.
Defined.

(** X16.  A comment right above a section, nothing between them.  When the
    first child of the markup is a comment that is not a range directive
    and ends where the section starts, and nothing ends where the comment
    starts, the comment becomes the comment of the section with no empty
    line after it; as there is no whitespace between the two to take out
    with it, the last of the other children leaves the markup in its
    place. *)
Theorem comment_touching_section_takes_last_child
  (H : Helpers) (ast : ASTNode) (current : Node) (loc : Loc) (data : string)
  (others : list Node) :
  let comment := Comment loc data in
  getChildren (html ast) = comment :: others ->
  isIgnoreStartDirective H comment = false ->
  isIgnoreEndDirective H comment = false ->
  end_ comment = start current ->
  (forall c, In c (comment :: others) -> end_ c <> start comment) ->
  removeAndGetLeadingComments H ast current
  = Some ([(comment, false)], removelast others).
Proof.
  intros comment Children NotStart NotEnd Touch Free.
  unfold removeAndGetLeadingComments, indexed. rewrite Children.
  cbn [length seq combine].
  cbn [leadingComments]. unfold findEndingAt at 1. cbn [find snd].
  replace (end_ comment =? start current) with true
    by (symmetry; now apply Nat.eqb_eq).
  fold comment. rewrite NotStart, NotEnd.
  cbn [isCommentNode comment negb andb app length Nat.eqb].
  assert (None_ : findEndingAt ((0, comment) :: combine (seq 1 (length others)) others)
                    (start comment) = None).
  { apply (find_indexed_none 0 (comment :: others)). exact Free. }
  fold comment in None_.
  rewrite None_.
  cbn [length firstn fold_left fst spliceOut existsb Nat.eqb orb filter negb
       map snd List.rev app combine].
  rewrite (keep_from 1 0 others) by lia.
  rewrite map_snd_removelast, map_snd_indexed_from. reflexivity.
Qed.

Lemma comment_touching_section_witness :
  let comment := Comment (mkLoc 0 10) " about " in
  let block := ElementLike Element (mkLoc 30 41) "div" [] [] None None in
  let script := TopLevel (mkLoc 10 30) "Script" [] [] EmptyString in
  let ast := mkAST (Fragment (mkLoc 0 41) [comment; block]) None (Some script) None in
  removeAndGetLeadingComments Sample.helpers ast script
  = Some ([(comment, false)], []).
Proof.
  cbv zeta.
  refine (comment_touching_section_takes_last_child Sample.helpers
            (mkAST
               (Fragment (mkLoc 0 41)
                  [Comment (mkLoc 0 10) " about ";
                   ElementLike Element (mkLoc 30 41) "div" [] [] None None])
               None (Some (TopLevel (mkLoc 10 30) "Script" [] [] EmptyString)) None)
            (TopLevel (mkLoc 10 30) "Script" [] [] EmptyString)
            (mkLoc 0 10) " about "
            [ElementLike Element (mkLoc 30 41) "div" [] [] None None]
            eq_refl eq_refl eq_refl eq_refl _).
  intros c [<- | [<- | []]]; cbn; lia.
Defined.

(** ** The comments above the sections: what is left *)

Module SubsequenceFacts.

Lemma sub_refl {A : Type} (l : list A) : Subsequence l l.
Proof. induction l; now constructor. Qed.

Lemma sub_trans {A : Type} (a b c : list A) :
  Subsequence a b -> Subsequence b c -> Subsequence a c.
Proof.
  intros Sab Sbc. revert a Sab.
  induction Sbc as [|x b c Sbc IH|x b c Sbc IH]; intros a Sab.
  - exact Sab.
  - constructor. now apply IH.
  - inversion Sab as [|y a' b' Sab'|y a' b' Sab']; subst.
    + apply sub_skip. now apply IH.
    + apply sub_keep. now apply IH.
Qed.

Lemma sub_In {A : Type} (kept all : list A) (x : A) :
  Subsequence kept all -> In x kept -> In x all.
Proof.
  induction 1 as [|y kept all S IH|y kept all S IH]; intros I.
  - exact I.
  - right. now apply IH.
  - destruct I as [-> | I]; [now left | right; now apply IH].
Qed.

Lemma sub_map {A B : Type} (f : A -> B) (kept all : list A) :
  Subsequence kept all -> Subsequence (map f kept) (map f all).
Proof. induction 1; cbn [map]; now constructor. Qed.

Lemma sub_filter {A : Type} (p : A -> bool) (l : list A) : Subsequence (filter p l) l.
Proof.
  induction l as [|x l IH]; [constructor|]. cbn [filter].
  destruct (p x); now constructor.
Qed.

Lemma sub_removelast {A : Type} (l : list A) : Subsequence (removelast l) l.
Proof.
  induction l as [|x [|y l] IH]; [constructor | repeat constructor |].
  change (removelast (x :: y :: l)) with (x :: removelast (y :: l)).
  now constructor.
Qed.

Lemma sub_NoDup {A : Type} (kept all : list A) :
  Subsequence kept all -> NoDup all -> NoDup kept.
Proof.
  induction 1 as [|y kept all S IH|y kept all S IH]; intros N.
  - exact N.
  - inversion N; subst. now apply IH.
  - inversion N as [|? ? Out N']; subst. constructor; [|now apply IH].
    intros I. apply Out. now apply (sub_In kept all).
Qed.

End SubsequenceFacts.

Section CommentsTaken.

Context (H : Helpers).

(** What the loop collects: comments among the siblings that are no
    range directives, and for each of them an entry of [newlines]. *)
Lemma leadingComments_taken (siblings : list (nat * Node)) :
  forall fuel position comments newlines cs ns,
    leadingComments H fuel siblings position comments newlines = Some (cs, ns) ->
    Forall (takenComment H siblings) comments -> length comments <= length newlines ->
    Forall (takenComment H siblings) cs /\ length cs <= length ns.
Proof.
  induction fuel as [|fuel IH]; intros position comments newlines cs ns Run All Len;
    [discriminate|].
  cbn [leadingComments] in Run.
  destruct (findEndingAt siblings position) as [[idx prev]|] eqn:Found;
    [|injection Run as <- <-; now split].
  apply find_some in Found as [Here _].
  destruct (isCommentNode prev && negb (isIgnoreStartDirective H prev)
            && negb (isIgnoreEndDirective H prev)) eqn:Test.
  - apply andb_true_iff in Test as [Test NotEnd].
    apply andb_true_iff in Test as [IsComment NotStart].
    apply negb_true_iff in NotEnd, NotStart.
    apply (IH _ _ _ _ _ Run).
    + apply Forall_app. split; [exact All|]. constructor; [|constructor].
      unfold takenComment. cbn [snd]. now repeat split.
    + destruct (length (comments ++ [(idx, prev)]) =? length newlines) eqn:Same.
      * apply Nat.eqb_eq in Same. lia.
      * rewrite !length_app. cbn [length]. lia.
  - destruct (isEmptyTextNode prev); [|injection Run as <- <-; now split].
    apply (IH _ _ _ _ _ Run); [exact All|]. rewrite length_app. cbn [length]. lia.
Qed.

Lemma filter_one_out (i : nat) (l : list (nat * Node)) :
  NoDup (map fst l) -> In i (map fst l) ->
  length (filter (fun entry => negb (fst entry =? i)) l) = length l - 1.
Proof.
  induction l as [|x l IH]; intros N I; [contradiction|].
  cbn [map] in N. inversion N as [|? ? Out N']; subst.
  cbn [filter length]. destruct (fst x =? i) eqn:E; cbn [negb].
  - apply Nat.eqb_eq in E. subst i.
    assert (All : filter (fun entry => negb (fst entry =? fst x)) l = l).
    { clear IH N N' I. induction l as [|y l IH]; [reflexivity|].
      cbn [filter]. destruct (fst y =? fst x) eqn:E.
      - apply Nat.eqb_eq in E. exfalso. apply Out. left. exact E.
      - cbn [negb]. f_equal. apply IH. intros I. apply Out. now right. }
    rewrite All. lia.
  - cbn [length]. destruct I as [I | I]; [apply Nat.eqb_neq in E; contradiction|].
    rewrite (IH N' I). destruct l; [contradiction | cbn [length]; lia].
Qed.

Lemma length_removelast_one (l : list (nat * Node)) :
  length (removelast l) = length l - 1.
Proof.
  induction l as [|x [|y l] IH]; try reflexivity.
  change (removelast (x :: y :: l)) with (x :: removelast (y :: l)).
  cbn [length] in *. lia.
Qed.

(** One [splice]: one sibling goes, if there is one. *)
Lemma spliceOut_one (idx : option nat) (siblings : list (nat * Node)) :
  NoDup (map fst siblings) ->
  length (spliceOut idx siblings) = length siblings - 1
  /\ Subsequence (spliceOut idx siblings) siblings.
Proof.
  intros N. unfold spliceOut.
  destruct idx as [i|];
    [|split; [apply length_removelast_one | apply SubsequenceFacts.sub_removelast]].
  destruct (existsb (fun entry => fst entry =? i) siblings) eqn:Has;
    [|split; [apply length_removelast_one | apply SubsequenceFacts.sub_removelast]].
  split; [|apply SubsequenceFacts.sub_filter].
  apply filter_one_out; [exact N|].
  apply existsb_exists in Has as (entry & I & E). apply Nat.eqb_eq in E. subst i.
  now apply in_map.
Qed.

(** Some [splice]s in a row. *)
Lemma splices_in_a_row {B : Type} (step : list (nat * Node) -> B -> list (nat * Node))
  (key : B -> option nat) :
  (forall siblings b, step siblings b = spliceOut (key b) siblings) ->
  forall (l : list B) (siblings : list (nat * Node)),
    NoDup (map fst siblings) ->
    length (fold_left step l siblings) = length siblings - length l
    /\ Subsequence (fold_left step l siblings) siblings.
Proof.
  intros Step. induction l as [|b l IH]; intros siblings N.
  - cbn [fold_left length]. split; [lia | apply SubsequenceFacts.sub_refl].
  - cbn [fold_left length]. rewrite Step.
    destruct (spliceOut_one (key b) siblings N) as [Len Sub].
    assert (N' : NoDup (map fst (spliceOut (key b) siblings))).
    { apply (SubsequenceFacts.sub_NoDup _ (map fst siblings)); [|exact N].
      now apply SubsequenceFacts.sub_map. }
    destruct (IH _ N') as [Len' Sub']. split; [lia|].
    now apply (SubsequenceFacts.sub_trans _ (spliceOut (key b) siblings)).
Qed.

Lemma map_fst_indexed (children : list Node) :
  map fst (indexed children) = seq 0 (length children).
Proof.
  unfold indexed. generalize 0 as a.
  induction children as [|c l IH]; intros a; [reflexivity|].
  cbn [length seq combine map fst]. now rewrite IH.
Qed.

Lemma map_snd_indexed (children : list Node) :
  map snd (indexed children) = children.
Proof.
  unfold indexed. generalize 0 as a.
  induction children as [|c l IH]; intros a; [reflexivity|].
  cbn [length seq combine map snd]. now rewrite IH.
Qed.

End CommentsTaken.

(** X30.  Whatever [removeAndGetLeadingComments] returns: the comments are
    comments among the children of the markup, none of them a range
    directive; what is left of the children is the children with some of
    them taken out, the others in their order; and for every comment
    returned two children are gone, as long as there are children to
    take. *)
Theorem every_comment_costs_two_children
  (H : Helpers) (ast : ASTNode) (current : Node)
  (comments : list (Node * bool)) (left : list Node) :
  removeAndGetLeadingComments H ast current = Some (comments, left) ->
  Forall
    (fun info =>
       In (fst info) (getChildren (html ast))
       /\ isCommentNode (fst info) = true
       /\ isIgnoreStartDirective H (fst info) = false
       /\ isIgnoreEndDirective H (fst info) = false)
    comments
  /\ Subsequence left (getChildren (html ast))
  /\ length left = length (getChildren (html ast)) - 2 * length comments.
Proof.
  unfold removeAndGetLeadingComments. cbv zeta.
  set (children := getChildren (html ast)).
  assert (N : NoDup (map fst (indexed children)))
    by (rewrite map_fst_indexed; apply seq_NoDup).
  assert (Len0 : length (indexed children) = length children)
    by (rewrite <- (map_snd_indexed children) at 2; now rewrite length_map).
  destruct (indexed children) as [|s0 ss] eqn:E.
  { intros Run. injection Run as <- <-. cbn [length] in Len0.
    destruct children; [|discriminate].
    repeat split; constructor. }
  rewrite <- E in *. clear E s0 ss.
  destruct (leadingComments H (S (length (indexed children))) (indexed children)
              (start current) [] []) as [[cs ns]|] eqn:Loop; [|discriminate].
  intros Run. injection Run as <- <-.
  destruct (leadingComments_taken H _ _ _ _ _ _ _ Loop (Forall_nil _) (le_n _))
    as [Taken Enough].
  set (ns' := firstn (length cs) ns).
  assert (Lns : length ns' = length cs)
    by (subst ns'; rewrite length_firstn; lia).
  destruct (splices_in_a_row
              (fun sibs (c : nat * Node) => spliceOut (Some (fst c)) sibs)
              (fun c => Some (fst c)) ltac:(reflexivity) cs (indexed children) N)
    as [Len1 Sub1].
  set (sibs1 := fold_left _ cs (indexed children)) in *.
  assert (N1 : NoDup (map fst sibs1)).
  { apply (SubsequenceFacts.sub_NoDup _ (map fst (indexed children))); [|exact N].
    now apply SubsequenceFacts.sub_map. }
  destruct (splices_in_a_row
              (fun sibs text =>
                 match text with
                 | NewlineText i _ => spliceOut (Some i) sibs
                 | NewlineNone => spliceOut None sibs
                 end)
              (fun text => match text with NewlineText i _ => Some i | NewlineNone => None end)
              ltac:(intros sibs [i t|]; reflexivity) ns' sibs1 N1)
    as [Len2 Sub2].
  set (sibs2 := fold_left _ ns' sibs1) in *.
  assert (Infos : length (combine cs ns') = length cs)
    by (rewrite length_combine; lia).
  repeat split.
  - apply Forall_rev. apply Forall_map.
    assert (Firsts : Forall (fun entry : (nat * Node) * NewlineEntry =>
                               In (fst entry) cs) (combine cs ns')).
    { apply Forall_forall. intros [c n] I. now apply in_combine_l in I. }
    eapply Forall_impl; [|exact Firsts].
    intros [[i c] n] I. cbn [fst snd] in *.
    rewrite Forall_forall in Taken. destruct (Taken _ I) as (Here & C & S & E).
    cbn [snd] in *. repeat split; try assumption.
    rewrite <- (map_snd_indexed children). now apply (in_map snd) in Here.
  - apply (SubsequenceFacts.sub_trans _ (map snd (indexed children)));
      [|rewrite map_snd_indexed; apply SubsequenceFacts.sub_refl].
    apply SubsequenceFacts.sub_map.
    now apply (SubsequenceFacts.sub_trans _ sibs1).
  - rewrite length_map, length_rev, length_map, Infos. lia.
Qed.

Lemma two_children_witness :
  let comment := Comment (mkLoc 0 10) " about " in
  let block := ElementLike Element (mkLoc 30 41) "div" [] [] None None in
  let word := Text (mkLoc 41 42) "a" "a" in
  let script := TopLevel (mkLoc 10 30) "Script" [] [] EmptyString in
  let ast := mkAST (Fragment (mkLoc 0 42) [comment; block; word]) None (Some script) None in
  removeAndGetLeadingComments Sample.helpers ast script
  = Some ([(comment, false)], [block])
  /\ length [block] = length [comment; block; word] - 2 * length [(comment, false)].
Proof.
  cbv zeta. split; [reflexivity|].
  exact (proj2 (proj2
           (every_comment_costs_two_children Sample.helpers
              (mkAST
                 (Fragment (mkLoc 0 42)
                    [Comment (mkLoc 0 10) " about ";
                     ElementLike Element (mkLoc 30 41) "div" [] [] None None;
                     Text (mkLoc 41 42) "a" "a"])
                 None (Some (TopLevel (mkLoc 10 30) "Script" [] [] EmptyString)) None)
              (TopLevel (mkLoc 10 30) "Script" [] [] EmptyString)
              [(Comment (mkLoc 0 10) " about ", false)]
              [ElementLike Element (mkLoc 30 41) "div" [] [] None None]
              eq_refl))).
Defined.

(** ** Sections without a sort order *)

Lemma partsGet_delete (k k' : nat) (m : PartsByEnd) :
  partsGet k (partsDelete k' m) = if k =? k' then None else partsGet k m.
Proof.
  unfold partsGet, partsDelete.
  induction m as [|[key part] m IH]; [now destruct (k =? k')|].
  cbn [filter find fst].
  destruct (key =? k') eqn:E1; cbn [negb].
  - apply Nat.eqb_eq in E1. subst key. rewrite IH.
    destruct (k =? k') eqn:E2; [reflexivity|]. now rewrite (Nat.eqb_sym k' k), E2.
  - cbn [find fst]. destruct (key =? k) eqn:E3.
    + apply Nat.eqb_eq in E3. subst key. now rewrite E1.
    + exact IH.
Qed.

Lemma partsGet_delete_some (k k' : nat) (m : PartsByEnd) (p : Node) :
  partsGet k (partsDelete k' m) = Some p -> partsGet k m = Some p.
Proof. rewrite partsGet_delete. now destruct (k =? k'). Qed.

(** X17.  The sections are put back without touching the children: the result
    is the children in their order, each with at most one section right
    in front of it, and that section is the one recorded under the
    offset the child starts at. *)
Theorem sections_go_in_front_of_the_child_after_them
  (m : PartsByEnd) (children : list Node) :
  exists placed : list (option Node),
    length placed = length children
    /\ spliceParts m children = flat_map withSection (combine placed children)
    /\ Forall
         (fun entry =>
            forall part, fst entry = Some part ->
              partsGet (start (snd entry)) m = Some part)
         (combine placed children).
Proof.
  revert m. induction children as [|c rest IH]; intros m.
  - exists []. repeat split. constructor.
  - cbn [spliceParts]. destruct (partsGet (start c) m) as [part|] eqn:E.
    + destruct (IH (partsDelete (start c) m)) as (placed & Len & Eq & All).
      exists (Some part :: placed). cbn [length combine flat_map withSection fst snd app].
      split; [now rewrite Len|]. split; [now rewrite Eq|].
      constructor.
      * cbn [fst snd]. intros p [= <-]. exact E.
      * eapply Forall_impl; [|exact All]. intros entry Get p Hp.
        eapply partsGet_delete_some. now apply Get.
    + destruct (IH m) as (placed & Len & Eq & All).
      exists (None :: placed). cbn [length combine flat_map withSection fst snd app].
      split; [now rewrite Len|]. split; [now rewrite Eq|].
      constructor; [cbn [fst]; discriminate | exact All].
Qed.

Lemma spliceParts_none (m : PartsByEnd) (children : list Node) :
  (forall c, In c children -> partsGet (start c) m = None) ->
  spliceParts m children = children.
Proof.
  induction children as [|c rest IH]; intros No; [reflexivity|].
  cbn [spliceParts]. rewrite (No c (or_introl eq_refl)).
  rewrite IH; [reflexivity|]. intros x Hx. apply No. now right.
Qed.

Lemma partsGet_set (k key : nat) (part : Node) (m : PartsByEnd) :
  partsGet k (partsSet key part m)
  = if key =? k then Some part else partsGet k m.
Proof.
  unfold partsSet. unfold partsGet at 1. cbn [find fst].
  destruct (key =? k) eqn:E; [reflexivity|].
  fold (partsDelete key m). fold (partsGet k (partsDelete key m)).
  rewrite partsGet_delete. now rewrite (Nat.eqb_sym k key), E.
Qed.

Lemma setChildren_same (n : Node) (children : list Node) :
  nodeChildren n = Some children -> setChildren n children = n.
Proof. destruct n; cbn; intros E; try discriminate; now injection E as <-. Qed.

Lemma end_asScript (H : Helpers) (options : ParserOptions) (part : Node) :
  end_ (asScript H options part) = end_ part.
Proof. now destruct part. Qed.

Lemma end_asStyle (part : Node) : end_ (asStyle part) = end_ part.
Proof. now destruct part. Qed.

(** X18.  With the sort order ["none"] a section is printed only as a child of
    the markup, in front of the child that starts where it ends.  When no
    child of the markup starts where a section ends, the markup goes to
    the child printer as it is, with no section in it: the sections are
    not printed at all. *)
Theorem unsorted_sections_need_a_child_after_them
  (H : Helpers) (n : ASTNode) (options : ParserOptions) (path : FastPath)
  (cb : PrintFn) (g : Globals) :
  svelteSortOrder options = "none" ->
  (forall part c,
     In (Some part) [module_ n; instance n; css n] ->
     In c (getChildren (html n)) -> start c <> end_ part) ->
  exists root,
    html root = html n
    /\ printTopLevelParts H n options path cb g
       = mapReturned
           (fun result =>
              if insertPragma options && negb (hasPragma (originalText options))
              then concat [pragmaComment; hardline; result] else result)
           (cb (VNode (html n) :: VRoot root :: tl path) g).
Proof.
  intros Unsorted Apart. unfold printTopLevelParts. rewrite Unsorted.
  cbn [String.eqb Ascii.eqb Bool.eqb].
  set (m := match option_map asStyle (css n) with
            | Some c => partsSet (end_ c) c _
            | None => _
            end).
  assert (Markup :
    match nodeChildren (html n) with
    | Some children => setChildren (html n) (spliceParts m children)
    | None => html n
    end = html n).
  { destruct (nodeChildren (html n)) as [children|] eqn:E; [|reflexivity].
    rewrite spliceParts_none; [now apply setChildren_same|].
    intros c In_.
    assert (InC : In c (getChildren (html n)))
      by (unfold getChildren; now rewrite E).
    subst m.
    destruct (css n) as [s|] eqn:Es; cbn [option_map];
      [rewrite partsGet_set, end_asStyle;
       replace (end_ s =? start c) with false
         by (symmetry; apply Nat.eqb_neq; intros Eq;
             apply (Apart s c); [cbn; auto | exact InC | now rewrite Eq])|];
      (destruct (instance n) as [i|] eqn:Ei; cbn [option_map];
       [rewrite partsGet_set, end_asScript;
        replace (end_ i =? start c) with false
          by (symmetry; apply Nat.eqb_neq; intros Eq;
              apply (Apart i c); [cbn; auto | exact InC | now rewrite Eq])|]);
      (destruct (module_ n) as [mo|] eqn:Em; cbn [option_map];
       [rewrite partsGet_set, end_asScript;
        replace (end_ mo =? start c) with false
          by (symmetry; apply Nat.eqb_neq; intros Eq;
              apply (Apart mo c); [cbn; auto | exact InC | now rewrite Eq])|]);
      reflexivity. }
  rewrite Markup. cbn [html].
  exists (mkAST (html n) (option_map asStyle (css n))
            (option_map (asScript H options) (instance n))
            (option_map (asScript H options) (module_ n))).
  split; [reflexivity|].
  unfold pathCall, bind, mapReturned.
  destruct (cb _ g) as [[d| msg |] g']; [|reflexivity..].
  destruct (insertPragma options && negb (hasPragma (originalText options)));
    reflexivity.
Qed.

Lemma lone_script_witness :
  let script := TopLevel (mkLoc 0 20) "Program" [] [] EmptyString in
  let n := mkAST (Fragment (mkLoc 20 20) []) None (Some script) None in
  let options := Sample.options EmptyString "none" false true false in
  printTopLevelParts Sample.helpers n options [VRoot n] Sample.labels initialGlobals
  = (Returned (DStr "Markup"), initialGlobals).
Proof.
  cbv zeta.
  destruct (unsorted_sections_need_a_child_after_them Sample.helpers
              (mkAST (Fragment (mkLoc 20 20) []) None
                 (Some (TopLevel (mkLoc 0 20) "Program" [] [] EmptyString)) None)
              (Sample.options EmptyString "none" false true false)
              [VRoot
                 (mkAST (Fragment (mkLoc 20 20) []) None
                    (Some (TopLevel (mkLoc 0 20) "Program" [] [] EmptyString)) None)]
              Sample.labels initialGlobals eq_refl
              ltac:(intros part c _ []))
    as (root & _ & ->).
  reflexivity.
Defined.

(** ** Forced breaks *)

Lemma forcesBreak_before_breakParent (d : Doc) :
  forcesBreak (concat [d; breakParent]) = true.
Proof. cbn [concat forcesBreak breakParent]. apply orb_true_r. Qed.

(** X19.  Whatever an if block, an each block or a key block prints as, its
    document is a group followed by [breakParent]: it holds a forced
    break, so that a group around such a block is never laid out on one
    line. *)
Theorem logic_blocks_force_a_break
  (H : Helpers) (node : Node) (rest : FastPath) (options : ParserOptions)
  (cb : PrintFn) (g : Globals) (d : Doc) (g' : Globals) :
  match node with
  | IfBlock _ _ _ _ | EachBlock _ _ _ _ _ _ _ | KeyBlock _ _ _ => True
  | _ => False
  end ->
  suppressed H g node = false ->
  print H (VNode node :: rest) options cb g = (Returned d, g') ->
  (exists parts, d = concat [groupConcat parts; breakParent])
  /\ forcesBreak d = true.
Proof.
  intros Kind S. rewrite (print_normal H _ _ _ _ _ S).
  destruct node; try contradiction; cbn [printNode].
  - unfold printIfBlock. destruct else_; run;
      intros E; first [discriminate E | injection E as <- _];
      (split; [eexists; reflexivity | apply forcesBreak_before_breakParent]).
  - unfold printEachBlock. destruct else_, key; run;
      intros E; first [discriminate E | injection E as <- _];
      (split; [eexists; reflexivity | apply forcesBreak_before_breakParent]).
  - unfold printKeyBlock. run;
      intros E; first [discriminate E | injection E as <- _];
      (split; [eexists; reflexivity | apply forcesBreak_before_breakParent]).
Qed.

Lemma key_block_witness :
  let options := Sample.options EmptyString Sample.defaultOrder false true false in
  let node := KeyBlock (mkLoc 0 0) (Sample.ident "k") [] in
  let d :=
    concat
      [groupConcat [DStr "{#key "; DStr EmptyString; DStr "}"; DStr EmptyString;
                    DStr "{/key}"];
       breakParent] in
  print Sample.helpers [VNode node] options Sample.labels initialGlobals
  = (Returned d, initialGlobals)
  /\ forcesBreak d = true.
Proof.
  cbv zeta. split; [reflexivity|].
  refine (proj2 (logic_blocks_force_a_break Sample.helpers
           (KeyBlock (mkLoc 0 0) (Sample.ident "k") []) []
           (Sample.options EmptyString Sample.defaultOrder false true false)
           Sample.labels initialGlobals _ initialGlobals I eq_refl eq_refl)).
Defined.

(** ** The tags of an element *)

Lemma bind_returned {A B : Type} (m : M A) (k : A -> M B) (g : Globals)
  (b : B) (g' : Globals) :
  bind m k g = (Returned b, g') ->
  exists a g1, m g = (Returned a, g1) /\ k a g1 = (Returned b, g').
Proof.
  unfold bind. destruct (m g) as [[a| msg |] g1]; try discriminate.
  intros E. now exists a, g1.
Qed.

Lemma docText_groupConcat (l : list Doc) : docText (groupConcat l) = concatText l.
Proof. unfold groupConcat, group, concat. cbn [docText]. apply docText_concat. Qed.

Lemma docText_concat' (l : list Doc) : docText (concat l) = concatText l.
Proof. apply docText_concat. Qed.

Lemma concatText_cons (d : Doc) (l : list Doc) :
  concatText (d :: l) = (docText d ++ concatText l)%string.
Proof. reflexivity. Qed.

Lemma ends_cons (x rest closing : string) :
  (exists m, rest = (m ++ closing)%string) ->
  exists m, (x ++ rest)%string = (m ++ closing)%string.
Proof.
  intros (m & ->). exists (x ++ m)%string. now rewrite JsStringFacts.append_assoc.
Qed.

Lemma ends_char (c : ascii) (rest closing : string) :
  (exists m, rest = (m ++ closing)%string) ->
  exists m, String c rest = (m ++ closing)%string.
Proof. intros (m & ->). now exists (String c m). Qed.

Lemma ends_here (closing : string) : exists m, closing = (m ++ closing)%string.
Proof. now exists EmptyString. Qed.

Lemma tag_opens (name rest closing : string) :
  (exists m, rest = (m ++ closing)%string) ->
  exists middle,
    String "<" (name ++ rest) = ("<" ++ name ++ middle ++ closing)%string.
Proof. intros (m & ->). now exists m. Qed.

Ltac invert_run Run :=
  repeat
    (cbv beta in Run;
     lazymatch type of Run with
     | bind _ _ _ = (Returned _, _) =>
         let E := fresh "E" in
         apply bind_returned in Run as (? & ? & E & Run)
     | (if ?c then _ else _) _ = _ => destruct c eqn:?
     | (match ?p with (_, _) => _ end) _ = _ => destruct p
     | (let (_, _) := ?p in _) _ = _ => destruct p
     | ret _ _ = _ => unfold ret in Run; injection Run as <- <-
     | throw _ _ = _ => discriminate Run
     end).

Ltac text_shape :=
  unfold indent, group, dedent, softline, hardline, line, breakParent, literalline;
  repeat first
    [ rewrite docText_groupConcat
    | rewrite docText_concat'
    | rewrite concatText_app
    | rewrite concatText_cons
    | progress cbn [docText concatText fold_right app] ].

Ltac close_tag :=
  rewrite ?JsStringFacts.append_assoc, ?JsStringFacts.append_empty_r;
  cbn [append];
  repeat first [ apply ends_here | apply ends_char | apply ends_cons ].

(** X21.  An element, a component, a slot and their like print between their
    own tags: the text of the document opens with [<] and the name; it
    closes with [/>] when the node is printed self-closing, with [>]
    when it is a doctype, and with the closing tag of the same name
    otherwise.  A node is printed self-closing when it has no child
    but whitespace-only text and strict mode is off, or it is no plain
    element, or its name is a self-closing tag. *)
Theorem element_prints_its_tags
  (H : Helpers) (kind : ElementKind) (loc : Loc) (name : string)
  (attributes children : list Node) (expression : option Node)
  (tag : option (TagValue Node)) (rest : FastPath) (options : ParserOptions)
  (cb : PrintFn) (g : Globals) (d : Doc) (g' : Globals) :
  let node := ElementLike kind loc name attributes children expression tag in
  let isDoctypeTag := String.eqb (toUpperCase name) "!DOCTYPE" in
  let isSelfClosingTag :=
    forallb isEmptyTextNode children
    && (negb (svelteStrictMode options)
        || negb (match kind with Element => true | _ => false end)
        || existsb (String.eqb name) (selfClosingTags H)
        || isDoctypeTag) in
  suppressed H g node = false ->
  print H (VNode node :: rest) options cb g = (Returned d, g') ->
  exists middle,
    docText d
    = ("<" ++ name ++ middle
       ++ (if isSelfClosingTag
           then if isDoctypeTag then ">" else "/>"
           else "</" ++ name ++ ">"))%string.
Proof.
  intros node isDoctypeTag isSelfClosingTag S Run.
  rewrite (print_normal H _ _ _ _ _ S) in Run. cbn [printNode node] in Run.
  unfold printElement in Run. fold node in Run.
  apply bind_returned in Run as (printed & g1 & _ & Run). cbv beta zeta in Run.
  apply bind_returned in Run as ([binding path1] & g2 & _ & Run). cbv beta iota zeta in Run.
  fold isDoctypeTag in Run. fold isSelfClosingTag in Run.
  destruct isSelfClosingTag.
  - unfold ret in Run. injection Run as <- <-.
    text_shape. cbn [append]. apply tag_opens.
    destruct isDoctypeTag; close_tag.
  - invert_run Run.
    all: text_shape; cbn [append]; apply tag_opens.
    all: repeat match goal with
                | |- context [docText (if ?c then _ else _)] => destruct c
                end; text_shape.
    all: close_tag.
Qed.

(** ** The pragma *)

Lemma trimStart_split (s : string) :
  exists ws,
    JsString.forallb JsString.isSpace ws = true
    /\ s = (ws ++ JsString.trimStart s)%string.
Proof.
  induction s as [|c s (ws & All & E)]; [now exists EmptyString|].
  cbn [JsString.trimStart]. destruct (JsString.isSpace c) eqn:Ec.
  - exists (String c ws). cbn [JsString.forallb append]. rewrite Ec, All.
    split; [reflexivity | now rewrite <- E].
  - now exists EmptyString.
Qed.

Lemma trimStart_app (ws s : string) :
  JsString.forallb JsString.isSpace ws = true ->
  JsString.trimStart (ws ++ s) = JsString.trimStart s.
Proof.
  induction ws as [|c ws IH]; [reflexivity|].
  cbn [JsString.forallb append JsString.trimStart]. intros All.
  apply andb_true_iff in All as [-> All]. now apply IH.
Qed.

Lemma stripPrefix_some (p s r : string) :
  stripPrefix p s = Some r <-> s = (p ++ r)%string.
Proof.
  revert s. induction p as [|a p IH]; intros s.
  - cbn. split; [now intros [= ->] | now intros ->].
  - destruct s as [|b s]; cbn [stripPrefix append]; [split; discriminate|].
    destruct (Ascii.eqb a b) eqn:E.
    + apply Ascii.eqb_eq in E. subst b. rewrite IH. split; [now intros -> | now intros [= ->]].
    + apply Ascii.eqb_neq in E. split; [discriminate | intros [= -> _]; congruence].
Qed.

Lemma nonWordNext_some (q : string) :
  nonWordNext q = true <-> exists c rest, q = String c rest /\ JsString.isWordChar c = false.
Proof.
  unfold nonWordNext. destruct q as [|c rest]; cbn [JsString.startsWith].
  - split; [discriminate | intros (c & rest & E & _); discriminate].
  - rewrite negb_true_iff. split.
    + intros E. now exists c, rest.
    + now intros (c' & rest' & [= <- <-] & E).
Qed.

(** X1.  The pragma test tells exactly the texts that open, behind any white
    space, with [<!--], then any white space, then [@format] or
    [@prettier], then a character that is no letter, digit or
    underscore. *)
Theorem pragma_is_told_by_its_opening (text : string) :
  hasPragma text = true
  <-> exists ws1 ws2 keyword c rest,
        JsString.forallb JsString.isSpace ws1 = true
        /\ JsString.forallb JsString.isSpace ws2 = true
        /\ (keyword = "format" \/ keyword = "prettier")
        /\ JsString.isWordChar c = false
        /\ text = (ws1 ++ "<!--" ++ ws2 ++ "@" ++ keyword ++ String c rest)%string.
Proof.
  unfold hasPragma. split.
  - intros Has.
    destruct (trimStart_split text) as (ws1 & All1 & E1).
    destruct (stripPrefix "<!--" (JsString.trimStart text)) as [r|] eqn:P1;
      [|discriminate].
    apply stripPrefix_some in P1.
    destruct (trimStart_split r) as (ws2 & All2 & E2).
    destruct (stripPrefix "@" (JsString.trimStart r)) as [r2|] eqn:P2; [|discriminate].
    apply stripPrefix_some in P2.
    assert (Tail : exists keyword c rest,
              (keyword = "format" \/ keyword = "prettier")
              /\ JsString.isWordChar c = false
              /\ r2 = (keyword ++ String c rest)%string).
    { apply orb_true_iff in Has as [Has | Has].
      - destruct (stripPrefix "format" r2) as [q|] eqn:P3; [|discriminate].
        apply stripPrefix_some in P3. apply nonWordNext_some in Has as (c & rest & -> & Hc).
        exists "format", c, rest. auto.
      - destruct (stripPrefix "prettier" r2) as [q|] eqn:P3; [|discriminate].
        apply stripPrefix_some in P3. apply nonWordNext_some in Has as (c & rest & -> & Hc).
        exists "prettier", c, rest. auto. }
    destruct Tail as (keyword & c & rest & Kw & Hc & E3).
    exists ws1, ws2, keyword, c, rest. repeat split; try assumption.
    rewrite E1 at 1. rewrite P1. rewrite E2 at 1. rewrite P2, E3. reflexivity.
  - intros (ws1 & ws2 & keyword & c & rest & All1 & All2 & Kw & Hc & ->).
    rewrite (trimStart_app ws1 _ All1).
    cbn [append JsString.trimStart JsString.isSpace existsb Ascii.eqb Bool.eqb
         JsString.TAB JsString.LF JsString.VT JsString.FF JsString.CR JsString.SP
         JsString.NBSP orb stripPrefix].
    rewrite (trimStart_app ws2 _ All2).
    cbn [append JsString.trimStart JsString.isSpace existsb Ascii.eqb Bool.eqb
         JsString.TAB JsString.LF JsString.VT JsString.FF JsString.CR JsString.SP
         JsString.NBSP orb stripPrefix].
    destruct Kw as [-> | ->];
      cbn [append stripPrefix Ascii.eqb Bool.eqb nonWordNext JsString.startsWith];
      unfold nonWordNext; cbn [JsString.startsWith]; rewrite Hc; reflexivity.
Qed.

(** X2.  A run that inserts the pragma gives a document that opens with it:
    the text of the result passes the pragma test, so that a run over
    that text inserts no second one. *)
Theorem inserted_pragma_is_recognised
  (H : Helpers) (n : ASTNode) (options : ParserOptions) (path : FastPath)
  (cb : PrintFn) (g : Globals) (d : Doc) (g' : Globals) :
  insertPragma options = true ->
  hasPragma (originalText options) = false ->
  printTopLevelParts H n options path cb g = (Returned d, g') ->
  hasPragma (docText d) = true.
Proof.
  intros Insert Missing Run.
  assert (Shape : exists result, d = concat [pragmaComment; hardline; result]).
  { destruct (String.eqb (svelteSortOrder options) "none") eqn:Order.
    - unfold printTopLevelParts in Run. rewrite Order, Insert, Missing in Run.
      cbn [andb negb] in Run.
      apply bind_returned in Run as (result & g1 & _ & Run).
      unfold ret in Run. injection Run as <- _. now exists result.
    - apply String.eqb_neq in Order.
      destruct (sorted_print_shape H n path options cb g d g' Order Run) as (parts & E).
      cbv zeta in E. rewrite Insert, Missing in E. cbn [andb negb] in E.
      eexists. exact E. }
  destruct Shape as (result & ->). reflexivity.
Qed.

Lemma inserted_pragma_witness :
  let options := Sample.options EmptyString "styles-scripts-markup" false true true in
  let d :=
    concat [DStr "<!-- @format -->"; hardline;
            groupConcat [DStr "Style"; DStr "Script"; DStr "Markup"]] in
  printTopLevelParts Sample.helpers Sample.sectionsRoot options
    [VRoot Sample.sectionsRoot] Sample.labels initialGlobals
  = (Returned d, initialGlobals)
  /\ hasPragma (docText d) = true.
Proof.
  cbv zeta. split; [reflexivity|].
  exact (inserted_pragma_is_recognised Sample.helpers Sample.sectionsRoot
           (Sample.options EmptyString "styles-scripts-markup" false true true)
           [VRoot Sample.sectionsRoot] Sample.labels initialGlobals _ initialGlobals
           eq_refl eq_refl eq_refl).
Defined.

(** ** What printing does to the module-level variables *)

Create HintDb respects.

(** What [print] does to the module-level variables, for a relation that
    the child printer respects and that admits the writes [print] makes
    outside its [Comment] case: [ignoreNext] put down, and, under a sort
    order, [ignoreRange] put down and [svelteOptionsDoc] written. *)
Section Frame.

Context (H : Helpers) (options : ParserOptions) (cb : PrintFn).
Context (R : Globals -> Globals -> Prop).

Hypothesis R_refl : forall g, R g g.
Hypothesis R_trans : forall a b c, R a b -> R b c -> R a c.
Hypothesis R_next_down :
  forall g, R g (mkGlobals false (ignoreRange g) (svelteOptionsDoc g)).
Hypothesis R_range_down :
  svelteSortOrder options <> "none" ->
  forall g, R g (mkGlobals (ignoreNext g) false (svelteOptionsDoc g)).
Hypothesis R_options_doc :
  svelteSortOrder options <> "none" ->
  forall g d, R g (mkGlobals (ignoreNext g) (ignoreRange g) d).
Hypothesis cb_respects : forall path, respects R (cb path).
Hypothesis attribute_respects :
  forall node path,
    respects R (printWithPrependedAttributeLine H node options cb path).

Lemma respects_ret {A : Type} (a : A) : respects R (ret a).
Proof. intros g. apply R_refl. Qed.

Lemma respects_throw {A : Type} (msg : string) : respects R (@throw A msg).
Proof. intros g. apply R_refl. Qed.

Lemma respects_diverge {A : Type} : respects R (@diverge A).
Proof. intros g. apply R_refl. Qed.

Lemma respects_lift {A : Type} (o : Outcome A) : respects R (liftOutcome o).
Proof. intros g. apply R_refl. Qed.

Lemma respects_bind {A B : Type} (m : M A) (k : A -> M B) :
  respects R m -> (forall a, respects R (k a)) -> respects R (bind m k).
Proof.
  intros Km Kk g. unfold bind. specialize (Km g).
  destruct (m g) as [[a| msg |] g1]; cbn [snd] in *; try exact Km.
  eapply R_trans; [exact Km | apply Kk].
Qed.

Lemma respects_mapM {A B : Type} (f : A -> M B) (l : list A) :
  (forall a, respects R (f a)) -> respects R (mapM f l).
Proof.
  intros Kf. induction l as [|x l IH]; cbn [mapM]; [apply respects_ret|].
  apply respects_bind; [apply Kf|]. intros y.
  apply respects_bind; [exact IH|]. intros ys. apply respects_ret.
Qed.

Lemma respects_next_down : respects R (setIgnoreNext false).
Proof. intros g. apply R_next_down. Qed.

Lemma respects_range_down :
  svelteSortOrder options <> "none" -> respects R (setIgnoreRange false).
Proof. intros Sorted g. now apply R_range_down. Qed.

Lemma respects_options_doc (d : option Doc) :
  svelteSortOrder options <> "none" -> respects R (setSvelteOptionsDoc d).
Proof. intros Sorted g. now apply R_options_doc. Qed.

Lemma respects_getGlobals : respects R getGlobals.
Proof. intros g. apply R_refl. Qed.

Lemma respects_pathCall (path : FastPath) (n : Node) : respects R (pathCall cb path n).
Proof. apply cb_respects. Qed.

Lemma respects_pathMap (path : FastPath) (l : list Node) :
  respects R (pathMap cb path l).
Proof. apply respects_mapM. intros a. apply cb_respects. Qed.

Lemma respects_attributes (node : Node) (path : FastPath) (l : list Node) :
  respects R (pathMap (printWithPrependedAttributeLine H node options cb) path l).
Proof. apply respects_mapM. intros a. apply attribute_respects. Qed.

Ltac frame_step :=
  first
    [ apply respects_ret | apply respects_throw | apply respects_diverge
    | apply respects_lift | apply respects_next_down | apply respects_getGlobals
    | apply respects_range_down; assumption
    | apply respects_options_doc; assumption
    | apply respects_pathCall | apply respects_pathMap | apply respects_attributes
    | apply cb_respects
    | assumption
    | solve [auto 1 with respects nocore]
    | apply respects_bind; [|intros]
    | match goal with
      | |- respects R (if ?c then _ else _) => destruct c
      | |- respects R (match ?x with _ => _ end) => destruct x
      | |- respects R (let (_, _) := ?x in _) => destruct x
      end ].

Ltac frame := repeat frame_step.

Lemma respects_printJS (path : FastPath) (a b c : bool) (name : JsField) :
  respects R (printJS path cb a b c name).
Proof. unfold printJS. frame. Qed.

Lemma respects_printJsExpression (path : FastPath) :
  respects R (printJsExpression path options cb).
Proof. unfold printJsExpression. frame. apply respects_printJS. Qed.

#[local] Hint Resolve respects_printJS respects_printJsExpression : respects.

Lemma respects_printSvelteBlockJS (path : FastPath) (name : JsField) :
  respects R (printSvelteBlockJS path cb name).
Proof. unfold printSvelteBlockJS. frame. Qed.

Lemma respects_printOptionalExpression (e : option Node) (path : FastPath) :
  respects R (printOptionalExpression e path options cb).
Proof. unfold printOptionalExpression. frame. Qed.

Lemma respects_printAttributeNodeValue (path : FastPath) (quotes : bool) (node : Node) :
  respects R (printAttributeNodeValue H path cb quotes node).
Proof. unfold printAttributeNodeValue. frame. Qed.

#[local] Hint Resolve respects_printSvelteBlockJS respects_printOptionalExpression
  respects_printAttributeNodeValue : respects.

Lemma respects_printSvelteOptions (comment : option Doc) (node : Node)
  (path : FastPath) :
  svelteSortOrder options <> "none" ->
  respects R (printSvelteOptions H options comment node path cb).
Proof. intros Sorted. unfold printSvelteOptions. cbv zeta. frame. Qed.

Lemma respects_withoutOptions (path : FastPath) (n : nat) :
  forall (children : list Node) (comment : option Doc),
    length children <= n ->
    respects R (withoutOptions H options path cb comment children).
Proof.
  induction n as [|n IH]; intros children comment Len.
  - destruct children; [apply respects_ret | cbn in Len; lia].
  - destruct children as [|c rest]; [apply respects_ret|].
    cbn [length] in Len. cbn [withoutOptions].
    assert (Rest : forall comment', respects R
                     (withoutOptions H options path cb comment' rest))
      by (intros comment'; apply IH; lia).
    destruct (isText c && String.eqb (getUnencodedText c) EmptyString); [apply Rest|].
    destruct (isEmptyTextNode c && doesEmbedStartAfterNode H (Some c) path);
      [apply Rest|].
    destruct (String.eqb (svelteSortOrder options) "none") eqn:Order; cbn [negb andb].
    + frame.
    + apply String.eqb_neq in Order.
      destruct (isCommentFollowedByOptions H c rest).
      * destruct rest as [|c2 rest']; [apply respects_ret|].
        destruct (isEmptyTextNode c2); [|apply Rest].
        apply IH. cbn [length] in Len. lia.
      * destruct (isOptionsNode c); [|frame].
        apply respects_bind; [now apply respects_printSvelteOptions|].
        intros _. apply Rest.
Qed.

Lemma respects_prepareChildren (children : list Node) (path : FastPath) :
  respects R (prepareChildren H children path cb options).
Proof.
  unfold prepareChildren. apply respects_bind; [|intros; apply respects_ret].
  now apply (respects_withoutOptions path (length children)).
Qed.

Lemma respects_printChild (path : FastPath) (node : Node) (nodes : list Node)
  (idx : nat) :
  respects R (printChild path node cb nodes idx).
Proof. unfold printChild. frame. Qed.

#[local] Hint Resolve respects_prepareChildren respects_printChild : respects.

Lemma respects_childStep (path : FastPath) (node : Node) (idx : nat)
  (st : ChildrenState) :
  respects R (childStep H path node cb options idx st).
Proof.
  unfold childStep, handleTextChild, handleBlockChild, handleInlineChild. frame.
Qed.

#[local] Hint Resolve respects_childStep : respects.

Lemma respects_childLoop (path : FastPath) (node : Node) (indices : list nat)
  (st : ChildrenState) :
  respects R (childLoop H path node cb options indices st).
Proof.
  revert st. induction indices as [|idx indices IH]; intros st; cbn [childLoop]; frame.
Qed.

#[local] Hint Resolve respects_childLoop : respects.

Lemma respects_printChildren (path : FastPath) :
  respects R (printChildren H path cb options).
Proof. unfold printChildren. frame. Qed.

#[local] Hint Resolve respects_printChildren : respects.

Lemma respects_printSvelteBlockChildren (path : FastPath) :
  respects R (printSvelteBlockChildren H path cb options).
Proof. unfold printSvelteBlockChildren. frame. Qed.

#[local] Hint Resolve respects_printSvelteBlockChildren : respects.

Lemma respects_printPreFrom (remaining : list Node) (text : string) (path : FastPath) :
  respects R (printPreFrom remaining text path cb).
Proof.
  induction remaining as [|child rest IH]; cbn [printPreFrom]; frame.
Qed.

#[local] Hint Resolve respects_printPreFrom : respects.

Lemma respects_runBody (kind : BodyKind) (path : FastPath) :
  respects R (runBody H kind path options cb).
Proof. unfold runBody, printPre. frame. Qed.

#[local] Hint Resolve respects_runBody : respects.

Lemma respects_printElement (kind : ElementKind) (node : Node) (name : string)
  (children : list Node) (expression : option Node) (tag : option (TagValue Node))
  (path : FastPath) :
  respects R (printElement H kind node name children expression tag path options cb).
Proof. unfold printElement. cbv zeta. frame. Qed.

(** Every case of the [switch] but [Comment]. *)
Lemma respects_printNode (node : Node) (path : FastPath) :
  (isCommentNode node = true -> respects R (printCommentNode H node path)) ->
  respects R (printNode H node path options cb).
Proof.
  intros Comments.
  destruct node; cbn [printNode]; try apply respects_printElement;
    try (apply Comments; reflexivity);
    unfold printFragment, printText, printMeta, printAttribute, printTag,
      printIfBlock, printElseBlock, printEachBlock, printAwaitBlock, printKeyBlock,
      printEventHandler, printDirective, printStyleDirective, printLet, printDebugTag,
      printTransition;
    frame.
Qed.

Lemma respects_printTopLevelParts (n : ASTNode) (path : FastPath) :
  respects R (printTopLevelParts H n options path cb).
Proof.
  unfold printTopLevelParts.
  destruct (String.eqb (svelteSortOrder options) "none") eqn:Order; [frame|].
  apply String.eqb_neq in Order. frame.
Qed.

Lemma respects_print (path : FastPath) :
  (forall node, getValue path = VNode node -> isCommentNode node = true ->
     respects R (printCommentNode H node path)) ->
  respects R (print H path options cb).
Proof.
  intros Comments. unfold print.
  destruct (getValue path) as [|n|node]; [apply respects_ret| |].
  - destruct (assignCommentsToNodes H n); [apply respects_printTopLevelParts|].
    apply respects_diverge.
  - frame. apply respects_printNode. now apply Comments.
Qed.

End Frame.

Lemma comment_keeps_options_doc (H : Helpers) (node : Node) (path : FastPath) :
  respects sameOptionsDoc (printCommentNode H node path).
Proof.
  intros g. unfold printCommentNode. cbv zeta.
  repeat match goal with
         | |- context [if ?c then _ else _] => destruct c
         end; reflexivity.
Qed.

(** X22.  With the sort order ["none"], printing never writes
    [svelteOptionsDoc]: when the child printer leaves it alone, on its
    own and when it prints an attribute, so does [print], on every path,
    whether it returns or throws. *)
Theorem options_doc_is_written_only_under_a_sort_order
  (H : Helpers) (options : ParserOptions) (cb : PrintFn) :
  svelteSortOrder options = "none" ->
  (forall path, keepsOptionsDoc (cb path)) ->
  (forall node path,
     keepsOptionsDoc (printWithPrependedAttributeLine H node options cb path)) ->
  forall path g,
    svelteOptionsDoc (snd (print H path options cb g)) = svelteOptionsDoc g.
Proof.
  intros Unsorted Cb Attr path.
  apply (respects_print H options cb sameOptionsDoc); try assumption;
    try (intros; reflexivity); try (intros; contradiction).
  - intros a b c Rab Rbc. unfold sameOptionsDoc in *. congruence.
  - intros node _ _. apply comment_keeps_options_doc.
Qed.

Lemma options_doc_witness :
  let options := Sample.options Sample.ignoredText "none" false true false in
  let g := mkGlobals false false (Some (DStr "kept")) in
  svelteOptionsDoc
    (snd (print Sample.helpers [VRoot Sample.ignoredRoot] options Sample.labels g))
  = Some (DStr "kept").
Proof.
  cbv zeta.
  refine (options_doc_is_written_only_under_a_sort_order Sample.helpers
            (Sample.options Sample.ignoredText "none" false true false)
            Sample.labels eq_refl _ _ [VRoot Sample.ignoredRoot]
            (mkGlobals false false (Some (DStr "kept")))).
  - intros path g. reflexivity.
  - intros node path g. cbn [printWithPrependedAttributeLine Sample.helpers].
    unfold Sample.withAttributeLine.
    destruct (getValue path) as [| |[]]; reflexivity.
Defined.

(** X29.  Only an ignore directive turns suppression on.  When nothing is
    being ignored, and the child printer leaves it so, on its own and
    when it prints an attribute, then nothing is being ignored after
    [print] either, whether it returns or throws, unless the value
    printed is a comment that is an ignore directive or the start of an
    ignored range. *)
Theorem only_a_directive_turns_suppression_on
  (H : Helpers) (options : ParserOptions) (cb : PrintFn) :
  (forall path, respects flagsStayDown (cb path)) ->
  (forall node path,
     respects flagsStayDown (printWithPrependedAttributeLine H node options cb path)) ->
  forall path g,
    (forall node, getValue path = VNode node -> isCommentNode node = true ->
       isIgnoreDirective H node = false /\ isIgnoreStartDirective H node = false) ->
    ignoreNext g = false -> ignoreRange g = false ->
    ignoreNext (snd (print H path options cb g)) = false
    /\ ignoreRange (snd (print H path options cb g)) = false.
Proof.
  intros Cb Attr path g Plain.
  apply (respects_print H options cb flagsStayDown); try assumption.
  - intros g0 N Rg. now split.
  - intros a b c Rab Rbc N Rg. destruct (Rab N Rg) as [N' Rg']. now apply Rbc.
  - intros g0 N Rg. now split.
  - intros _ g0 N Rg. now split.
  - intros _ g0 d N Rg. now split.
  - intros node Value Comment g0 N Rg.
    destruct (Plain node Value Comment) as [Directive Start].
    unfold printCommentNode. cbv zeta. rewrite Directive, Start. cbn [andb].
    repeat match goal with
           | |- context [if ?c then _ else _] => destruct c
           end; now split.
Qed.

Lemma plain_comment_witness :
  let options := Sample.options EmptyString Sample.defaultOrder false true false in
  let comment := Comment (mkLoc 0 14) " a note " in
  ignoreNext
    (snd (print Sample.helpers [VNode comment] options Sample.labels initialGlobals))
  = false
  /\ ignoreRange
       (snd (print Sample.helpers [VNode comment] options Sample.labels initialGlobals))
     = false.
Proof.
  cbv zeta.
  refine (only_a_directive_turns_suppression_on Sample.helpers
            (Sample.options EmptyString Sample.defaultOrder false true false)
            Sample.labels _ _ [VNode (Comment (mkLoc 0 14) " a note ")]
            initialGlobals _ eq_refl eq_refl).
  - intros path g N Rg. now split.
  - intros node path g N Rg. cbn [printWithPrependedAttributeLine Sample.helpers].
    unfold Sample.withAttributeLine.
    destruct (getValue path) as [| |[]]; now split.
  - intros node Value _. injection Value as <-. now split.
Defined.

(** ** The words of a text *)

Module WordFacts.

(** The pieces of a text: words, with an empty piece in front of them
    and one behind them when white space stands there. *)
Lemma splitWs_shape (s : string) :
  exists (a b : bool) (words : list string),
    JsString.splitWs s
    = (if a then [EmptyString] else []) ++ words ++ (if b then [EmptyString] else [])
    /\ forallb isWord words = true
    /\ (words = [] -> a = true).
Proof.
  induction s as [|c r (a & b & words & E & W & N)].
  - exists true, false, []. now repeat split.
  - cbn [JsString.splitWs]. destruct (JsString.isSplitWs c).
    + destruct (JsString.startsWith JsString.isSplitWs r) eqn:Hd.
      * exists a, b, words. now repeat split.
      * destruct r as [|x r'].
        -- exists true, true, []. now repeat split.
        -- cbn [JsString.startsWith] in Hd.
           cbn [JsString.splitWs] in E |- *. rewrite Hd in E |- *.
           destruct a.
           ++ exfalso. cbn [app] in E. destruct (JsString.splitWs r'); discriminate.
           ++ exists true, b, words. rewrite E. now repeat split.
    + destruct (JsString.splitWs r) as [|w ws] eqn:S.
      * exfalso. exact (SplitFacts.splitWs_nonempty r S).
      * destruct a.
        -- cbn [app] in E. injection E as -> ->.
           exists false, b, (String c EmptyString :: words).
           repeat split; [exact W | discriminate].
        -- destruct words as [|w' words']; [now specialize (N eq_refl)|].
           cbn [app] in E. injection E as -> ->.
           exists false, b, (String c w' :: words').
           cbn [forallb] in W |- *. apply andb_true_iff in W as [_ W].
           repeat split; [exact W | discriminate].
Qed.

Lemma filter_words (words : list string) :
  forallb isWord words = true -> filter isWord words = words.
Proof.
  induction words as [|w ws IH]; [reflexivity|].
  cbn [forallb filter]. intros All. apply andb_true_iff in All as [-> All].
  now rewrite IH.
Qed.

Lemma lines_and_words (words : list string) :
  forallb isWord words = true ->
  filter notEmptyString (flat_map (fun y => [line; y]) (map DStr words))
  = flat_map (fun y => [line; y]) (map DStr words).
Proof.
  induction words as [|w ws IH]; [reflexivity|].
  cbn [forallb]. intros All. apply andb_true_iff in All as [Word All].
  cbn [map flat_map app].
  change (filter notEmptyString (line :: DStr w :: ?l))
    with (line :: filter notEmptyString (DStr w :: l)).
  destruct w as [|c w]; [discriminate|].
  change (filter notEmptyString (DStr (String c w) :: ?l))
    with (DStr (String c w) :: filter notEmptyString l).
  now rewrite IH.
Qed.

Lemma lines_and_pieces (words : list string) (b : bool) :
  forallb isWord words = true ->
  filter notEmptyString
    (flat_map (fun y => [line; y])
       (map DStr (words ++ (if b then [EmptyString] else []))))
  = flat_map (fun y => [line; y]) (map DStr words) ++ (if b then [line] else []).
Proof.
  intros All. rewrite map_app, flat_map_app, filter_app, (lines_and_words _ All).
  now destruct b.
Qed.

(** The documents of the words of a text: the words, one [line] between
    two of them, a [line] in front and behind where white space stands. *)
Lemma wordDocs_shape (text : string) :
  let words := filter isWord (JsString.splitWs text) in
  exists lead trail,
    wordDocs text = lead ++ joinParts line (map DStr words) ++ trail
    /\ (lead = [] \/ lead = [line])
    /\ (trail = [] \/ trail = [line])
    /\ (words = [] -> trail = []).
Proof.
  intros words. subst words. unfold wordDocs.
  destruct (splitWs_shape text) as (a & b & words & -> & All & N).
  assert (F : filter isWord
                ((if a then [EmptyString] else []) ++ words
                 ++ (if b then [EmptyString] else [])) = words).
  { rewrite !filter_app, (filter_words _ All). now destruct a, b; rewrite ?app_nil_r. }
  rewrite F. clear F.
  destruct a.
  - cbn [app map]. rewrite joinParts_cons.
    change (filter notEmptyString (DStr EmptyString :: ?l))
      with (filter notEmptyString l).
    rewrite (lines_and_pieces _ _ All).
    destruct words as [|w ws].
    + exists (if b then [line] else []), []. cbn [map flat_map joinParts app].
      rewrite app_nil_r. destruct b; repeat split; auto.
    + exists [line], (if b then [line] else []).
      cbn [map]. rewrite joinParts_cons. cbn [flat_map app].
      repeat split; [auto | destruct b; auto | discriminate].
  - destruct words as [|w ws]; [now specialize (N eq_refl)|].
    cbn [forallb] in All. apply andb_true_iff in All as [Word All].
    cbn [app map]. rewrite !joinParts_cons.
    destruct w as [|c w]; [discriminate|].
    change (filter notEmptyString (DStr (String c w) :: ?l))
      with (DStr (String c w) :: filter notEmptyString l).
    rewrite (lines_and_pieces _ _ All).
    exists [], (if b then [line] else []). cbn [app].
    repeat split; [auto | destruct b; auto | discriminate].
Qed.

Lemma joined_words_end (w : string) (ws : list string) :
  exists front last,
    joinParts line (map DStr (w :: ws)) = front ++ [DStr last].
Proof.
  destruct (exists_last (l := w :: ws)) as (body & x & E); [discriminate|].
  rewrite E, map_app. cbn [map].
  destruct (TextFacts.joinParts_snoc line (map DStr body) (DStr x)) as (P & -> & _).
  now exists P, x.
Qed.

End WordFacts.

(** X23.  The documents of a text are its words, in order and unchanged, with
    exactly one [line] between two of them; in front of the first word
    and behind the last stand at most two documents each, [line]s or
    hard lines. *)
Theorem text_is_its_words_a_line_apart (node : Node) :
  exists lead trail,
    splitTextToDocs node
    = lead
      ++ joinParts line
           (map DStr (filter isWord (JsString.splitWs (getUnencodedText node))))
      ++ trail
    /\ forallb isLineBreak lead = true /\ length lead <= 2
    /\ forallb isLineBreak trail = true /\ length trail <= 2.
Proof.
  unfold splitTextToDocs. set (text := getUnencodedText node).
  destruct (WordFacts.wordDocs_shape text) as (L0 & T0 & W & HL & HT & N).
  unfold splitText.
  set (s1 := startsWithLinebreak text 1). set (s2 := startsWithLinebreak text 2).
  set (e1 := endsWithLinebreak text 1). set (e2 := endsWithLinebreak text 2).
  assert (Starts : s1 = true -> exists rest, wordDocs text = line :: rest).
  { intros E. apply TextFacts.wordDocs_starts_line.
    now apply (TextFacts.startsWithLinebreak_head text 0). }
  assert (Ends : e1 = true -> exists front, wordDocs text = front ++ [line]).
  { intros E. unfold e1, endsWithLinebreak in E.
    apply TextFacts.startsWithLinebreak_head in E.
    now apply TextFacts.wordDocs_ends_line. }
  rewrite W in *. clear W.
  destruct (filter isWord (JsString.splitWs text)) as [|w ws].
  - rewrite (N eq_refl). clear N HT Starts Ends. cbn [map joinParts app].
    rewrite app_nil_r.
    set (result :=
           if e2
           then (if e1
                 then setLast hardline
                        (if s2 then hardline :: (if s1 then setFirst hardline L0 else L0)
                         else (if s1 then setFirst hardline L0 else L0))
                 else (if s2 then hardline :: (if s1 then setFirst hardline L0 else L0)
                       else (if s1 then setFirst hardline L0 else L0)))
                ++ [hardline]
           else (if e1
                 then setLast hardline
                        (if s2 then hardline :: (if s1 then setFirst hardline L0 else L0)
                         else (if s1 then setFirst hardline L0 else L0))
                 else (if s2 then hardline :: (if s1 then setFirst hardline L0 else L0)
                       else (if s1 then setFirst hardline L0 else L0)))).
    exists (firstn 2 result), (skipn 2 result). subst result.
    destruct HL as [-> | ->], s1, s2, e1, e2; cbn; repeat split; lia.
  - clear N.
    assert (Lead : s1 = true -> L0 = [line]).
    { intros E. destruct (Starts E) as (rest & R).
      destruct HL as [-> | ->]; [|reflexivity].
      cbn [map] in R. rewrite joinParts_cons in R. discriminate. }
    assert (Trail : e1 = true -> T0 = [line]).
    { intros E. destruct (Ends E) as (front & R).
      destruct HT as [-> | ->]; [|reflexivity].
      destruct (WordFacts.joined_words_end w ws) as (P & x & J).
      rewrite J, app_nil_r, app_assoc in R.
      apply app_inj_tail in R as [_ R]. discriminate. }
    set (J := joinParts line (map DStr (w :: ws))) in *.
    set (L1 := if s1 then [hardline] else L0).
    assert (D1 : (if s1 then setFirst hardline (L0 ++ J ++ T0) else L0 ++ J ++ T0)
                 = L1 ++ J ++ T0).
    { subst L1. destruct s1; [|reflexivity]. now rewrite (Lead eq_refl). }
    rewrite D1. clear D1.
    set (L2 := if s2 then hardline :: L1 else L1).
    assert (D2 : (if s2 then hardline :: L1 ++ J ++ T0 else L1 ++ J ++ T0)
                 = L2 ++ J ++ T0).
    { subst L2. now destruct s2. }
    rewrite D2. clear D2.
    set (T3 := if e1 then [hardline] else T0).
    assert (D3 : (if e1 then setLast hardline (L2 ++ J ++ T0) else L2 ++ J ++ T0)
                 = L2 ++ J ++ T3).
    { subst T3. destruct e1; [|reflexivity]. rewrite (Trail eq_refl).
      now rewrite !app_assoc, TextFacts.setLast_snoc. }
    rewrite D3. clear D3.
    exists L2, (if e2 then T3 ++ [hardline] else T3).
    split; [destruct e2; [now rewrite <- !app_assoc | reflexivity]|].
    subst L2 L1 T3. clear Lead Trail Starts Ends.
    destruct HL as [-> | ->], HT as [-> | ->], s1, s2, e1, e2; cbn; repeat split; lia.
Qed.

(** ** The text of a class attribute *)

Module ClassTextFacts.
Import JsStringFacts.

Lemma withoutBlanks_cons (c : ascii) (r : string) :
  withoutBlanks (String c r)
  = if isSpaceOrTab c then withoutBlanks r else String c (withoutBlanks r).
Proof. reflexivity. Qed.

Lemma withoutBlanks_append (a b : string) :
  withoutBlanks (a ++ b) = (withoutBlanks a ++ withoutBlanks b)%string.
Proof.
  induction a as [|c a IH]; [reflexivity|].
  cbn [append withoutBlanks]. destruct (isSpaceOrTab c); cbn [append]; now rewrite IH.
Qed.

Lemma withoutBlanks_rev (s : string) :
  withoutBlanks (JsString.rev s) = JsString.rev (withoutBlanks s).
Proof.
  induction s as [|c s IH]; [reflexivity|].
  cbn [JsString.rev withoutBlanks]. rewrite withoutBlanks_append, IH.
  cbn [withoutBlanks]. destruct (isSpaceOrTab c); cbn [JsString.rev];
    [now rewrite append_empty_r | reflexivity].
Qed.

Lemma dropBlanks_keeps (s : string) : withoutBlanks (dropBlanks s) = withoutBlanks s.
Proof.
  induction s as [|c s IH]; [reflexivity|].
  cbn [dropBlanks withoutBlanks]. destruct (isSpaceOrTab c) eqn:E; [exact IH|].
  cbn [withoutBlanks]. now rewrite E.
Qed.

Lemma length_withoutBlanks (s : string) :
  String.length (withoutBlanks s) <= String.length s.
Proof.
  induction s as [|c s IH]; [constructor|].
  cbn [withoutBlanks]. destruct (isSpaceOrTab c); cbn [String.length]; lia.
Qed.

Lemma notBlankNorLF_kept (x : ascii) : notBlankNorLF x = true -> isSpaceOrTab x = false.
Proof.
  unfold notBlankNorLF. intros E. apply andb_true_iff in E as [E _].
  now apply negb_true_iff in E.
Qed.

Lemma LF_kept (x : ascii) : JsString.isLF x = true -> isSpaceOrTab x = false.
Proof.
  intros E. apply isLF_eq in E. subst x. reflexivity.
Qed.

Lemma collapseBlanks_keeps (n : nat) :
  forall s pending,
    String.length s <= n -> pendingBlank pending ->
    withoutBlanks (collapseBlanks pending s)
    = (pendingKept pending ++ withoutBlanks s)%string.
Proof.
  induction n as [|n IH]; intros s pending Len Blank.
  - destruct s; [|cbn in Len; lia].
    destruct pending as [[c run]|]; [|reflexivity].
    destruct Blank as [Hc Hrun]. cbn [collapseBlanks withoutBlanks pendingKept append].
    now rewrite Hc, Hrun.
  - destruct s as [|x r].
    { destruct pending as [[c run]|]; [|reflexivity].
      destruct Blank as [Hc Hrun]. cbn [collapseBlanks withoutBlanks pendingKept append].
      now rewrite Hc, Hrun. }
    cbn [String.length] in Len.
    assert (Scan :
      withoutBlanks
        (if notBlankNorLF x && JsString.startsWith isSpaceOrTab r
         then collapseBlanks (Some (x, EmptyString)) r
         else String x (collapseBlanks None r))
      = withoutBlanks (String x r)).
    { destruct (notBlankNorLF x && JsString.startsWith isSpaceOrTab r) eqn:E.
      - apply andb_true_iff in E as [E _]. apply notBlankNorLF_kept in E.
        rewrite IH; [|lia | now split]. cbn [pendingKept append withoutBlanks].
        now rewrite E.
      - cbn [withoutBlanks]. rewrite (IH r None); [|lia | exact I]. reflexivity. }
    cbn [collapseBlanks]. destruct pending as [[c run]|]; [|exact Scan].
    destruct Blank as [Hc Hrun]. cbn [pendingKept append].
    destruct (isSpaceOrTab x) eqn:Ex.
    + rewrite IH; [|lia|].
      * cbn [pendingKept append withoutBlanks]. now rewrite Ex.
      * split; [exact Hc|]. rewrite withoutBlanks_append, Hrun.
        cbn [withoutBlanks append]. now rewrite Ex.
    + destruct (JsString.isLF x) eqn:Lx.
      * cbn [withoutBlanks]. rewrite Hc, Ex, (IH r None); [reflexivity | lia | exact I].
      * assert (Spaced :
          withoutBlanks
            (String c
               (String JsString.SP
                  (if notBlankNorLF x && JsString.startsWith isSpaceOrTab r
                   then collapseBlanks (Some (x, EmptyString)) r
                   else String x (collapseBlanks None r))))
          = String c (withoutBlanks (String x r))).
        { rewrite (withoutBlanks_cons c), Hc, (withoutBlanks_cons JsString.SP).
          change (isSpaceOrTab JsString.SP) with true. cbn iota. now rewrite Scan. }
        destruct r as [|y r']; [exact Spaced|].
        destruct (Ascii.eqb x JsString.CR && JsString.isLF y) eqn:Crlf; [|exact Spaced].
        apply andb_true_iff in Crlf as [_ Ly]. apply LF_kept in Ly.
        cbn [withoutBlanks]. rewrite Hc, Ex, Ly.
        rewrite (IH r' None); [reflexivity | cbn [String.length] in Len; lia | exact I].
Qed.

Lemma dropBlanks_head (s : string) (c : ascii) (before : string) :
  dropBlanks s = String c before -> isSpaceOrTab c = false.
Proof.
  induction s as [|x s IH]; [discriminate|].
  cbn [dropBlanks]. destruct (isSpaceOrTab x) eqn:E; [exact IH|].
  now intros [= <- _].
Qed.

Lemma shrinkTrailingBlanks_keeps (keepSpace : bool) (s : string) :
  withoutBlanks (shrinkTrailingBlanks keepSpace s) = withoutBlanks s.
Proof.
  unfold shrinkTrailingBlanks.
  destruct (JsString.rev s) as [|b r] eqn:E; [reflexivity|].
  destruct (isSpaceOrTab b) eqn:Eb; [|reflexivity].
  destruct (dropBlanks r) as [|c before] eqn:Ed; [reflexivity|].
  destruct (JsString.isLF c); [reflexivity|].
  rewrite withoutBlanks_append.
  replace (withoutBlanks (if keepSpace then " " else EmptyString)) with EmptyString
    by (now destruct keepSpace).
  rewrite append_empty_r, withoutBlanks_rev, <- Ed, dropBlanks_keeps.
  rewrite <- (rev_involutive s), E, withoutBlanks_rev.
  cbn [withoutBlanks]. now rewrite Eb.
Qed.

End ClassTextFacts.

(** ** Delimiters, quotes and the end of a fragment *)

Lemma text_opens (prefix text rest closing : string) :
  text = (prefix ++ rest)%string ->
  (exists m, rest = (m ++ closing)%string) ->
  exists middle, text = (prefix ++ middle ++ closing)%string.
Proof. intros -> (m & ->). now exists m. Qed.

Ltac delimited :=
  text_shape;
  eapply text_opens; [cbn [append]; reflexivity | close_tag].

(** X20.  An if block, an each block, a key block and an await block print
    between their own delimiters: the text of the document opens with
    [{#if ], [{#each ], [{#key ] or [{#await ] and closes with the
    matching [{/if}], [{/each}], [{/key}] or [{/await}]. *)
Theorem logic_blocks_print_their_delimiters
  (H : Helpers) (node : Node) (rest : FastPath) (options : ParserOptions)
  (cb : PrintFn) (g : Globals) (d : Doc) (g' : Globals) :
  suppressed H g node = false ->
  print H (VNode node :: rest) options cb g = (Returned d, g') ->
  match node with
  | IfBlock _ _ _ _ => exists middle, docText d = ("{#if " ++ middle ++ "{/if}")%string
  | EachBlock _ _ _ _ _ _ _ =>
      exists middle, docText d = ("{#each " ++ middle ++ "{/each}")%string
  | KeyBlock _ _ _ => exists middle, docText d = ("{#key " ++ middle ++ "{/key}")%string
  | AwaitBlock _ _ _ _ _ _ _ =>
      exists middle, docText d = ("{#await " ++ middle ++ "{/await}")%string
  | _ => True
  end.
Proof.
  intros S Run. rewrite (print_normal H _ _ _ _ _ S) in Run.
  destruct node; try exact I; cbn [printNode] in Run.
  - unfold printIfBlock in Run. invert_run Run. delimited.
  - unfold printEachBlock in Run. invert_run Run. delimited.
  - unfold printAwaitBlock in Run. invert_run Run.
    all: repeat match goal with
                | E : (if _ then _ else _) _ = (Returned _, _) |- _ => invert_run E
                | E : bind _ _ _ = (Returned _, _) |- _ => invert_run E
                end.
    all: delimited.
  - unfold printKeyBlock in Run. invert_run Run. delimited.
Qed.

Lemma each_block_witness :
  let options := Sample.options EmptyString Sample.defaultOrder false true false in
  let node :=
    EachBlock (mkLoc 0 0) (Sample.ident "items") (PIdentifier "item") (Some "i") None
      [] None in
  exists d,
    print Sample.helpers [VNode node] options Sample.labels initialGlobals
    = (Returned d, initialGlobals)
    /\ docText d = "{#each  as item, i}{/each}".
Proof.
  cbv zeta. eexists. split; [reflexivity|].
  destruct (logic_blocks_print_their_delimiters Sample.helpers
              (EachBlock (mkLoc 0 0) (Sample.ident "items") (PIdentifier "item")
                 (Some "i") None [] None) []
              (Sample.options EmptyString Sample.defaultOrder false true false)
              Sample.labels initialGlobals _ initialGlobals eq_refl eq_refl)
    as (middle & E).
  reflexivity.
Defined.

(** X27.  An attribute that is no shorthand.  Without a value it prints as
    its name alone.  With a value it prints as its name, [=], and the
    value between double quotes, unless the value is one mustache tag
    and strict mode is off: then the value follows the [=] as it is. *)
Theorem attribute_value_is_quoted_unless_one_tag
  (H : Helpers) (loc : Loc) (name : string) (value : AttrValue Node)
  (rest : FastPath) (options : ParserOptions) (cb : PrintFn) (g : Globals)
  (d : Doc) (g' : Globals) :
  let node := Attribute loc name value in
  suppressed H g node = false ->
  isOrCanBeConvertedToShorthand node = false ->
  print H (VNode node :: rest) options cb g = (Returned d, g') ->
  match value with
  | ValueTrue => d = concat [DStr name] /\ g' = g
  | ValueNodes _ =>
      let quote :=
        if negb (isLoneMustacheTag value) || svelteStrictMode options
        then dquote else EmptyString in
      exists printed,
        printAttributeNodeValue H (VNode node :: rest) cb
          (negb (isLoneMustacheTag value) || svelteStrictMode options) node g
        = (Returned printed, g')
        /\ docText d = (name ++ "=" ++ quote ++ docText printed ++ quote)%string
  end.
Proof.
  intros node S Long Run. rewrite (print_normal H _ _ _ _ _ S) in Run.
  cbn [printNode node] in Run. unfold printAttribute in Run. fold node in Run.
  rewrite Long in Run. destruct value as [|nodes].
  - unfold ret in Run. now injection Run as <- <-.
  - cbv zeta in *. apply bind_returned in Run as (printed & g1 & E & Run).
    destruct (negb (isLoneMustacheTag (ValueNodes nodes)) || svelteStrictMode options);
      unfold ret in Run; injection Run as <- <-; exists printed;
      (split; [exact E|]); text_shape;
      now rewrite ?JsStringFacts.append_empty_r.
Qed.

Lemma quoted_attribute_witness :
  let options := Sample.options EmptyString Sample.defaultOrder false true false in
  let node := Attribute (mkLoc 0 7) "id" (ValueNodes [Text (mkLoc 4 6) "ab" "ab"]) in
  let d :=
    concat [DStr "id"; DStr "="; DStr dquote; concat [fill [DStr "ab"]]; DStr dquote] in
  print Sample.helpers [VNode node] options (Sample.printTree 3 options) initialGlobals
  = (Returned d, initialGlobals)
  /\ docText d = ("id=" ++ dquote ++ "ab" ++ dquote)%string.
Proof.
  cbv zeta. split; [reflexivity|].
  destruct (attribute_value_is_quoted_unless_one_tag Sample.helpers (mkLoc 0 7) "id"
              (ValueNodes [Text (mkLoc 4 6) "ab" "ab"]) []
              (Sample.options EmptyString Sample.defaultOrder false true false)
              (Sample.printTree 3
                 (Sample.options EmptyString Sample.defaultOrder false true false))
              initialGlobals
              (concat [DStr "id"; DStr "="; DStr dquote; concat [fill [DStr "ab"]];
                       DStr dquote])
              initialGlobals eq_refl eq_refl eq_refl)
    as (printed & _ & _).
  reflexivity.
Defined.

(** X28.  A fragment outside pre-tag content prints as the empty string or as
    a group that ends with a hard line.  It is the empty string, and the
    child printer is not called, when the fragment has no child or
    nothing but whitespace-only text. *)
Theorem fragment_ends_with_a_hard_line
  (H : Helpers) (loc : Loc) (children : list Node) (rest : FastPath)
  (options : ParserOptions) (cb : PrintFn) (g : Globals) (d : Doc) (g' : Globals) :
  let node := Fragment loc children in
  suppressed H g node = false ->
  isPreTagContent H (VNode node :: rest) = false ->
  print H (VNode node :: rest) options cb g = (Returned d, g') ->
  (d = DStr EmptyString \/ exists output, d = groupConcat (output ++ [hardline]))
  /\ (forallb isEmptyTextNode children = true -> d = DStr EmptyString /\ g' = g).
Proof.
  intros node S Pre Run. rewrite (print_normal H _ _ _ _ _ S) in Run.
  cbn [printNode node] in Run. unfold printFragment in Run. fold node in Run.
  rewrite Pre in Run. cbn [negb] in Run.
  destruct (forallb isEmptyTextNode children) eqn:Blank.
  - rewrite orb_true_r in Run. unfold ret in Run. injection Run as <- <-.
    split; [now left | now intros _].
  - split; [|discriminate].
    destruct (length children =? 0); cbn [orb] in Run.
    + unfold ret in Run. injection Run as <- _. now left.
    + invert_run Run; [now left | right; eexists; reflexivity].
Qed.

Lemma fragment_witness :
  let options := Sample.options "a" Sample.defaultOrder false true false in
  let node := Fragment (mkLoc 0 1) [Text (mkLoc 0 1) "a" "a"] in
  let d := groupConcat ([concat [DStr EmptyString]] ++ [hardline]) in
  print Sample.helpers [VNode node] options Sample.labels initialGlobals
  = (Returned d, initialGlobals)
  /\ (d = DStr EmptyString \/ exists output, d = groupConcat (output ++ [hardline])).
Proof.
  cbv zeta. split; [reflexivity|].
  exact (proj1
           (fragment_ends_with_a_hard_line Sample.helpers (mkLoc 0 1)
              [Text (mkLoc 0 1) "a" "a"] []
              (Sample.options "a" Sample.defaultOrder false true false)
              Sample.labels initialGlobals
              (groupConcat ([concat [DStr EmptyString]] ++ [hardline]))
              initialGlobals eq_refl eq_refl eq_refl)).
Defined.

Lemma element_tags_witness :
  let options := Sample.options EmptyString Sample.defaultOrder true true false in
  let node := ElementLike Element (mkLoc 0 11) "div" [] [] None None in
  let d :=
    groupConcat
      [DStr "<"; DStr "div";
       indent (groupConcat [DStr EmptyString; dedent softline]);
       DStr ">"; DStr EmptyString; DStr "</div>"] in
  print Sample.helpers [VNode node] options Sample.labels initialGlobals
  = (Returned d, initialGlobals)
  /\ exists middle, docText d = ("<div" ++ middle ++ "</div>")%string.
Proof.
  cbv zeta. split; [reflexivity|].
  exact (element_prints_its_tags Sample.helpers Element (mkLoc 0 11) "div" [] [] None
           None []
           (Sample.options EmptyString Sample.defaultOrder true true false)
           Sample.labels initialGlobals
           (groupConcat
              [DStr "<"; DStr "div";
               indent (groupConcat [DStr EmptyString; dedent softline]);
               DStr ">"; DStr EmptyString; DStr "</div>"])
           initialGlobals eq_refl eq_refl).
Defined.

(** ** Class text and patterns *)

(** X24.  The text of a [class] attribute of an element is printed tidied, and
    tidying touches spaces and tabs only: without them the text is the
    same before and after, every other character in its place, the line
    ends among them. *)
Theorem class_text_keeps_all_but_blanks
  (H : Helpers) (loc : Loc) (raw data : string) (attrLoc : Loc)
  (value : AttrValue Node) (kLoc : Loc) (tagName : string)
  (attributes children : list Node) (expression : option Node)
  (tag : option (TagValue Node)) (rest : FastPath) (options : ParserOptions)
  (cb : PrintFn) (g : Globals) :
  let node := Text loc raw data in
  let parent := Attribute attrLoc "class" value in
  let element := ElementLike Element kLoc tagName attributes children expression tag in
  let path := VNode node :: VNode parent :: VNode element :: rest in
  let tidied := normalizeClassText raw node parent in
  suppressed H g node = false ->
  isPreTagContent H path = true ->
  print H path options cb g
  = (Returned (concat (replaceEndOfLineWith H tidied literalline)), g)
  /\ withoutBlanks tidied = withoutBlanks raw.
Proof.
  intros node parent element path tidied S Pre. split.
  - unfold path. rewrite (print_normal H _ _ _ _ _ S). cbn [printNode node].
    unfold printText. fold node. fold path. rewrite Pre. reflexivity.
  - unfold tidied, normalizeClassText.
    rewrite ClassTextFacts.shrinkTrailingBlanks_keeps.
    now rewrite (ClassTextFacts.collapseBlanks_keeps (String.length raw) raw None
                   (le_n _) I).
Qed.

Lemma class_text_witness :
  let options := Sample.options EmptyString Sample.defaultOrder false true false in
  let node := Text (mkLoc 12 20) "a   b   " "a   b   " in
  let parent := Attribute (mkLoc 5 21) "class" (ValueNodes [node]) in
  let element :=
    ElementLike Element (mkLoc 0 28) "pre" [parent] [] None None in
  print Sample.helpers [VNode node; VNode parent; VNode element] options Sample.labels
    initialGlobals
  = (Returned (concat [DStr "a b"]), initialGlobals)
  /\ withoutBlanks "a b" = withoutBlanks "a   b   ".
Proof.
  cbv zeta.
  exact (class_text_keeps_all_but_blanks Sample.helpers (mkLoc 12 20) "a   b   "
           "a   b   " (mkLoc 5 21)
           (ValueNodes [Text (mkLoc 12 20) "a   b   " "a   b   "]) (mkLoc 0 28) "pre"
           [Attribute (mkLoc 5 21) "class"
              (ValueNodes [Text (mkLoc 12 20) "a   b   " "a   b   "])]
           [] None None []
           (Sample.options EmptyString Sample.defaultOrder false true false)
           Sample.labels initialGlobals eq_refl eq_refl).
Defined.

(** X6.  A pattern made of identifiers, literals, arrays, objects with
    identifier keys, defaults and rest elements is always expanded, to a
    text that begins with a space: the keyword in front of a pattern
    ([as], [then], [catch]) never runs into it. *)
Theorem plain_pattern_expands_behind_a_space (H : Helpers) :
  forall (p : Pattern) (parent : bool),
    plainPattern p = true ->
    exists s, expandNode H p parent = Returned (String " " s).
Proof. exact (expandNode_plain H). Qed.

Lemma plain_pattern_witness :
  let p :=
    PObjectPattern
      [PProperty (PIdentifier "a") (PArray true [PNull; PIdentifier "b"]);
       PRestElement (PIdentifier "rest")] in
  plainPattern p = true
  /\ exists s, expandNode Sample.helpers p false = Returned (String " " s).
Proof.
  cbv zeta. split; [reflexivity|].
  exact (plain_pattern_expands_behind_a_space Sample.helpers
           (PObjectPattern
              [PProperty (PIdentifier "a") (PArray true [PNull; PIdentifier "b"]);
               PRestElement (PIdentifier "rest")])
           false eq_refl).
Defined.

(** ** Softlines between children *)

Section WovenChildren.

Context (H : Helpers) (path : FastPath) (node : Node) (cb : PrintFn)
  (options : ParserOptions) (nodes : list Node).

Hypothesis no_text : forallb (fun c => negb (isText c)) nodes = true.

Lemma last_some_snoc (l : list Node) (x : Node) :
  last (map Some (l ++ [x])) None = Some x.
Proof. rewrite map_app. cbn [map]. apply last_last. Qed.

Lemma nth_error_middle (done : list Node) (n : Node) (rest : list Node) :
  nth_error (done ++ n :: rest) (length done) = Some n.
Proof. induction done as [|x done IH]; [reflexivity | exact IH]. Qed.

Lemma nth_error_next (done : list Node) (n : Node) (rest : list Node) :
  nth_error (done ++ n :: rest) (length done + 1)
  = match rest with x :: _ => Some x | [] => None end.
Proof.
  induction done as [|x done IH]; [now destruct rest | exact IH].
Qed.

Lemma not_text_here (done : list Node) (n : Node) (rest : list Node) :
  nodes = done ++ n :: rest -> isText n = false.
Proof.
  intros E. rewrite E, forallb_app in no_text.
  apply andb_true_iff in no_text as [_ All]. cbn [forallb] in All.
  apply andb_true_iff in All as [N _]. now apply negb_true_iff in N.
Qed.

Lemma rev_cases (l : list Node) : l = [] \/ exists l' x, l = l' ++ [x].
Proof.
  destruct l as [|a l]; [now left|]. right.
  destruct (@exists_last _ (a :: l) ltac:(discriminate)) as (l' & x & E).
  now exists l', x.
Qed.

(** One turn of the loop on a child that is not a text node: a block
    element puts a [softline] in front of itself unless a block element
    stands there, and one behind itself unless it is the last child; any
    other child puts none. *)
Lemma childStep_woven (done : list Node) (n : Node) (rest : list Node)
  (docs : list Doc) (g : Globals) :
  nodes = done ++ n :: rest ->
  childStep H path node cb options (length done)
    (mkChildrenState nodes docs false) g
  = mapReturned
      (fun d =>
         mkChildrenState nodes
           (docs
            ++ match last (map Some done) None with
               | Some p =>
                   if isBlockElement H n options && negb (isBlockElement H p options)
                   then [softline] else []
               | None => []
               end
            ++ [d]
            ++ match rest with
               | _ :: _ => if isBlockElement H n options then [softline] else []
               | [] => []
               end)
           false)
      (pathCall cb (childrenPath path node nodes) n g).
Proof.
  intros Split.
  pose proof (not_text_here done n rest Split) as NotText.
  assert (Here : nth_error nodes (length done) = Some n)
    by (rewrite Split; apply nth_error_middle).
  assert (After : nth_error nodes (length done + 1)
                  = match rest with x :: _ => Some x | [] => None end)
    by (rewrite Split; apply nth_error_next).
  unfold childStep. cbn [childNodes]. rewrite Here, NotText.
  destruct (isBlockElement H n options) eqn:Block.
  - unfold handleBlockChild. cbn [childNodes childDocs handleWhitespaceOfPrevTextNode].
    unfold printChild. rewrite Here, After.
    unfold bind, ret, mapReturned.
    destruct (pathCall cb (childrenPath path node nodes) n g) as [[d| msg |] g1];
      [|reflexivity..].
    assert (Before :
      match length done with
      | 0 => false
      | S before =>
          match nth_error nodes before with
          | Some prevChild =>
              negb (isBlockElement H prevChild options)
              && (negb (isText prevChild) || false
                  || negb (isTextNodeEndingWithWhitespace H prevChild))
          | None => false
          end
      end
      = match last (map Some done) None with
        | Some p => negb (isBlockElement H p options)
        | None => false
        end).
    { destruct (rev_cases done) as [-> | (done' & p & ->)]; [reflexivity|].
      rewrite last_some_snoc, length_app, Nat.add_comm. cbn [length Nat.add].
      assert (Prev : nth_error nodes (length done') = Some p).
      { rewrite Split, <- app_assoc. apply nth_error_middle. }
      rewrite Prev.
      rewrite (not_text_here done' p (n :: rest))
        by (rewrite Split; now rewrite <- app_assoc).
      cbn [negb orb]. now rewrite andb_true_r. }
    rewrite Before. clear Before.
    assert (Behind : forall y rest', rest = y :: rest' -> isText y = false).
    { intros y rest' ->. apply (not_text_here (done ++ [n]) y rest').
      now rewrite <- app_assoc. }
    destruct rest as [|y rest'];
      [|rewrite (Behind y rest' eq_refl)];
      destruct (last (map Some done) None) as [p|]; cbn [andb negb orb];
      try destruct (isBlockElement H p options); cbn [negb];
      rewrite <- ?app_assoc; reflexivity.
  - assert (Plain :
      forall m : M ChildrenState,
        m = (d <- printChild path node cb nodes (length done) ;;
             ret (mkChildrenState nodes (docs ++ [d]) false)) ->
        m g
        = mapReturned
            (fun d =>
               mkChildrenState nodes
                 (docs
                  ++ match last (map Some done) None with
                     | Some p =>
                         if false && negb (isBlockElement H p options)
                         then [softline] else []
                     | None => []
                     end
                  ++ [d]
                  ++ match rest with _ :: _ => [] | [] => [] end)
                 false)
            (pathCall cb (childrenPath path node nodes) n g)).
    { intros m ->. unfold printChild. rewrite Here. unfold bind, ret, mapReturned.
      destruct (pathCall cb (childrenPath path node nodes) n g) as [[d| msg |] g1];
        [|reflexivity..].
      do 3 f_equal. cbn [andb].
      destruct (last (map Some done) None), rest; reflexivity. }
    destruct (isInlineElement H (childrenPath path node nodes) options n).
    + apply Plain. reflexivity.
    + apply Plain. reflexivity.
Qed.

(** The loop from some child on.  [before] is what the children printed
    so far have given, but for the [softline] a block element has
    already put behind itself. *)
Lemma childLoop_woven :
  forall (rest done : list Node) (before : list Doc) (g : Globals),
    nodes = done ++ rest ->
    childLoop H path node cb options (seq (length done) (length rest))
      (mkChildrenState nodes
         (before
          ++ match last (map Some done) None, rest with
             | Some p, _ :: _ => if isBlockElement H p options then [softline] else []
             | _, _ => []
             end)
         false) g
    = mapReturned
        (fun docs =>
           mkChildrenState nodes
             (before ++ woven H options (last (map Some done) None) (combine rest docs))
             false)
        (mapM (fun child => pathCall cb (childrenPath path node nodes) child) rest g).
Proof.
  induction rest as [|n rest IH]; intros done before g Split.
  - cbn [length seq childLoop mapM]. unfold ret, mapReturned. cbn [combine woven].
    destruct (last (map Some done) None); reflexivity.
  - cbn [length seq childLoop mapM]. unfold bind at 1.
    rewrite (childStep_woven done n rest _ g Split).
    unfold bind at 1. unfold mapReturned at 1.
    destruct (pathCall cb (childrenPath path node nodes) n g) as [[d| msg |] g1];
      [|reflexivity..].
    set (separator :=
           match last (map Some done) None with
           | Some p =>
               if isBlockElement H p options || isBlockElement H n options
               then [softline] else []
           | None => []
           end).
    specialize (IH (done ++ [n]) (before ++ separator ++ [d]) g1).
    rewrite length_app, Nat.add_comm, last_some_snoc in IH. cbn [length Nat.add] in IH.
    replace ((before
              ++ match last (map Some done) None with
                 | Some p => if isBlockElement H p options then [softline] else []
                 | None => []
                 end)
             ++ match last (map Some done) None with
                | Some p =>
                    if isBlockElement H n options && negb (isBlockElement H p options)
                    then [softline] else []
                | None => []
                end
             ++ [d]
             ++ match rest with
                | _ :: _ => if isBlockElement H n options then [softline] else []
                | [] => []
                end)
      with ((before ++ separator ++ [d])
            ++ match rest with
               | _ :: _ => if isBlockElement H n options then [softline] else []
               | [] => []
               end).
    + rewrite IH by (rewrite <- app_assoc; exact Split).
      unfold bind, ret, mapReturned.
      destruct (mapM _ rest g1) as [[docs| |] g2]; try reflexivity.
      cbn [combine woven]. fold separator. rewrite <- !app_assoc. reflexivity.
    + subst separator. rewrite <- !app_assoc. f_equal.
      destruct (last (map Some done) None) as [p|]; [|reflexivity].
      destruct (isBlockElement H p options), (isBlockElement H n options);
        reflexivity.
Qed.

End WovenChildren.

(** X26.  Children none of which is a text node, outside pre-tag content.  Each
    child is printed once, in order; between two neighbours stands a
    [softline] exactly when one of them is a block element, and nothing
    else is added but the closing [breakParent] of a list of several
    children with a block element among them. *)
Theorem softline_between_block_neighbours
  (H : Helpers) (node : Node) (children : list Node) (rest : FastPath)
  (options : ParserOptions) (cb : PrintFn) (g : Globals)
  (prepared : list Node) (g1 : Globals) :
  let path := VNode node :: rest in
  let path' := replaceValue path (setChildren node prepared) in
  nodeChildren node = Some children ->
  isPreTagContent H path = false ->
  prepareChildren H children path cb options g = (Returned prepared, g1) ->
  prepared <> [] ->
  forallb (fun c => negb (isText c)) prepared = true ->
  printChildren H path cb options g
  = mapReturned
      (fun docs =>
         (concat
            (woven H options None (combine prepared docs)
             ++ (if (1 <? length prepared)
                    && existsb (fun c => isBlockElement H c options) prepared
                 then [breakParent] else [])),
          path'))
      (pathMap cb path' prepared g1).
Proof.
  intros path path' Children Pre Prepared Some_ NoText.
  unfold printChildren. cbn [getValue hd path]. rewrite Children. fold path. rewrite Pre.
  unfold bind at 1. rewrite Prepared.
  destruct (length prepared =? 0) eqn:L.
  { apply Nat.eqb_eq in L. destruct prepared; [congruence | discriminate]. }
  pose proof (childLoop_woven H path node cb options prepared NoText prepared [] [] g1
                eq_refl) as Loop.
  cbn [length map last app] in Loop. unfold bind. rewrite Loop.
  unfold pathMap, pathCall, mapReturned, childrenPath, ret, path'.
  destruct (mapM _ prepared g1) as [[docs| |] g2]; reflexivity.
Qed.

Lemma two_blocks_witness :
  let options := Sample.options EmptyString Sample.defaultOrder false true false in
  let first := ElementLike Element (mkLoc 0 13) "span" [] [] None None in
  let second := ElementLike Element (mkLoc 13 26) "span" [] [] None None in
  let block := ElementLike Element (mkLoc 26 37) "div" [] [] None None in
  let node := Fragment (mkLoc 0 37) [first; second; block] in
  printChildren Sample.helpers [VNode node] Sample.labels options initialGlobals
  = (Returned
       (concat [DStr EmptyString; DStr EmptyString; softline; DStr EmptyString;
                breakParent],
        [VNode node]), initialGlobals).
Proof.
  cbv zeta.
  exact (softline_between_block_neighbours Sample.helpers
           (Fragment (mkLoc 0 37)
              [ElementLike Element (mkLoc 0 13) "span" [] [] None None;
               ElementLike Element (mkLoc 13 26) "span" [] [] None None;
               ElementLike Element (mkLoc 26 37) "div" [] [] None None])
           [ElementLike Element (mkLoc 0 13) "span" [] [] None None;
            ElementLike Element (mkLoc 13 26) "span" [] [] None None;
            ElementLike Element (mkLoc 26 37) "div" [] [] None None]
           [] (Sample.options EmptyString Sample.defaultOrder false true false)
           Sample.labels initialGlobals
           [ElementLike Element (mkLoc 0 13) "span" [] [] None None;
            ElementLike Element (mkLoc 13 26) "span" [] [] None None;
            ElementLike Element (mkLoc 26 37) "div" [] [] None None]
           initialGlobals eq_refl eq_refl eq_refl ltac:(discriminate) eq_refl).
Defined.

(** ** Class names on one line *)

Module ClassLineFacts.
Import JsStringFacts.

Lemma classChar_kept (x : ascii) :
  isClassChar x = true ->
  notBlankNorLF x = true /\ isSpaceOrTab x = false /\ JsString.isLF x = false
  /\ Ascii.eqb x JsString.CR = false.
Proof.
  unfold isClassChar, notBlankNorLF. intros E.
  apply andb_true_iff in E as [E C]. apply andb_true_iff in E as [B L].
  apply negb_true_iff in B, L, C. rewrite B, L, C. now repeat split.
Qed.

(** A name character read while blanks are pending: the blanks give one
    space. *)
Lemma pending_then_name (c : ascii) (run pending : string) (x : ascii) (r : string) :
  JsString.forallb isSpaceOrTab run = true -> isClassChar x = true ->
  collapseBlanks (Some (c, pending)) (run ++ String x r)
  = String c (String JsString.SP (collapseBlanks None (String x r))).
Proof.
  intros Run Hx. destruct (classChar_kept x Hx) as (_ & B & L & C).
  revert pending. induction run as [|b run IH]; intros pending.
  - cbn [append collapseBlanks]. rewrite B, L, C. cbn [andb].
    destruct r; reflexivity.
  - cbn [JsString.forallb] in Run. apply andb_true_iff in Run as [Hb Run].
    cbn [append collapseBlanks]. rewrite Hb. now apply IH.
Qed.

Lemma name_then (w tail : string) :
  JsString.forallb isClassChar w = true ->
  JsString.startsWith isSpaceOrTab tail = false ->
  collapseBlanks None (w ++ tail) = (w ++ collapseBlanks None tail)%string.
Proof.
  intros Hw Tail. induction w as [|x w IH]; [reflexivity|].
  cbn [JsString.forallb] in Hw. apply andb_true_iff in Hw as [Hx Hw].
  destruct (classChar_kept x Hx) as (N & B & L & C).
  cbn [append collapseBlanks]. rewrite N. cbn [andb].
  assert (Next : JsString.startsWith isSpaceOrTab (w ++ tail) = false).
  { destruct w as [|y w]; [exact Tail|]. cbn [append JsString.startsWith].
    cbn [JsString.forallb] in Hw. apply andb_true_iff in Hw as [Hy _].
    now destruct (classChar_kept y Hy) as (_ & -> & _). }
  rewrite Next. now rewrite IH.
Qed.

Lemma name_then_blanks (w run : string) (x : ascii) (r : string) :
  isClassWord w = true -> isBlankRun run = true -> isClassChar x = true ->
  collapseBlanks None (w ++ run ++ String x r)
  = (w ++ " " ++ collapseBlanks None (String x r))%string.
Proof.
  unfold isClassWord, isBlankRun. intros Hw Hrun Hx.
  apply andb_true_iff in Hw as [NEw Hw]. apply andb_true_iff in Hrun as [NErun Hrun].
  destruct run as [|b run]; [discriminate|]. clear NErun.
  induction w as [|y w IH]; [discriminate|]. clear NEw.
  cbn [JsString.forallb] in Hw. apply andb_true_iff in Hw as [Hy Hw].
  destruct (classChar_kept y Hy) as (N & B & L & C).
  cbn [append collapseBlanks]. rewrite N. cbn [andb].
  destruct w as [|z w].
  - cbn [append JsString.startsWith]. cbn [JsString.forallb] in Hrun.
    apply andb_true_iff in Hrun as [Hb Hrun']. rewrite Hb.
    change (String b (run ++ String x r)) with (String b run ++ String x r)%string.
    rewrite pending_then_name; [reflexivity | | exact Hx].
    cbn [JsString.forallb]. now rewrite Hb.
  - cbn [append JsString.startsWith].
    pose proof Hw as Hw'. cbn [JsString.forallb] in Hw'.
    apply andb_true_iff in Hw' as [Hz _].
    destruct (classChar_kept z Hz) as (_ & -> & _).
    f_equal. apply IH; [reflexivity | exact Hw].
Qed.

Lemma classLine_head (names : list (string * string)) (lastName : string) :
  Forall (fun e => isClassWord (fst e) && isBlankRun (snd e) = true) names ->
  isClassWord lastName = true ->
  exists x r, classLine names lastName = String x r /\ isClassChar x = true.
Proof.
  assert (Word : forall w tail, isClassWord w = true ->
            exists x r, (w ++ tail)%string = String x r /\ isClassChar x = true).
  { intros w tail Hw. unfold isClassWord in Hw. apply andb_true_iff in Hw as [NE Hw].
    destruct w as [|x w]; [discriminate|]. cbn [JsString.forallb] in Hw.
    apply andb_true_iff in Hw as [Hx _]. now exists x, (w ++ tail)%string. }
  intros All Last. destruct names as [|[w run] rest].
  - destruct (Word lastName EmptyString Last) as (x & r & E & Hx).
    rewrite append_empty_r in E. now exists x, r.
  - inversion All as [|? ? Hd _]; subst. cbn [fst snd] in Hd.
    apply andb_true_iff in Hd as [Hw _]. cbn [classLine]. now apply Word.
Qed.

Lemma collapse_classLine (names : list (string * string)) (lastName : string) :
  Forall (fun e => isClassWord (fst e) && isBlankRun (snd e) = true) names ->
  isClassWord lastName = true ->
  collapseBlanks None (classLine names lastName)
  = classLine (map (fun e => (fst e, " ")) names) lastName.
Proof.
  intros All Last. induction All as [|[w run] rest Hd All IH].
  - cbn [classLine map]. unfold isClassWord in Last.
    apply andb_true_iff in Last as [_ Last].
    rewrite <- (append_empty_r lastName) at 1.
    rewrite name_then; [now rewrite append_empty_r | exact Last | reflexivity].
  - cbn [fst snd] in Hd. apply andb_true_iff in Hd as [Hw Hrun].
    cbn [classLine map fst].
    destruct (classLine_head rest lastName All Last) as (x & r & E & Hx).
    rewrite E, name_then_blanks by assumption. rewrite <- E, IH. reflexivity.
Qed.

Lemma ends_in_name (s : string) (lastName : string) :
  isClassWord lastName = true ->
  forall keepSpace, shrinkTrailingBlanks keepSpace (s ++ lastName) = (s ++ lastName)%string.
Proof.
  intros Last keepSpace. unfold shrinkTrailingBlanks.
  unfold isClassWord in Last. apply andb_true_iff in Last as [NE Last].
  rewrite rev_append.
  destruct (JsString.rev lastName) as [|b r] eqn:E.
  - apply rev_empty in E. subst lastName. discriminate.
  - rewrite <- forallb_rev, E in Last. cbn [JsString.forallb] in Last.
    apply andb_true_iff in Last as [Hb _].
    destruct (classChar_kept b Hb) as (_ & B & _). cbn [append]. now rewrite B.
Qed.

Lemma classLine_ends (names : list (string * string)) (lastName : string) :
  exists s, classLine names lastName = (s ++ lastName)%string.
Proof.
  induction names as [|[w run] rest (s & E)]; [now exists EmptyString|].
  exists (w ++ run ++ s)%string. cbn [classLine].
  now rewrite E, !append_assoc.
Qed.

End ClassLineFacts.

(** X25.  Class names on one line, blanks between them and none after the
    last: every run of blanks comes out as one space, and the names stay
    as they are. *)
Theorem class_names_are_one_space_apart
  (names : list (string * string)) (lastName : string) (node parent : Node) :
  Forall (fun e => isClassWord (fst e) && isBlankRun (snd e) = true) names ->
  isClassWord lastName = true ->
  normalizeClassText (classLine names lastName) node parent
  = classLine (map (fun e => (fst e, " ")) names) lastName.
Proof.
  intros All Last. unfold normalizeClassText.
  rewrite (ClassLineFacts.collapse_classLine names lastName All Last).
  destruct (ClassLineFacts.classLine_ends (map (fun e => (fst e, " ")) names) lastName)
    as (s & ->).
  now apply ClassLineFacts.ends_in_name.
Qed.

Lemma class_names_witness :
  let node := Text (mkLoc 0 0) EmptyString EmptyString in
  normalizeClassText "btn   btn-primary  wide" node node = "btn btn-primary wide".
Proof.
  cbv zeta.
  refine (class_names_are_one_space_apart [("btn", "   "); ("btn-primary", "  ")] "wide"
            (Text (mkLoc 0 0) EmptyString EmptyString)
            (Text (mkLoc 0 0) EmptyString EmptyString) _ eq_refl).
  repeat constructor.
Defined.
